(** * The character-at-a-time JSON stream parser of IotCommon/json.c

    A shallow embedding of [json.c]: the parser record [parser_data_t],
    the helpers ([appendName], [setState], [toState], [upState], ...), the
    dispatcher [jsonEatNoLog] with its re-dispatch, the public entry points
    and the parser pool, followed by the properties established about
    them. *)

From Stdlib Require Import ZArith Ascii String Lia Bool.
From stdpp Require Import base tactics option list.

Local Open Scope Z_scope.

(** ** Constants *)

Definition MAXPARSERS : Z := 2.
Definition MAXSTATES : Z := 10.
Definition MAXSTACK : Z := 5.
Definition MAXERRORBUFFER : Z := 20.
Definition MAXNAME : Z := 30.
Definition MAXVALUE : Z := 160.

(** The [STATE_*] constants; [state_code] gives the integer of the
    [#define]. *)
Inductive jstate : Set :=
| STATE_NONE | STATE_INOBJECT | STATE_TONAME | STATE_INNAME | STATE_TOCOLUMN
| STATE_TOVALUE | STATE_INSTRING | STATE_INNUM | STATE_INARRAY | STATE_OUTVALUE.

Definition state_code (s : jstate) : Z :=
  match s with
  | STATE_NONE => 0 | STATE_INOBJECT => 1 | STATE_TONAME => 2
  | STATE_INNAME => 3 | STATE_TOCOLUMN => 4 | STATE_TOVALUE => 5
  | STATE_INSTRING => 6 | STATE_INNUM => 7 | STATE_INARRAY => 8
  | STATE_OUTVALUE => 9
  end.

Definition ERR_NONE : Z := 0.
Definition ERR_DISCARD : Z := 1.
Definition ERR_NAMETOOLONG : Z := 2.
Definition ERR_VALUETOOLONG : Z := 3.
Definition ERR_PARSE_OBJECT : Z := 4.
Definition ERR_PARSE_NAME : Z := 5.
Definition ERR_PARSE_ILLNAME : Z := 6.
Definition ERR_PARSE_ASSIGNMENT : Z := 7.
Definition ERR_PARSE_VALUE : Z := 8.
Definition ERR_PARSE_ARRAY : Z := 9.
Definition ERR_INTERNAL : Z := 10.

Definition json_errors : list string :=
  [ "none"; "discard"; "name too long"; "value too long"; "parsing object";
    "parsing name"; "illegal name char"; "parsing assignment";
    "parsing value"; "parsing array"; "internal error" ]%string.

(** ** Characters and C strings *)

Definition NUL : ascii := "000"%char.
Definition dquote : ascii := Ascii.ascii_of_nat 34.
Definition backslash : ascii := Ascii.ascii_of_nat 92.

Definition chr (c : ascii) : Z := Z.of_N (N_of_ascii c).

(** What a [char *] denotes: the bytes from the pointed-to position up to
    the first NUL. *)
Fixpoint c_str (l : list ascii) : list ascii :=
  match l with
  | [] => []
  | c :: r => if Ascii.eqb c NUL then [] else c :: c_str r
  end.

Definition strlen (l : list ascii) : Z := Z.of_nat (length (c_str l)).

Definition as_string (l : list ascii) : string :=
  string_of_list_ascii (c_str l).

(** Source text is written with an apostrophe wherever the JSON has a
    double quote; [json] puts the double quotes back. *)
Definition json (s : string) : list ascii :=
  map (fun c => if Ascii.eqb c "'"%char then dquote else c)
      (list_ascii_of_string s).

Definition isWhiteSpace (c : ascii) : bool :=
  Ascii.eqb c " "%char || Ascii.eqb c "013"%char
  || Ascii.eqb c "010"%char || Ascii.eqb c "009"%char.

Definition isSign (c : ascii) : bool :=
  Ascii.eqb c "-"%char || Ascii.eqb c "+"%char.

Definition isNum (c : ascii) : bool :=
  (chr "0" <=? chr c) && (chr c <=? chr "9").

Definition isAlpha (c : ascii) : bool :=
  ((chr "a" <=? chr c) && (chr c <=? chr "z"))
  || ((chr "A" <=? chr c) && (chr c <=? chr "Z")).

Definition isValidNameChar (c : ascii) : bool :=
  isAlpha c || isNum c || Ascii.eqb c "_"%char || Ascii.eqb c "+"%char.

(** ** What the caller observes

    The callback invocations, and [EvOutOfBounds]: a store outside an
    array, after which the behaviour of the program is undefined.  What
    a run yields after [EvOutOfBounds] says nothing about the program. *)

Inductive event : Type :=
| EvError (err : Z) (msg : string) (context : string)
| EvObjectStart (name : string)
| EvObjectComplete (name : string)
| EvArrayStart (name : string)
| EvArrayComplete (name : string)
| EvString (name : string) (value : string)
| EvInteger (name : string) (value : Z)
| EvOutOfBounds.

(** ** The parser record

    [chars] holds the three character arrays of the struct in declaration
    order, [name[MAXSTACK][MAXNAME]], [value[MAXSTACK][MAXVALUE]] and
    [errbuf[MAXERRORBUFFER]], as one block of 970 bytes: they are adjacent
    [char] members, so an index one past a row addresses the first byte of
    what follows it.  The seven callback members record whether a handler
    is installed; an installed handler is observed through the [event] it
    receives. *)
Record parser_data_t : Type := mkParser {
  state : jstate;
  states : list jstate;
  stateIndex : Z;
  allowComma : Z;
  isSlash : Z;
  stack : Z;
  chars : list ascii;
  errbufIndex : Z;
  numchars : Z;
  onError : bool;
  onObjectStart : bool;
  onObjectComplete : bool;
  onArrayStart : bool;
  onArrayComplete : bool;
  onString : bool;
  onInteger : bool
}.

Definition name_at (s : Z) : nat := Z.to_nat (MAXNAME * s).
Definition value_at (s : Z) : nat :=
  Z.to_nat (MAXSTACK * MAXNAME + MAXVALUE * s).
Definition errbuf_at (i : Z) : nat :=
  Z.to_nat (MAXSTACK * MAXNAME + MAXSTACK * MAXVALUE + i).

(** [parser->name[s]] and [parser->value[s]] as pointers. *)
Definition name (p : parser_data_t) (s : Z) : list ascii :=
  drop (name_at s) (chars p).
Definition value (p : parser_data_t) (s : Z) : list ascii :=
  drop (value_at s) (chars p).
Definition errbuf (p : parser_data_t) (i : Z) : ascii :=
  default NUL (chars p !! errbuf_at i).

(** Field updates. *)
Definition set_state (v : jstate) (p : parser_data_t) : parser_data_t :=
  mkParser v (states p) (stateIndex p) (allowComma p) (isSlash p) (stack p)
    (chars p) (errbufIndex p) (numchars p) (onError p) (onObjectStart p)
    (onObjectComplete p) (onArrayStart p) (onArrayComplete p) (onString p)
    (onInteger p).
Definition set_states (v : list jstate) (p : parser_data_t) : parser_data_t :=
  mkParser (state p) v (stateIndex p) (allowComma p) (isSlash p) (stack p)
    (chars p) (errbufIndex p) (numchars p) (onError p) (onObjectStart p)
    (onObjectComplete p) (onArrayStart p) (onArrayComplete p) (onString p)
    (onInteger p).
Definition set_stateIndex (v : Z) (p : parser_data_t) : parser_data_t :=
  mkParser (state p) (states p) v (allowComma p) (isSlash p) (stack p)
    (chars p) (errbufIndex p) (numchars p) (onError p) (onObjectStart p)
    (onObjectComplete p) (onArrayStart p) (onArrayComplete p) (onString p)
    (onInteger p).
Definition set_allowComma (v : Z) (p : parser_data_t) : parser_data_t :=
  mkParser (state p) (states p) (stateIndex p) v (isSlash p) (stack p)
    (chars p) (errbufIndex p) (numchars p) (onError p) (onObjectStart p)
    (onObjectComplete p) (onArrayStart p) (onArrayComplete p) (onString p)
    (onInteger p).
Definition set_isSlash (v : Z) (p : parser_data_t) : parser_data_t :=
  mkParser (state p) (states p) (stateIndex p) (allowComma p) v (stack p)
    (chars p) (errbufIndex p) (numchars p) (onError p) (onObjectStart p)
    (onObjectComplete p) (onArrayStart p) (onArrayComplete p) (onString p)
    (onInteger p).
Definition set_stack (v : Z) (p : parser_data_t) : parser_data_t :=
  mkParser (state p) (states p) (stateIndex p) (allowComma p) (isSlash p) v
    (chars p) (errbufIndex p) (numchars p) (onError p) (onObjectStart p)
    (onObjectComplete p) (onArrayStart p) (onArrayComplete p) (onString p)
    (onInteger p).
Definition set_chars (v : list ascii) (p : parser_data_t) : parser_data_t :=
  mkParser (state p) (states p) (stateIndex p) (allowComma p) (isSlash p)
    (stack p) v (errbufIndex p) (numchars p) (onError p) (onObjectStart p)
    (onObjectComplete p) (onArrayStart p) (onArrayComplete p) (onString p)
    (onInteger p).
Definition set_errbufIndex (v : Z) (p : parser_data_t) : parser_data_t :=
  mkParser (state p) (states p) (stateIndex p) (allowComma p) (isSlash p)
    (stack p) (chars p) v (numchars p) (onError p) (onObjectStart p)
    (onObjectComplete p) (onArrayStart p) (onArrayComplete p) (onString p)
    (onInteger p).
Definition set_numchars (v : Z) (p : parser_data_t) : parser_data_t :=
  mkParser (state p) (states p) (stateIndex p) (allowComma p) (isSlash p)
    (stack p) (chars p) (errbufIndex p) v (onError p) (onObjectStart p)
    (onObjectComplete p) (onArrayStart p) (onArrayComplete p) (onString p)
    (onInteger p).

(** A store of one byte: [a[i] = c]. *)
Definition poke (i : nat) (c : ascii) (p : parser_data_t) : parser_data_t :=
  set_chars (<[i := c]> (chars p)) p.

(** [int] arithmetic of the one counter that grows without a guard. *)
Definition int32 (z : Z) : Z := (z + 2 ^ 31) mod 2 ^ 32 - 2 ^ 31.

(** ** Actions: parser state in, result, parser state and callback
    invocations out *)

Definition M (A : Type) : Type := parser_data_t -> A * parser_data_t * list event.

Definition ret {A} (a : A) : M A := fun p => (a, p, []).
Definition bind {A B} (m : M A) (f : A -> M B) : M B :=
  fun p =>
    let r := m p in
    let r' := f (fst (fst r)) (snd (fst r)) in
    (fst (fst r'), snd (fst r'), snd r ++ snd r').
Definition modify (f : parser_data_t -> parser_data_t) : M unit :=
  fun p => (tt, f p, []).
Definition get {A} (f : parser_data_t -> A) : M A := fun p => (f p, p, []).
Definition when (b : bool) (m : M unit) : M unit := if b then m else ret tt.
(** [if (parser->cb != NULL) parser->cb(...)]. *)
Definition call (cb : parser_data_t -> bool) (ev : parser_data_t -> event) : M unit :=
  fun p => (tt, p, if cb p then [ev p] else []).

#[global] Instance M_ret : MRet M := @ret.
#[global] Instance M_bind : MBind M := fun A B f m => bind m f.

Definition exec {A} (m : M A) (p : parser_data_t) : parser_data_t := snd (fst (m p)).
Definition emitted {A} (m : M A) (p : parser_data_t) : list event := snd (m p).

(** ** Error handling *)

Definition jsonReset : M unit :=
  modify (set_allowComma 0) ;;
  modify (set_isSlash 0) ;;
  modify (set_state STATE_NONE) ;;
  modify (set_stateIndex 0) ;;
  modify (set_stack 0) ;;
  modify (fun p => poke (name_at (stack p)) NUL p) ;;
  modify (fun p => poke (value_at (stack p)) NUL p) ;;
  modify (set_errbufIndex 0) ;;
  modify (set_numchars 0).

(** The copy loop of [jsonError]: [n] bytes of [errbuf] from [start],
    wrapping at [MAXERRORBUFFER]. *)
Fixpoint copy_errbuf (p : parser_data_t) (n : nat) (start : Z) : list ascii :=
  match n with
  | O => []
  | S n' =>
      errbuf p start
      :: copy_errbuf p n' (if start + 1 >=? MAXERRORBUFFER then 0 else start + 1)
  end.

(** The local array [locerrbuf[MAXERRORBUFFER + 2]] after the copy
    loop and [locerrbuf[len] = 0].  [len] is [numchars] capped at
    [MAXERRORBUFFER] from above only: once the [int] counter has wrapped
    it is negative, the loop does not run and the terminator is stored
    below the array.  That store is outside the array: [None]. *)
Definition locerrbuf (p : parser_data_t) : option (list ascii) :=
  let len := numchars p in
  let len := if len >=? MAXERRORBUFFER then MAXERRORBUFFER else len in
  let start := errbufIndex p - len in
  let start := if start <? 0 then start + MAXERRORBUFFER else start in
  if len <? 0 then None
  else Some (copy_errbuf p (Z.to_nat len) start ++ [NUL]).

(** The first part of [jsonError]: the local copy, then
    [if (parser->onError != NULL) parser->onError(err, json_errors[err],
    locerrbuf)].  Where the terminator is stored outside the array the
    run is undefined from there on, and the callback is not reached. *)
Definition report (err : Z) : M unit :=
  fun p =>
    (tt, p,
     match locerrbuf p with
     | Some buf =>
         if onError p
         then [EvError err (nth (Z.to_nat err) json_errors EmptyString) (as_string buf)]
         else []
     | None => [EvOutOfBounds]
     end).

Definition jsonError (err : Z) : M unit :=
  report err ;;
  jsonReset.

(** ** Helpers *)

Definition appendName (c : ascii) : M unit :=
  len ← get (fun p => strlen (name p (stack p)));
  if len <? MAXNAME then
    modify (fun p => poke (name_at (stack p) + Z.to_nat len) c p) ;;
    modify (fun p => poke (name_at (stack p) + Z.to_nat (len + 1)) NUL p)
  else
    jsonError ERR_NAMETOOLONG.

Definition appendValue (c : ascii) : M unit :=
  len ← get (fun p => strlen (value p (stack p)));
  if len <? MAXVALUE then
    modify (fun p => poke (value_at (stack p) + Z.to_nat len) c p) ;;
    modify (fun p => poke (value_at (stack p) + Z.to_nat (len + 1)) NUL p)
  else
    jsonError ERR_VALUETOOLONG.

Definition setState (st : jstate) : M unit :=
  modify (set_state st) ;;
  match st with
  | STATE_INNAME => modify (fun p => poke (name_at (stack p)) NUL p)
  | STATE_TOVALUE => modify (fun p => poke (value_at (stack p)) NUL p)
  | STATE_INOBJECT | STATE_INARRAY =>
      modify (fun p => set_stack (stack p + 1) p) ;;
      s ← get stack;
      if s <? MAXSTACK then modify (fun p => poke (name_at (stack p)) NUL p)
      else jsonError ERR_INTERNAL
  | _ => ret tt
  end.

Definition toState (st : jstate) : M unit :=
  modify (fun p => set_states (<[Z.to_nat (stateIndex p) := state p]> (states p)) p) ;;
  modify (fun p => set_stateIndex (stateIndex p + 1) p) ;;
  i ← get stateIndex;
  if i <? MAXSTATES then setState st else jsonError ERR_INTERNAL.

Definition upState : M unit :=
  i ← get stateIndex;
  if 0 <? i then
    modify (fun p => set_stateIndex (stateIndex p - 1) p) ;;
    modify (fun p => set_state
                       (default STATE_NONE (states p !! Z.to_nat (stateIndex p))) p) ;;
    s ← get state;
    match s with
    | STATE_INOBJECT | STATE_INARRAY =>
        k ← get stack;
        if 0 <? k then
          modify (fun p => set_stack (stack p - 1) p) ;;
          modify (set_allowComma 1)
        else jsonError ERR_INTERNAL
    | STATE_NONE => modify (fun p => poke (name_at (stack p)) NUL p)
    | _ => ret tt
    end
  else jsonError ERR_INTERNAL.

(** ** Eat character *)

Section Eat.

(** [Atoi] of atoi.h, the string-to-integer conversion the parser calls
    on a completed number; it is not part of json.c. *)
Variable Atoi : list ascii -> Z.

Definition name_arg (p : parser_data_t) : string := as_string (name p (stack p)).
Definition value_arg (p : parser_data_t) : string := as_string (value p (stack p)).

(** The [switch] of [jsonEatNoLog]; the result is the local [again]. *)
Definition dispatch (c : ascii) : M bool :=
  s ← get state;
  match s with
  | STATE_NONE =>
      (if Ascii.eqb c "{" then
         call onObjectStart (fun p => EvObjectStart (name_arg p)) ;;
         toState STATE_INOBJECT ;;
         toState STATE_TONAME ;;
         modify (set_allowComma 0)
       else if Ascii.eqb c dquote then toState STATE_INNAME
       else ret tt) ;;
      ret false
  | STATE_INOBJECT =>
      comma ← get allowComma;
      (if Ascii.eqb c "}" then
         call onObjectComplete (fun p => EvObjectComplete (name_arg p)) ;;
         upState
       else if Ascii.eqb c dquote then toState STATE_INNAME
       else if Ascii.eqb c "," && negb (comma =? 0) then
         modify (set_allowComma 0) ;;
         toState STATE_TONAME
       else when (negb (isWhiteSpace c)) (jsonError ERR_PARSE_OBJECT)) ;;
      ret false
  | STATE_TONAME =>
      (if Ascii.eqb c dquote then setState STATE_INNAME
       else when (negb (isWhiteSpace c)) (jsonError ERR_PARSE_NAME)) ;;
      ret false
  | STATE_INNAME =>
      (if Ascii.eqb c dquote then setState STATE_TOCOLUMN
       else if isValidNameChar c then appendName c
       else jsonError ERR_PARSE_ILLNAME) ;;
      ret false
  | STATE_TOCOLUMN =>
      (if Ascii.eqb c ":" then setState STATE_TOVALUE
       else when (negb (isWhiteSpace c)) (jsonError ERR_PARSE_ASSIGNMENT)) ;;
      ret false
  | STATE_TOVALUE =>
      (if Ascii.eqb c dquote then
         modify (set_isSlash 0) ;;
         setState STATE_INSTRING
       else if isNum c || isSign c then
         appendValue c ;;
         setState STATE_INNUM
       else if Ascii.eqb c "[" then
         call onArrayStart (fun p => EvArrayStart (name_arg p)) ;;
         setState STATE_INARRAY ;;
         toState STATE_TONAME
       else if Ascii.eqb c "{" then
         call onObjectStart (fun p => EvObjectStart (name_arg p)) ;;
         setState STATE_INOBJECT ;;
         toState STATE_TONAME
       else when (negb (isWhiteSpace c)) (jsonError ERR_PARSE_VALUE)) ;;
      ret false
  | STATE_INSTRING =>
      slash ← get isSlash;
      (if (slash =? 0) && Ascii.eqb c backslash then modify (set_isSlash 1)
       else if negb (slash =? 0) then
         modify (set_isSlash 0) ;;
         appendValue backslash ;;
         appendValue c
       else if Ascii.eqb c dquote then
         call onString (fun p => EvString (name_arg p) (value_arg p)) ;;
         setState STATE_OUTVALUE
       else appendValue c) ;;
      ret false
  | STATE_INNUM =>
      if isNum c then appendValue c ;; ret false
      else
        call onInteger
          (fun p => EvInteger (name_arg p) (Atoi (c_str (value p (stack p))))) ;;
        setState STATE_OUTVALUE ;;
        ret true
  | STATE_INARRAY =>
      comma ← get allowComma;
      (if Ascii.eqb c "]" then
         call onArrayComplete (fun p => EvArrayComplete (name_arg p)) ;;
         upState
       else if Ascii.eqb c dquote then toState STATE_INNAME
       else if Ascii.eqb c "," && negb (comma =? 0) then
         modify (set_allowComma 0) ;;
         toState STATE_TONAME
       else when (negb (isWhiteSpace c)) (jsonError ERR_PARSE_ARRAY)) ;;
      ret false
  | STATE_OUTVALUE =>
      if isWhiteSpace c then ret false
      else if Ascii.eqb c "," then toState STATE_TONAME ;; ret false
      else upState ;; ret true
  end.

(** [if (again) jsonEatNoLog(c)]: the recursion, unrolled at most [fuel]
    times. *)
Fixpoint eat_loop (fuel : nat) (c : ascii) : M unit :=
  match fuel with
  | O => ret tt
  | S k => again ← dispatch c; if again : bool then eat_loop k c else ret tt
  end.

(** A bound on the number of dispatches one character can cause: a
    re-dispatch follows only a completed number, which leaves
    [STATE_INNUM], or a pop in [STATE_OUTVALUE], which shortens the state
    stack. *)
Definition redispatches (p : parser_data_t) : nat :=
  match state p with
  | STATE_INNUM => 2 * Z.to_nat (stateIndex p) + 3
  | STATE_OUTVALUE => 2 * Z.to_nat (stateIndex p) + 2
  | _ => 1
  end.

Definition jsonEatNoLog (c : ascii) : M unit :=
  fun p => eat_loop (redispatches p) c p.

(** ** Public interface *)

Definition jsonEat (c : ascii) : M unit :=
  modify (fun p => set_numchars (int32 (numchars p + 1)) p) ;;
  when (negb (isWhiteSpace c))
    (modify (fun p => poke (errbuf_at (errbufIndex p)) c p) ;;
     modify (fun p => set_errbufIndex (errbufIndex p + 1) p) ;;
     i ← get errbufIndex;
     when (i >=? MAXERRORBUFFER) (modify (set_errbufIndex 0))) ;;
  jsonEatNoLog c.

(** Feeding a sequence of characters, one [jsonEat] each. *)
Fixpoint feed (cs : list ascii) : M unit :=
  match cs with
  | [] => ret tt
  | c :: r => jsonEat c ;; feed r
  end.

End Eat.

Definition jsonSetOnError (oe : bool) : M unit := modify (fun p =>
  mkParser (state p) (states p) (stateIndex p) (allowComma p) (isSlash p)
    (stack p) (chars p) (errbufIndex p) (numchars p) oe (onObjectStart p)
    (onObjectComplete p) (onArrayStart p) (onArrayComplete p) (onString p)
    (onInteger p)).
Definition jsonSetOnObjectStart (oos : bool) : M unit := modify (fun p =>
  mkParser (state p) (states p) (stateIndex p) (allowComma p) (isSlash p)
    (stack p) (chars p) (errbufIndex p) (numchars p) (onError p) oos
    (onObjectComplete p) (onArrayStart p) (onArrayComplete p) (onString p)
    (onInteger p)).
Definition jsonSetOnObjectComplete (oo : bool) : M unit := modify (fun p =>
  mkParser (state p) (states p) (stateIndex p) (allowComma p) (isSlash p)
    (stack p) (chars p) (errbufIndex p) (numchars p) (onError p)
    (onObjectStart p) oo (onArrayStart p) (onArrayComplete p) (onString p)
    (onInteger p)).
Definition jsonSetOnArrayStart (oas : bool) : M unit := modify (fun p =>
  mkParser (state p) (states p) (stateIndex p) (allowComma p) (isSlash p)
    (stack p) (chars p) (errbufIndex p) (numchars p) (onError p)
    (onObjectStart p) (onObjectComplete p) oas (onArrayComplete p) (onString p)
    (onInteger p)).
Definition jsonSetOnArrayComplete (oa : bool) : M unit := modify (fun p =>
  mkParser (state p) (states p) (stateIndex p) (allowComma p) (isSlash p)
    (stack p) (chars p) (errbufIndex p) (numchars p) (onError p)
    (onObjectStart p) (onObjectComplete p) (onArrayStart p) oa (onString p)
    (onInteger p)).
Definition jsonSetOnString (os : bool) : M unit := modify (fun p =>
  mkParser (state p) (states p) (stateIndex p) (allowComma p) (isSlash p)
    (stack p) (chars p) (errbufIndex p) (numchars p) (onError p)
    (onObjectStart p) (onObjectComplete p) (onArrayStart p) (onArrayComplete p)
    os (onInteger p)).
Definition jsonSetOnInteger (oi : bool) : M unit := modify (fun p =>
  mkParser (state p) (states p) (stateIndex p) (allowComma p) (isSlash p)
    (stack p) (chars p) (errbufIndex p) (numchars p) (onError p)
    (onObjectStart p) (onObjectComplete p) (onArrayStart p) (onArrayComplete p)
    (onString p) oi).

(** A [parser_data_t] as static storage starts out: all bytes zero, no
    handler installed. *)
Definition zeroed : parser_data_t :=
  mkParser STATE_NONE (replicate (Z.to_nat MAXSTATES) STATE_NONE) 0 0 0 0
    (replicate (Z.to_nat (MAXSTACK * MAXNAME + MAXSTACK * MAXVALUE + MAXERRORBUFFER)) NUL)
    0 0 false false false false false false false.

Definition register_all : M unit :=
  jsonSetOnError true ;; jsonSetOnObjectStart true ;;
  jsonSetOnObjectComplete true ;; jsonSetOnArrayStart true ;;
  jsonSetOnArrayComplete true ;; jsonSetOnString true ;;
  jsonSetOnInteger true.

(** A freshly reset slot with every callback registered. *)
Definition fresh : parser_data_t := exec (register_all ;; jsonReset) zeroed.

(** ** Parser switching *)

Definition newline : string := String "010"%char EmptyString.

(** The pool [parserData[MAXPARSERS]], the pointer [parser] as the index
    of the slot it points to, and what the switching functions print. *)
Record parser_pool : Type := mkPool {
  parserData : list parser_data_t;
  parser : Z;
  printed : list string
}.

Definition pool0 : parser_pool :=
  mkPool (replicate (Z.to_nat MAXPARSERS) zeroed) 0 [].

(** The search loop of [jsonGetSelected], [n] slots left from index [i]. *)
Fixpoint find_selected (g : parser_pool) (n : nat) (i : Z) : Z :=
  match n with
  | O => 0
  | S n' => if parser g =? i then i else find_selected g n' (i + 1)
  end.

Definition jsonGetSelected (g : parser_pool) : Z :=
  find_selected g (Z.to_nat MAXPARSERS) 0.

Definition jsonSelectNext (g : parser_pool) : parser_pool :=
  let p := jsonGetSelected g in
  if p <? MAXPARSERS - 1 then mkPool (parserData g) (p + 1) (printed g)
  else mkPool (parserData g) (parser g)
         (printed g ++ [("Error: parser overflow" ++ newline)%string]).

Definition jsonSelectPrev (g : parser_pool) : parser_pool :=
  let p := jsonGetSelected g in
  if 0 <? p then mkPool (parserData g) (p - 1) (printed g)
  else mkPool (parserData g) (parser g)
         (printed g ++ [("Error: parser underflow" ++ newline)%string]).

(** An action of the public interface runs on the slot [parser] points
    to. *)
Definition on_parser (m : M unit) (g : parser_pool) : parser_pool * list event :=
  match parserData g !! Z.to_nat (parser g) with
  | Some p =>
      (mkPool (<[Z.to_nat (parser g) := exec m p]> (parserData g)) (parser g)
         (printed g),
       emitted m p)
  | None => (g, [])
  end.

(** ** Vocabulary of the properties *)

(** The value of a string of decimal digits. *)
Definition digits_value (l : list ascii) : Z :=
  fold_left (fun acc c => if isNum c then 10 * acc + (chr c - chr "0") else acc) l 0.

(** Modelled from the spec: the string-to-integer conversion of atoi.h,
    which json.c calls and does not define.  The spec has it take "a
    bounded ASCII digit/sign string" and return "a signed integer value":
    an optional sign followed by decimal digits.  It instantiates the
    parameter [Atoi] where a closed statement needs one. *)
Definition Atoi_decimal (l : list ascii) : Z :=
  match l with
  | c :: r =>
      if Ascii.eqb c "-" then - digits_value r
      else if Ascii.eqb c "+" then digits_value r
      else digits_value l
  | [] => 0
  end.

(** The slot as [jsonReset] leaves the parse: Idle, both stacks empty,
    both flags clear. *)
Definition idle (p : parser_data_t) : Prop :=
  state p = STATE_NONE /\ stateIndex p = 0 /\ stack p = 0
  /\ allowComma p = 0 /\ isSlash p = 0.

(** The bounds every array index of the record stays within. *)
Record wf (p : parser_data_t) : Prop := mkWf {
  wf_states : length (states p) = Z.to_nat MAXSTATES;
  wf_chars : length (chars p)
             = Z.to_nat (MAXSTACK * MAXNAME + MAXSTACK * MAXVALUE + MAXERRORBUFFER);
  wf_stateIndex : 0 <= stateIndex p < MAXSTATES;
  wf_stack : 0 <= stack p < MAXSTACK;
  wf_errbufIndex : 0 <= errbufIndex p < MAXERRORBUFFER
}.

(** The bytes at [off] are the NUL-terminated string [s]. *)
Definition holds (m : list ascii) (off : nat) (s : list ascii) : Prop :=
  take (S (length s)) (drop off m) = s ++ [NUL] /\ Forall (fun c => c <> NUL) s.

Definition is_container (s : jstate) : bool :=
  match s with STATE_INOBJECT | STATE_INARRAY => true | _ => false end.

(** The dispatches that call [upState]. *)
Definition pops (p : parser_data_t) (c : ascii) : bool :=
  match state p with
  | STATE_INOBJECT => Ascii.eqb c "}"
  | STATE_INARRAY => Ascii.eqb c "]"
  | STATE_OUTVALUE => negb (isWhiteSpace c) && negb (Ascii.eqb c ",")
  | _ => false
  end.

(** The text of a string value between its quotes: plain characters and
    two-character escape sequences. *)
Inductive piece : Set :=
| Plain (c : ascii)
| Escaped (c : ascii).

Definition piece_text (x : piece) : list ascii :=
  match x with
  | Plain c => [c]
  | Escaped c => [backslash; c]
  end.

Definition text (xs : list piece) : list ascii := concat (map piece_text xs).

(** Plain characters are anything but quote, backslash and NUL; the
    escape sequences are backslash-quote and backslash-backslash. *)
Definition piece_ok (x : piece) : Prop :=
  match x with
  | Plain c => c <> dquote /\ c <> backslash /\ c <> NUL
  | Escaped c => c = dquote \/ c = backslash
  end.

Definition str (cs : list ascii) : string := string_of_list_ascii cs.

(** [p] with another content of the character block and other values of
    the two counters of the diagnostic buffer. *)
Definition relog (m : list ascii) (ei nc : Z) (p : parser_data_t) : parser_data_t :=
  set_chars m (set_errbufIndex ei (set_numchars nc p)).

(** The character [c] arrives when the name or value being collected has
    no room for what it would append: a name character with [MAXNAME]
    characters collected, a string character or a digit with [MAXVALUE]
    collected, or the second character of an escape sequence with fewer
    than two places left. *)
Definition overflows (p : parser_data_t) (c : ascii) : Prop :=
  match state p with
  | STATE_INNAME =>
      isValidNameChar c = true /\ MAXNAME <= strlen (name p (stack p))
  | STATE_INSTRING =>
      if isSlash p =? 0
      then c <> dquote /\ c <> backslash /\ MAXVALUE <= strlen (value p (stack p))
      else MAXVALUE <= strlen (value p (stack p)) + 1
  | STATE_INNUM => isNum c = true /\ MAXVALUE <= strlen (value p (stack p))
  | _ => False
  end.

Definition length_error (p : parser_data_t) : Z :=
  match state p with
  | STATE_INNAME => ERR_NAMETOOLONG
  | _ => ERR_VALUETOOLONG
  end.

Definition message (err : Z) : string :=
  nth (Z.to_nat err) json_errors EmptyString.

(** The local copy [jsonError] makes, and the context string it hands
    to the error callback, where the copy stays inside its array. *)
Definition context_bytes (p : parser_data_t) : list ascii :=
  default [] (locerrbuf p).


(** Feeding characters to the slot [parser] points to. *)
Definition feed_selected (Atoi : list ascii -> Z) (cs : list ascii)
    (r : parser_pool * list event) : parser_pool * list event :=
  let r' := on_parser (feed Atoi cs) (fst r) in (fst r', snd r ++ snd r').

(** A pool whose two slots have every callback registered and are
    reset. *)
Definition pool_ready : parser_pool :=
  mkPool (replicate (Z.to_nat MAXPARSERS) fresh) 0 [].

(** [keeps P m]: running [m] from a state in [P] ends in [P]. *)
Definition keeps (P : parser_data_t -> Prop) {A} (m : M A) : Prop :=
  forall p, P p -> P (exec m p).

(** The count of characters since the last reset is at most [n]: it
    has not wrapped. *)
Definition counted (n : Z) (p : parser_data_t) : Prop := 0 <= numchars p <= n.

(** [lowers m]: running [m] leaves the comma flag as it was or clears
    it. *)
Definition flag_low (p q : parser_data_t) : Prop :=
  allowComma q = allowComma p \/ allowComma q = 0.

Definition lowers {A} (m : M A) : Prop := forall p, flag_low p (exec m p).

(** The seven callback members. *)
Definition callbacks (p : parser_data_t) : list bool :=
  [onError p; onObjectStart p; onObjectComplete p; onArrayStart p;
   onArrayComplete p; onString p; onInteger p].

(** The character [c] is one the state of [p] has no use for; the
    result is the error code of that state. *)
Definition syntax_error (p : parser_data_t) (c : ascii) : option Z :=
  match state p with
  | STATE_INOBJECT =>
      if Ascii.eqb c "}" || Ascii.eqb c dquote
         || (Ascii.eqb c "," && negb (allowComma p =? 0)) || isWhiteSpace c
      then None else Some ERR_PARSE_OBJECT
  | STATE_TONAME =>
      if Ascii.eqb c dquote || isWhiteSpace c then None else Some ERR_PARSE_NAME
  | STATE_INNAME =>
      if Ascii.eqb c dquote || isValidNameChar c then None
      else Some ERR_PARSE_ILLNAME
  | STATE_TOCOLUMN =>
      if Ascii.eqb c ":" || isWhiteSpace c then None
      else Some ERR_PARSE_ASSIGNMENT
  | STATE_TOVALUE =>
      if Ascii.eqb c dquote || isNum c || isSign c || Ascii.eqb c "["
         || Ascii.eqb c "{" || isWhiteSpace c
      then None else Some ERR_PARSE_VALUE
  | STATE_INARRAY =>
      if Ascii.eqb c "]" || Ascii.eqb c dquote
         || (Ascii.eqb c "," && negb (allowComma p =? 0)) || isWhiteSpace c
      then None else Some ERR_PARSE_ARRAY
  | _ => None
  end.

(** What [{] and [[] open: the state entered and the callback invoked
    with the name of the field. *)
Definition opened_state (c : ascii) : jstate :=
  if Ascii.eqb c "[" then STATE_INARRAY else STATE_INOBJECT.

Definition opened_event (c : ascii) (name : string) : event :=
  if Ascii.eqb c "[" then EvArrayStart name else EvObjectStart name.

(** [p] after a push of its state: the state saved at [stateIndex], the
    index advanced, and [st] the new state. *)
Definition pushed (st : jstate) (p : parser_data_t) : parser_data_t :=
  set_state st
    (set_stateIndex (stateIndex p + 1)
       (set_states (<[Z.to_nat (stateIndex p) := state p]> (states p)) p)).

(** The callback member an invocation goes through; the store outside
    [locerrbuf] is no invocation and goes through none. *)
Definition event_callback (e : event) (p : parser_data_t) : bool :=
  match e with
  | EvError _ _ _ => onError p
  | EvObjectStart _ => onObjectStart p
  | EvObjectComplete _ => onObjectComplete p
  | EvArrayStart _ => onArrayStart p
  | EvArrayComplete _ => onArrayComplete p
  | EvString _ _ => onString p
  | EvInteger _ _ => onInteger p
  | EvOutOfBounds => true
  end.

(** [guarded m]: running [m] leaves the seven callback members as they
    are and invokes only callbacks that are registered. *)
Definition guarded {A} (m : M A) : Prop :=
  forall p, callbacks (exec m p) = callbacks p
            /\ Forall (fun e => event_callback e p = true) (emitted m p).


(** [settles Atoi fuel c p]: the dispatches of the character [c] from
    [p], each starting from the slot the one before left, come to a
    dispatch that does not ask for another within [fuel] of them. *)
Fixpoint settles (Atoi : list ascii -> Z) (fuel : nat) (c : ascii)
    (p : parser_data_t) : bool :=
  match fuel with
  | O => false
  | S k =>
      let r := dispatch Atoi c p in
      if fst (fst r) then settles Atoi k c (snd (fst r)) else true
  end.
(** The character that closes a container, and what its completion
    delivers. *)
Definition closer (s : jstate) : ascii :=
  match s with STATE_INARRAY => "]"%char | _ => "}"%char end.

Definition closed_event (s : jstate) (name : string) : event :=
  match s with
  | STATE_INARRAY => EvArrayComplete name
  | _ => EvObjectComplete name
  end.

(** The slot after a pop that landed in the container [s] saved at
    [states[b]]. *)
Definition landed (s : jstate) (b : Z) (p : parser_data_t) : parser_data_t :=
  set_allowComma 1 (set_stack (stack p - 1) (set_stateIndex b (set_state s p))).

(** A field with a string value, as written: its name and the pieces of
    its text. *)
Definition field_text (f : list ascii * list piece) : list ascii :=
  dquote :: fst f ++ dquote :: ":"%char :: dquote :: text (snd f) ++ [dquote].

Fixpoint fields_text (fs : list (list ascii * list piece)) : list ascii :=
  match fs with
  | [] => []
  | [f] => field_text f
  | f :: r => field_text f ++ ","%char :: fields_text r
  end.

Definition field_ok (f : list ascii * list piece) : Prop :=
  Forall (fun c => isValidNameChar c = true) (fst f) /\ (length (fst f) <= 30)%nat
  /\ Forall piece_ok (snd f) /\ (length (text (snd f)) < 160)%nat.

Definition field_event (f : list ascii * list piece) : event :=
  EvString (str (fst f)) (str (text (snd f))).

(** The slot inside a top-level object after [k] commas, in state
    [st]. *)
Definition in_object (k : nat) (st : jstate) (p : parser_data_t) : Prop :=
  wf p /\ state p = st /\ stateIndex p = 2 + Z.of_nat k /\ stack p = 1
  /\ states p !! 0%nat = Some STATE_NONE /\ states p !! 1%nat = Some STATE_INOBJECT
  /\ (forall j, 1 < j < stateIndex p -> states p !! Z.to_nat j = Some STATE_OUTVALUE)
  /\ holds (chars p) (name_at 0) []
  /\ onString p = true /\ onObjectComplete p = true /\ onArrayComplete p = true.

(** The error buffer after the characters [l], none of them white
    space, have been fed since the last reset: the count, the write
    index, and each of the last [MAXERRORBUFFER] characters at its place
    in the ring. *)
Definition logged (p : parser_data_t) (l : list ascii) : Prop :=
  numchars p = Z.of_nat (length l)
  /\ errbufIndex p = Z.of_nat (length l) mod MAXERRORBUFFER
  /\ forall i, (i < length l)%nat -> (length l - i <= 20)%nat ->
       chars p !! errbuf_at (Z.of_nat i mod MAXERRORBUFFER) = l !! i.


(** An invocation of the error callback. *)
Definition is_error (e : event) : bool :=
  match e with EvError _ _ _ => true | _ => false end.

(** [q] has the error log of [p]: the count, the write index and the
    bytes of [errbuf], and the same error callback. *)
Definition same_log (p q : parser_data_t) : Prop :=
  numchars q = numchars p /\ errbufIndex q = errbufIndex p
  /\ onError q = onError p
  /\ forall i, (errbuf_at 0 <= i)%nat -> chars q !! i = chars p !! i.

(** [logsafe N G m]: run with the error callback registered, the count
    not negative and [N] rows of the name stack to spare, [m] either
    reports an error or leaves the error log as it is and raises the name
    stack by at most [G]. *)
Definition logsafe {A} (N : Z) (G : A -> Z) (m : M A) : Prop :=
  forall p, onError p = true -> 0 <= numchars p -> stack p + N < MAXSTACK ->
    Exists (fun e => is_error e = true) (emitted m p)
    \/ (same_log p (exec m p)
        /\ stack (exec m p) <= stack p + G (fst (fst (m p)))).


(** * Properties *)

(** ** Running actions *)

Lemma exec_bind {A B} (m : M A) (f : A -> M B) (p : parser_data_t) :
  exec (m ≫= f) p = exec (f (fst (fst (m p)))) (exec m p).
Proof. reflexivity. Qed.

Lemma emitted_bind {A B} (m : M A) (f : A -> M B) (p : parser_data_t) :
  emitted (m ≫= f) p = emitted m p ++ emitted (f (fst (fst (m p)))) (exec m p).
Proof. reflexivity. Qed.

Lemma feed_app_exec (Atoi : list ascii -> Z) (l1 l2 : list ascii) (p : parser_data_t) :
  exec (feed Atoi (l1 ++ l2)) p = exec (feed Atoi l2) (exec (feed Atoi l1) p).
Proof.
  revert p. induction l1 as [|c l1 IH]; intros p; [reflexivity|].
  simpl feed. rewrite !exec_bind. apply IH.
Qed.

Lemma feed_app_emitted (Atoi : list ascii -> Z) (l1 l2 : list ascii) (p : parser_data_t) :
  emitted (feed Atoi (l1 ++ l2)) p
  = emitted (feed Atoi l1) p ++ emitted (feed Atoi l2) (exec (feed Atoi l1) p).
Proof.
  revert p. induction l1 as [|c l1 IH]; intros p; [reflexivity|].
  simpl feed. rewrite !emitted_bind, !exec_bind, IH. apply app_assoc.
Qed.

Lemma feed_cons_exec (Atoi : list ascii -> Z) (c : ascii) (l : list ascii) (p : parser_data_t) :
  exec (feed Atoi (c :: l)) p = exec (feed Atoi l) (exec (jsonEat Atoi c) p).
Proof. reflexivity. Qed.

Lemma feed_cons_emitted (Atoi : list ascii -> Z) (c : ascii) (l : list ascii) (p : parser_data_t) :
  emitted (feed Atoi (c :: l)) p
  = emitted (jsonEat Atoi c) p ++ emitted (feed Atoi l) (exec (jsonEat Atoi c) p).
Proof. reflexivity. Qed.

(** ** The index bounds are an invariant *)

Lemma keeps_ret P {A} (a : A) : keeps P (ret a).
Proof. intros p H. exact H. Qed.

Lemma keeps_mret P {A} (a : A) : keeps P (mret a : M A).
Proof. intros p H. exact H. Qed.

Lemma keeps_get P {A} (f : parser_data_t -> A) : keeps P (get f).
Proof. intros p H. exact H. Qed.

Lemma keeps_call P cb ev : keeps P (call cb ev).
Proof. intros p H. exact H. Qed.

Lemma keeps_report P err : keeps P (report err).
Proof. intros p H. exact H. Qed.

Lemma keeps_bind P {A B} (m : M A) (f : A -> M B) :
  keeps P m -> (forall a, keeps P (f a)) -> keeps P (m ≫= f).
Proof. intros Hm Hf p H. rewrite exec_bind. apply Hf, Hm, H. Qed.

Lemma keeps_when P (b : bool) (m : M unit) : keeps P m -> keeps P (when b m).
Proof. intros Hm. destruct b; [exact Hm | apply keeps_ret]. Qed.

Lemma keeps_if P {A} (b : bool) (m1 m2 : M A) :
  keeps P m1 -> keeps P m2 -> keeps P (if b then m1 else m2).
Proof. destruct b; auto. Qed.

Create HintDb keeps.
#[local] Hint Resolve keeps_ret keeps_mret keeps_get keeps_call keeps_report : keeps.

(** Splits a goal [keeps P m] along the structure of [m]. *)
Ltac keeps_split :=
  repeat lazymatch goal with
    | |- keeps _ (mbind _ _) => apply keeps_bind; [|intros ?]
    | |- keeps _ (if _ then _ else _) => apply keeps_if
    | |- keeps _ (when _ _) => apply keeps_when
    | |- keeps _ _ => solve [auto 1 with keeps]
    end.

(** Unfolding of the action combinators and of the record updates, and
    nothing else. *)
Ltac run_m :=
  cbv beta iota zeta delta
    [exec emitted mbind mret M_bind M_ret bind ret modify get when call report fst snd
     set_state set_states set_stateIndex set_allowComma set_isSlash set_stack
     set_chars set_errbufIndex set_numchars poke
     state states stateIndex allowComma isSlash stack chars errbufIndex
     numchars onError onObjectStart onObjectComplete onArrayStart
     onArrayComplete onString onInteger].

Ltac wf_crush :=
  constructor; run_m; rewrite ?length_insert; try assumption; try lia.

Lemma wf_fresh : wf fresh.
Proof. constructor; vm_compute; try reflexivity; split; congruence. Qed.

Lemma jsonReset_wf : keeps wf jsonReset.
Proof.
  intros p [Hs Hc Hi Hk He]. destruct p. cbn in *.
  unfold jsonReset. wf_crush.
Qed.

#[local] Hint Resolve jsonReset_wf : keeps.

Lemma jsonError_wf err : keeps wf (jsonError err).
Proof. unfold jsonError. keeps_split. Qed.

Lemma poke_wf i c : keeps wf (modify (fun p => poke (i p) c p)).
Proof. intros p [Hs Hc Hi Hk He]. destruct p. cbn in *. wf_crush. Qed.

#[local] Hint Resolve jsonError_wf poke_wf : keeps.

Lemma appendName_wf c : keeps wf (appendName c).
Proof.
  unfold appendName. keeps_split.
Qed.

Lemma appendValue_wf c : keeps wf (appendValue c).
Proof.
  unfold appendValue. keeps_split.
Qed.

(** Runs an unfolded action, splitting on every test it meets. *)
Ltac case_test :=
  match goal with
  | |- context [if ?b then _ else _] =>
      lazymatch type of b with bool => destruct b eqn:? end
  | |- context [match ?s with STATE_NONE => _ | _ => _ end] =>
      destruct s eqn:?
  end.

Ltac run_cases := repeat (run_m; case_test); run_m.

Lemma setState_wf st : keeps wf (setState st).
Proof.
  intros p [Hs Hc Hi Hk He]. destruct p. cbn in *.
  unfold setState, jsonError, jsonReset.
  destruct st; run_cases; wf_crush.
Qed.

Lemma toState_wf st : keeps wf (toState st).
Proof.
  intros p [Hs Hc Hi Hk He]. destruct p. cbn in *.
  unfold toState, setState, jsonError, jsonReset.
  destruct st; run_cases; wf_crush.
Qed.

Lemma upState_wf : keeps wf upState.
Proof.
  intros p [Hs Hc Hi Hk He]. destruct p. cbn in *.
  unfold upState, jsonError, jsonReset.
  run_cases; wf_crush.
Qed.

Lemma set_flag_wf f : 
  (forall p, states (f p) = states p /\ chars (f p) = chars p /\ stateIndex (f p) = stateIndex p
     /\ stack (f p) = stack p /\ errbufIndex (f p) = errbufIndex p) ->
  keeps wf (modify f).
Proof.
  intros Hf p [Hs Hc Hi Hk He]. destruct (Hf p) as (E1 & E2 & E3 & E4 & E5).
  unfold exec, modify; cbn. constructor; congruence.
Qed.

#[local] Hint Resolve appendName_wf appendValue_wf setState_wf toState_wf
  upState_wf : keeps.

Lemma dispatch_wf Atoi c : keeps wf (dispatch Atoi c).
Proof.
  unfold dispatch. apply keeps_bind; [apply keeps_get|]. intros s.
  destruct s; keeps_split; apply set_flag_wf; intros []; cbn; done.
Qed.

#[local] Hint Resolve dispatch_wf : keeps.

Lemma eat_loop_wf Atoi n c : keeps wf (eat_loop Atoi n c).
Proof.
  induction n as [|n IH]; simpl eat_loop; keeps_split.
Qed.

Lemma jsonEatNoLog_wf Atoi c : keeps wf (jsonEatNoLog Atoi c).
Proof. intros p H. apply (eat_loop_wf Atoi (redispatches p) c p H). Qed.

Lemma jsonEat_wf Atoi c : keeps wf (jsonEat Atoi c).
Proof.
  intros p H. unfold jsonEat.
  rewrite exec_bind, exec_bind. apply jsonEatNoLog_wf.
  destruct H as [Hs Hc Hi Hk He]. destruct p. cbn in *.
  run_cases; wf_crush.
Qed.

Lemma feed_wf Atoi cs : keeps wf (feed Atoi cs).
Proof.
  induction cs as [|c cs IH]; intros p H; [exact H|].
  rewrite feed_cons_exec. apply IH, jsonEat_wf, H.
Qed.

(** Every state a freshly reset slot can reach by feeding characters
    keeps its indices within the arrays. *)
Lemma reachable_wf Atoi cs : wf (exec (feed Atoi cs) fresh).
Proof. apply feed_wf, wf_fresh. Qed.

(** ** The count of characters

    Only [jsonEat] increments [numchars] and only [jsonReset] clears it,
    so a slot that has been fed fewer than [2^31] characters since its
    last reset has a count that has not wrapped. *)

Lemma counted_modify n f :
  (forall p, numchars (f p) = numchars p \/ numchars (f p) = 0) ->
  keeps (counted n) (modify f).
Proof.
  intros H p [H0 H1]. unfold counted, exec, modify. cbn [fst snd].
  destruct (H p) as [-> | ->]; lia.
Qed.

Ltac counted_split :=
  repeat lazymatch goal with
    | |- keeps _ (mbind _ _) => apply keeps_bind; [|intros ?]
    | |- keeps _ (if _ then _ else _) => apply keeps_if
    | |- keeps _ (when _ _) => apply keeps_when
    | |- keeps _ (match ?s with STATE_NONE => _ | _ => _ end) => destruct s
    | |- keeps (counted _) (modify _) =>
        apply counted_modify; intros []; run_m;
        first [left; reflexivity | right; reflexivity]
    | |- keeps _ _ => solve [auto 1 with counted nocore]
    end.

Create HintDb counted.
#[local] Hint Resolve keeps_ret keeps_mret keeps_get keeps_call keeps_report : counted.

Lemma jsonReset_counted n : keeps (counted n) jsonReset.
Proof. unfold jsonReset. counted_split. Qed.

#[local] Hint Resolve jsonReset_counted : counted.

Lemma jsonError_counted n err : keeps (counted n) (jsonError err).
Proof. unfold jsonError. counted_split. Qed.

#[local] Hint Resolve jsonError_counted : counted.

Lemma appendName_counted n c : keeps (counted n) (appendName c).
Proof. unfold appendName. counted_split. Qed.

Lemma appendValue_counted n c : keeps (counted n) (appendValue c).
Proof. unfold appendValue. counted_split. Qed.

Lemma setState_counted n st : keeps (counted n) (setState st).
Proof. unfold setState. counted_split. Qed.

#[local] Hint Resolve appendName_counted appendValue_counted setState_counted : counted.

Lemma toState_counted n st : keeps (counted n) (toState st).
Proof. unfold toState. counted_split. Qed.

Lemma upState_counted n : keeps (counted n) upState.
Proof. unfold upState. counted_split. Qed.

#[local] Hint Resolve toState_counted upState_counted : counted.

Lemma dispatch_counted n Atoi c : keeps (counted n) (dispatch Atoi c).
Proof. unfold dispatch. counted_split. Qed.

#[local] Hint Resolve dispatch_counted : counted.

Lemma eat_loop_counted n Atoi k c : keeps (counted n) (eat_loop Atoi k c).
Proof. induction k as [|k IH]; simpl eat_loop; counted_split. Qed.

Lemma jsonEat_counted n Atoi c p :
  counted n p -> n < 2 ^ 31 - 1 -> counted (n + 1) (exec (jsonEat Atoi c) p).
Proof.
  intros [H0 H1] Hn. unfold jsonEat. rewrite exec_bind, exec_bind.
  apply (eat_loop_counted (n + 1) Atoi _ c).
  assert (L : keeps (counted (n + 1))
                (when (negb (isWhiteSpace c))
                   (modify (fun p => poke (errbuf_at (errbufIndex p)) c p) ;;
                    modify (fun p => set_errbufIndex (errbufIndex p + 1) p) ;;
                    i ← get errbufIndex;
                    when (i >=? MAXERRORBUFFER) (modify (set_errbufIndex 0)))))
    by counted_split.
  apply L.
  unfold counted, exec, modify. cbn [fst snd]. destruct p. cbn [set_numchars numchars] in *.
  unfold int32. rewrite Z.mod_small by lia. lia.
Qed.

Lemma feed_counted Atoi cs : forall n p,
  counted n p -> n + Z.of_nat (length cs) < 2 ^ 31 ->
  counted (n + Z.of_nat (length cs)) (exec (feed Atoi cs) p).
Proof.
  induction cs as [|c cs IH]; intros n p H Hn.
  - cbn [length] in *. rewrite Z.add_0_r. exact H.
  - cbn [length] in Hn |- *. rewrite feed_cons_exec.
    replace (n + Z.of_nat (S (length cs))) with (n + 1 + Z.of_nat (length cs)) by lia.
    apply IH; [apply jsonEat_counted; [exact H | lia] | lia].
Qed.

(** ** The re-dispatch terminates *)

(** Unfolding of the machine: the combinators, the record and the
    helpers that do not measure a string. *)
Ltac run_h :=
  cbv beta iota zeta delta
    [exec emitted mbind mret M_bind M_ret bind ret modify get when call report fst snd
     set_state set_states set_stateIndex set_allowComma set_isSlash set_stack
     set_chars set_errbufIndex set_numchars poke
     state states stateIndex allowComma isSlash stack chars errbufIndex
     numchars onError onObjectStart onObjectComplete onArrayStart
     onArrayComplete onString onInteger
     dispatch setState toState upState jsonError jsonReset name_arg value_arg
     name value].

Tactic Notation "run_h" "in" hyp(H) :=
  cbv beta iota zeta delta
    [exec emitted mbind mret M_bind M_ret bind ret modify get when call report fst snd
     set_state set_states set_stateIndex set_allowComma set_isSlash set_stack
     set_chars set_errbufIndex set_numchars poke
     state states stateIndex allowComma isSlash stack chars errbufIndex
     numchars onError onObjectStart onObjectComplete onArrayStart
     onArrayComplete onString onInteger
     dispatch setState toState upState jsonError jsonReset name_arg value_arg
     name value] in H.

Ltac run_h_cases := repeat (run_h; case_test); run_h.

(** A dispatch that asks for the character again has shortened what is
    left to do. *)
Lemma dispatch_again_decreases Atoi c p :
  fst (fst (dispatch Atoi c p)) = true ->
  (redispatches (exec (dispatch Atoi c) p) < redispatches p)%nat.
Proof.
  destruct p as [s sts si ac sl sk m ei nc e1 e2 e3 e4 e5 e6 e7].
  intros H. unfold redispatches. destruct s; run_h in H; run_h; try discriminate.
  - destruct (isNum c); run_h in H; run_h; [discriminate | lia].
  - destruct (isWhiteSpace c); run_h in H; run_h; [discriminate|].
    destruct (Ascii.eqb c ","); run_h in H; run_h; [discriminate|].
    run_h_cases; lia.
Qed.

Lemma redispatches_pos p : (1 <= redispatches p)%nat.
Proof. unfold redispatches. destruct (state p); lia. Qed.

Lemma eat_loop_enough Atoi c n m p :
  (redispatches p <= n)%nat -> (redispatches p <= m)%nat ->
  eat_loop Atoi n c p = eat_loop Atoi m c p.
Proof.
  revert m p. induction n as [|n IH]; intros m p Hn Hm.
  - pose proof (redispatches_pos p). lia.
  - destruct m as [|m]; [pose proof (redispatches_pos p); lia|].
    simpl eat_loop. unfold mbind, M_bind, bind.
    destruct (fst (fst (dispatch Atoi c p))) eqn:E; [|reflexivity].
    pose proof (dispatch_again_decreases Atoi c p E) as Hd.
    unfold exec in Hd.
    rewrite (IH m (snd (fst (dispatch Atoi c p)))) by lia.
    reflexivity.
Qed.

(** [jsonEatNoLog] satisfies the recursion of the source: dispatch, and
    if [again] is set, [jsonEatNoLog] on the same character. *)
Lemma jsonEatNoLog_unfold Atoi c p :
  jsonEatNoLog Atoi c p
  = (again ← dispatch Atoi c;
     if again : bool then jsonEatNoLog Atoi c else mret tt) p.
Proof.
  unfold jsonEatNoLog at 1.
  pose proof (redispatches_pos p) as Hp.
  destruct (redispatches p) as [|n] eqn:En; [lia|].
  simpl eat_loop. unfold mbind, M_bind, bind.
  destruct (fst (fst (dispatch Atoi c p))) eqn:E; [|reflexivity].
  pose proof (dispatch_again_decreases Atoi c p E) as Hd.
  unfold exec in Hd. unfold jsonEatNoLog.
  rewrite (eat_loop_enough Atoi c n (redispatches (snd (fst (dispatch Atoi c p)))))
    by lia.
  reflexivity.
Qed.

(** ** Characters *)

Lemma valid_name_char c :
  isValidNameChar c = true -> c <> NUL /\ Ascii.eqb c dquote = false.
Proof.
  destruct c as [[] [] [] [] [] [] [] []]; vm_compute; intros H;
    first [discriminate H | split; [discriminate | reflexivity]].
Qed.

Lemma eqb_false c d : c <> d -> Ascii.eqb c d = false.
Proof. apply Ascii.eqb_neq. Qed.

(** ** NUL-terminated strings in the character block *)

Lemma c_str_app_nul s r :
  Forall (fun c => c <> NUL) s -> c_str (s ++ NUL :: r) = s.
Proof.
  induction 1 as [|c s Hc _ IH]; [reflexivity|].
  simpl. rewrite (eqb_false _ _ Hc), IH. reflexivity.
Qed.

Lemma holds_c_str m off s : holds m off s -> c_str (drop off m) = s.
Proof.
  intros [Ht Hs].
  rewrite <- (take_drop (S (length s)) (drop off m)), Ht, <- app_assoc.
  apply c_str_app_nul, Hs.
Qed.

Lemma holds_strlen m off s :
  holds m off s -> strlen (drop off m) = Z.of_nat (length s).
Proof. intros H. unfold strlen. rewrite (holds_c_str _ _ _ H). reflexivity. Qed.

Lemma holds_as_string m off s : holds m off s -> as_string (drop off m) = str s.
Proof. intros H. unfold as_string. rewrite (holds_c_str _ _ _ H). reflexivity. Qed.

Lemma holds_lookup m off s k :
  holds m off s -> (k <= length s)%nat -> m !! (off + k)%nat = (s ++ [NUL]) !! k.
Proof.
  intros [Ht _] Hk. rewrite <- Ht, lookup_take_lt, lookup_drop by lia.
  reflexivity.
Qed.

Lemma holds_intro m off s :
  (forall k, (k <= length s)%nat -> m !! (off + k)%nat = (s ++ [NUL]) !! k) ->
  Forall (fun c => c <> NUL) s -> holds m off s.
Proof.
  intros Hl Hs. split; [|exact Hs]. apply list_eq. intros i.
  destruct (decide (i < S (length s))%nat) as [Hi|Hi].
  - rewrite lookup_take_lt, lookup_drop by lia. apply Hl. lia.
  - rewrite lookup_take_ge by lia. symmetry. apply lookup_ge_None.
    rewrite length_app. simpl. lia.
Qed.

Lemma holds_poke_other m off s i x :
  holds m off s -> (i < off \/ off + length s < i)%nat ->
  holds (<[i := x]> m) off s.
Proof.
  intros H Hi. apply holds_intro; [|apply H]. intros k Hk.
  rewrite list_lookup_insert_ne by lia. apply holds_lookup; assumption.
Qed.

Lemma holds_nil m off : (off < length m)%nat -> holds (<[off := NUL]> m) off [].
Proof.
  intros Hoff. apply holds_intro; [|constructor]. intros k Hk.
  simpl in Hk. replace k with 0%nat by lia. rewrite Nat.add_0_r.
  apply list_lookup_insert_eq, Hoff.
Qed.

Lemma holds_append m off s c :
  holds m off s -> c <> NUL -> (off + length s + 1 < length m)%nat ->
  holds (<[(off + S (length s))%nat := NUL]> (<[(off + length s)%nat := c]> m))
    off (s ++ [c]).
Proof.
  intros H Hc Hlen. apply holds_intro.
  - intros k Hk. rewrite length_app in Hk. simpl in Hk.
    destruct (decide (k = S (length s))) as [->|Hk1].
    + rewrite list_lookup_insert_eq by (rewrite length_insert; lia).
      rewrite lookup_app_r by (rewrite length_app; simpl; lia).
      rewrite length_app. simpl. replace (S (length s) - (length s + 1))%nat with 0%nat by lia.
      reflexivity.
    + rewrite list_lookup_insert_ne by lia.
      destruct (decide (k = length s)) as [->|Hk2].
      * rewrite list_lookup_insert_eq by lia.
        rewrite lookup_app_l by (rewrite length_app; simpl; lia).
        rewrite lookup_app_r by lia. rewrite Nat.sub_diag. reflexivity.
      * rewrite list_lookup_insert_ne by lia.
        rewrite (holds_lookup _ _ _ _ H) by lia.
        rewrite !lookup_app_l by (rewrite ?length_app; simpl; lia).
        reflexivity.
  - apply Forall_app. split; [apply H|]. constructor; [exact Hc|constructor].
Qed.

(** A string that is long stays long under a store beyond the part
    measured. *)
Lemma c_str_long_insert l i x n :
  (n <= length (c_str l))%nat -> (n <= i)%nat ->
  (n <= length (c_str (<[i := x]> l)))%nat.
Proof.
  revert i n. induction l as [|a l IH]; intros i n Hn Hi.
  - simpl in *. exact Hn.
  - destruct n as [|n]; [lia|]. destruct i as [|i]; [lia|].
    simpl in *. destruct (Ascii.eqb a NUL); simpl in *; [lia|].
    apply le_n_S, IH; lia.
Qed.

Lemma errbuf_at_ge i : 0 <= i -> (950 <= errbuf_at i)%nat.
Proof. intros H. unfold errbuf_at, MAXSTACK, MAXNAME, MAXVALUE. lia. Qed.

Lemma name_at_bounds k : 0 <= k < MAXSTACK -> (name_at k + 30 <= 150)%nat.
Proof. unfold name_at, MAXSTACK, MAXNAME. lia. Qed.

Lemma value_at_bounds k :
  0 <= k < MAXSTACK -> (150 <= value_at k /\ value_at k + 160 <= 950)%nat.
Proof. unfold value_at, MAXSTACK, MAXNAME, MAXVALUE. lia. Qed.

(** ** One character at a time *)

(** [jsonEat] first records the character, which touches the diagnostic
    buffer and its two counters only, and then dispatches. *)
Lemma jsonEat_logs Atoi c p :
  wf p ->
  exists m1 ei1 nc1,
    jsonEat Atoi c p = jsonEatNoLog Atoi c (relog m1 ei1 nc1 p)
    /\ length m1 = length (chars p)
    /\ 0 <= ei1 < MAXERRORBUFFER
    /\ (forall off t, holds (chars p) off t -> (off + length t < 950)%nat ->
                      holds m1 off t)
    /\ (forall off n, (n <= length (c_str (drop off (chars p))))%nat ->
                      (off + n <= 950)%nat ->
                      (n <= length (c_str (drop off m1)))%nat)
    /\ nc1 = int32 (numchars p + 1).
Proof.
  intros [Hs Hc Hi Hk He].
  destruct p as [s sts si ac sl sk m ei nc e1 e2 e3 e4 e5 e6 e7]. cbn in *.
  unfold jsonEat. destruct (isWhiteSpace c) eqn:Ews.
  - exists m, ei, (int32 (nc + 1)).
    split; [|split; [reflexivity|split; [exact He|split; [auto|split; [auto|reflexivity]]]]].
    cbn [negb]. run_m. unfold relog. run_m.
    destruct (jsonEatNoLog Atoi c _) as [[[] q] ev]. reflexivity.
  - pose proof (errbuf_at_ge ei ltac:(lia)) as Hge.
    exists (<[errbuf_at ei := c]> m),
      (if ei + 1 >=? MAXERRORBUFFER then 0 else ei + 1), (int32 (nc + 1)).
    split; [|split; [|split; [|split; [|split; [|reflexivity]]]]].
    + cbn [negb]. run_m. unfold relog.
      destruct (ei + 1 >=? MAXERRORBUFFER); run_m;
        destruct (jsonEatNoLog Atoi c _) as [[[] q] ev]; reflexivity.
    + apply length_insert.
    + destruct (ei + 1 >=? MAXERRORBUFFER) eqn:E; unfold MAXERRORBUFFER in *; lia.
    + intros off t H Hoff. apply holds_poke_other; [exact H | lia].
    + intros off n Hn Hoff. rewrite drop_insert_ge by lia.
      apply c_str_long_insert; [exact Hn | lia].
Qed.

(** In [STATE_INNAME] a name character is appended to the name on top
    of the name stack as long as fewer than [MAXNAME] are there; nothing
    below that row changes and no callback is invoked. *)
Lemma eat_name_char Atoi c p s :
  wf p -> state p = STATE_INNAME -> isValidNameChar c = true ->
  holds (chars p) (name_at (stack p)) s -> (length s < 30)%nat ->
  exists m1 ei1 nc1,
    jsonEat Atoi c p = (tt, relog m1 ei1 nc1 p, [])
    /\ length m1 = length (chars p)
    /\ 0 <= ei1 < MAXERRORBUFFER
    /\ holds m1 (name_at (stack p)) (s ++ [c])
    /\ (forall off t, holds (chars p) off t -> (off + length t < name_at (stack p))%nat ->
                      holds m1 off t).
Proof.
  intros Hwf Hst Hc Hs Hlen.
  destruct (jsonEat_logs Atoi c p Hwf) as (m0 & ei0 & nc0 & Heq & Hl0 & He0 & Hrows & _).
  destruct (valid_name_char c Hc) as [Hnul Hdq].
  destruct Hwf as [Hws Hwc Hwi Hwk Hwe].
  pose proof (name_at_bounds _ Hwk) as Hnb.
  change (Z.to_nat _) with 970%nat in Hwc.
  assert (Hs0 : holds m0 (name_at (stack p)) s) by (apply Hrows; [exact Hs | lia]).
  destruct p as [st sts si ac sl sk m ei nc e1 e2 e3 e4 e5 e6 e7]. cbn in *. subst st.
  exists (<[(name_at sk + S (length s))%nat := NUL]>
            (<[(name_at sk + length s)%nat := c]> m0)), ei0, nc0.
  split; [|split; [|split; [|split]]].
  - rewrite Heq, jsonEatNoLog_unfold. unfold relog. run_h.
    rewrite Hdq, Hc. unfold appendName. run_m. unfold name. run_m.
    rewrite (holds_strlen _ _ _ Hs0).
    replace (Z.of_nat (length s) <? MAXNAME) with true
      by (symmetry; apply Z.ltb_lt; unfold MAXNAME; lia).
    run_m. rewrite Nat2Z.id.
    replace (Z.to_nat (Z.of_nat (length s) + 1)) with (S (length s)) by lia.
    reflexivity.
  - rewrite !length_insert. exact Hl0.
  - exact He0.
  - apply holds_append; [exact Hs0 | exact Hnul | lia].
  - intros off t Ht Hoff. apply holds_poke_other; [|lia].
    apply holds_poke_other; [|lia]. apply Hrows; [exact Ht | lia].
Qed.

Lemma wf_relog p m ei nc :
  wf p -> length m = length (chars p) -> 0 <= ei < MAXERRORBUFFER ->
  wf (relog m ei nc p).
Proof.
  intros [Hs Hc Hi Hk He] Hm Hei. destruct p. cbn in *.
  constructor; cbn; try assumption. congruence.
Qed.

Lemma result_parts {A} (m : M A) p a q ev :
  m p = (a, q, ev) -> exec m p = q /\ emitted m p = ev.
Proof. intros H. unfold exec, emitted. rewrite H. split; reflexivity. Qed.

Lemma feed_cons_run Atoi c l p q :
  jsonEat Atoi c p = (tt, q, []) -> feed Atoi (c :: l) p = feed Atoi l q.
Proof.
  intros H. simpl feed. unfold mbind, M_bind, bind. rewrite H. simpl.
  destruct (feed Atoi l q) as [[[] r] ev]. reflexivity.
Qed.

Lemma feed_app_run Atoi l1 l2 p q :
  feed Atoi l1 p = (tt, q, []) -> feed Atoi (l1 ++ l2) p = feed Atoi l2 q.
Proof.
  intros H.
  pose proof (feed_app_exec Atoi l1 l2 p) as He.
  pose proof (feed_app_emitted Atoi l1 l2 p) as Hv.
  unfold exec, emitted in *. rewrite H in *. simpl in *.
  destruct (feed Atoi (l1 ++ l2) p) as [[[] r] ev].
  destruct (feed Atoi l2 q) as [[[] r'] ev']. simpl in *. congruence.
Qed.

(** Names of up to [MAXNAME] characters are taken over unchanged. *)
Lemma feed_name Atoi nm : forall p s,
  wf p -> state p = STATE_INNAME ->
  Forall (fun c => isValidNameChar c = true) nm ->
  holds (chars p) (name_at (stack p)) s -> (length s + length nm <= 30)%nat ->
  exists m1 ei1 nc1,
    feed Atoi nm p = (tt, relog m1 ei1 nc1 p, [])
    /\ length m1 = length (chars p)
    /\ 0 <= ei1 < MAXERRORBUFFER
    /\ holds m1 (name_at (stack p)) (s ++ nm)
    /\ (forall off t, holds (chars p) off t -> (off + length t < name_at (stack p))%nat ->
                      holds m1 off t).
Proof.
  induction nm as [|c nm IH]; intros p s Hwf Hst Hv Hs Hlen.
  - exists (chars p), (errbufIndex p), (numchars p).
    rewrite app_nil_r. destruct Hwf. destruct p. cbn in *. auto.
  - inversion Hv as [|? ? Hc Hv']; subst. simpl in Hlen.
    destruct (eat_name_char Atoi c p s Hwf Hst Hc Hs ltac:(lia))
      as (m1 & ei1 & nc1 & Heq & Hl1 & He1 & Hs1 & Hf1).
    pose proof (wf_relog p m1 ei1 nc1 Hwf Hl1 He1) as Hwf1.
    destruct (IH (relog m1 ei1 nc1 p) (s ++ [c]) Hwf1) as
      (m2 & ei2 & nc2 & Heq2 & Hl2 & He2 & Hs2 & Hf2).
    + destruct p; exact Hst.
    + exact Hv'.
    + destruct p; exact Hs1.
    + rewrite length_app. simpl. lia.
    + exists m2, ei2, nc2. rewrite (feed_cons_run _ _ _ _ _ Heq), Heq2.
      split; [reflexivity|]. split; [|split; [exact He2|split]].
      * rewrite Hl2. destruct p; exact Hl1.
      * rewrite <- app_assoc in Hs2. destruct p; exact Hs2.
      * intros off t Ht Hoff.
        assert (Ht1 : holds m1 off t) by (apply Hf1; assumption).
        destruct p; apply Hf2; assumption.
Qed.

(** [appendValue] below the limit, in terms of the string in the row. *)
Lemma appendValue_ok c p s :
  holds (chars p) (value_at (stack p)) s -> (length s < 160)%nat ->
  appendValue c p
  = (tt,
     set_chars (<[(value_at (stack p) + S (length s))%nat := NUL]>
                  (<[(value_at (stack p) + length s)%nat := c]> (chars p))) p,
     []).
Proof.
  intros Hs Hlen. destruct p as [st sts si ac sl sk m ei nc e1 e2 e3 e4 e5 e6 e7].
  cbn in *. unfold appendValue. run_m. unfold value. run_m.
  rewrite (holds_strlen _ _ _ Hs).
  replace (Z.of_nat (length s) <? MAXVALUE) with true
    by (symmetry; apply Z.ltb_lt; unfold MAXVALUE; lia).
  run_m. rewrite Nat2Z.id.
  replace (Z.to_nat (Z.of_nat (length s) + 1)) with (S (length s)) by lia.
  reflexivity.
Qed.

(** In [STATE_INSTRING], with no escape pending, a character other than
    quote and backslash is appended to the value. *)
Lemma eat_string_char Atoi c p s :
  wf p -> state p = STATE_INSTRING -> isSlash p = 0 ->
  c <> dquote -> c <> backslash -> c <> NUL ->
  holds (chars p) (value_at (stack p)) s -> (length s < 160)%nat ->
  exists m1 ei1 nc1,
    jsonEat Atoi c p = (tt, relog m1 ei1 nc1 p, [])
    /\ length m1 = length (chars p)
    /\ 0 <= ei1 < MAXERRORBUFFER
    /\ holds m1 (value_at (stack p)) (s ++ [c])
    /\ (forall off t, holds (chars p) off t -> (off + length t < value_at (stack p))%nat ->
                      holds m1 off t).
Proof.
  intros Hwf Hst Hsl Hdq Hbs Hnul Hs Hlen.
  destruct (jsonEat_logs Atoi c p Hwf) as (m0 & ei0 & nc0 & Heq & Hl0 & He0 & Hrows & _).
  destruct Hwf as [Hws Hwc Hwi Hwk Hwe].
  pose proof (value_at_bounds _ Hwk) as Hvb.
  change (Z.to_nat _) with 970%nat in Hwc.
  assert (Hs0 : holds m0 (value_at (stack p)) s) by (apply Hrows; [exact Hs | lia]).
  destruct p as [st sts si ac sl sk m ei nc e1 e2 e3 e4 e5 e6 e7]. cbn in *. subst st sl.
  exists (<[(value_at sk + S (length s))%nat := NUL]>
            (<[(value_at sk + length s)%nat := c]> m0)), ei0, nc0.
  split; [|split; [|split; [|split]]].
  - rewrite Heq, jsonEatNoLog_unfold. unfold relog. run_h.
    rewrite (eqb_false _ _ Hbs), (eqb_false _ _ Hdq). cbn [andb negb Z.eqb].
    run_h. rewrite (appendValue_ok c _ s) by assumption. reflexivity.
  - rewrite !length_insert. exact Hl0.
  - exact He0.
  - apply holds_append; [exact Hs0 | exact Hnul | lia].
  - intros off t Ht Hoff. apply holds_poke_other; [|lia].
    apply holds_poke_other; [|lia]. apply Hrows; [exact Ht | lia].
Qed.

(** A backslash and the character after it are appended as the two
    characters they are. *)
Lemma eat_escape Atoi c p s :
  wf p -> state p = STATE_INSTRING -> isSlash p = 0 -> c <> NUL ->
  holds (chars p) (value_at (stack p)) s -> (length s + 2 <= 160)%nat ->
  exists m1 ei1 nc1,
    feed Atoi [backslash; c] p = (tt, relog m1 ei1 nc1 p, [])
    /\ length m1 = length (chars p)
    /\ 0 <= ei1 < MAXERRORBUFFER
    /\ holds m1 (value_at (stack p)) (s ++ [backslash; c])
    /\ (forall off t, holds (chars p) off t -> (off + length t < value_at (stack p))%nat ->
                      holds m1 off t).
Proof.
  intros Hwf Hst Hsl Hnul Hs Hlen.
  destruct (jsonEat_logs Atoi backslash p Hwf)
    as (m0 & ei0 & nc0 & Heq & Hl0 & He0 & Hrows & _).
  pose proof (wf_relog p m0 ei0 nc0 Hwf Hl0 He0) as Hwf0.
  assert (Hwf0' : wf (set_isSlash 1 (relog m0 ei0 nc0 p))).
  { destruct Hwf0. destruct p. constructor; assumption. }
  destruct (jsonEat_logs Atoi c _ Hwf0')
    as (m1 & ei1 & nc1 & Heq1 & Hl1 & He1 & Hrows1 & _).
  destruct Hwf as [Hws Hwc Hwi Hwk Hwe].
  pose proof (value_at_bounds _ Hwk) as Hvb.
  change (Z.to_nat _) with 970%nat in Hwc.
  destruct p as [st sts si ac sl sk m ei nc e1 e2 e3 e4 e5 e6 e7].
  cbn [state stack isSlash chars errbufIndex stateIndex states relog set_chars
         set_errbufIndex set_numchars set_isSlash] in *. subst st sl.
  assert (Hs1 : holds m1 (value_at sk) s).
  { apply Hrows1; [|lia]. apply Hrows; [exact Hs | lia]. }
  assert (Hbs : backslash <> NUL) by discriminate.
  pose proof (holds_append _ _ _ backslash Hs1 Hbs ltac:(lia)) as Hs2.
  set (m2 := <[(value_at sk + S (length s))%nat := NUL]> _) in Hs2.
  assert (Hl2 : length m2 = length m1) by (unfold m2; rewrite !length_insert; reflexivity).
  pose proof (holds_append _ _ _ c Hs2 Hnul
                ltac:(rewrite length_app; simpl; lia)) as Hs3.
  rewrite length_app in Hs3. simpl length in Hs3.
  exists (<[(value_at sk + S (length s + 1))%nat := NUL]>
            (<[(value_at sk + (length s + 1))%nat := c]> m2)), ei1, nc1.
  split; [|split; [|split; [|split]]].
  - assert (E1 : jsonEat Atoi backslash
                   (mkParser STATE_INSTRING sts si ac 0 sk m ei nc e1 e2 e3 e4 e5 e6 e7)
                 = (tt, set_isSlash 1 (relog m0 ei0 nc0
                      (mkParser STATE_INSTRING sts si ac 0 sk m ei nc e1 e2 e3 e4 e5 e6 e7)), [])).
    { rewrite Heq, jsonEatNoLog_unfold. unfold relog. run_h.
      replace (Ascii.eqb backslash backslash) with true by reflexivity.
      cbn [andb negb Z.eqb]. run_h. reflexivity. }
    rewrite (feed_cons_run _ _ _ _ _ E1).
    assert (E2 : jsonEat Atoi c (set_isSlash 1 (relog m0 ei0 nc0
                      (mkParser STATE_INSTRING sts si ac 0 sk m ei nc e1 e2 e3 e4 e5 e6 e7)))
                 = (tt, relog (<[(value_at sk + S (length s + 1))%nat := NUL]>
                                 (<[(value_at sk + (length s + 1))%nat := c]> m2)) ei1 nc1
                      (mkParser STATE_INSTRING sts si ac 0 sk m ei nc e1 e2 e3 e4 e5 e6 e7), [])).
    { rewrite Heq1, jsonEatNoLog_unfold. unfold relog. run_h.
      cbn [andb negb Z.eqb]. run_h.
      rewrite (appendValue_ok backslash _ s) by (first [exact Hs1 | lia]). run_m.
      fold m2.
      rewrite (appendValue_ok c _ (s ++ [backslash])) by
        (first [exact Hs2 | rewrite length_app; simpl; lia]).
      run_m. rewrite length_app. reflexivity. }
    rewrite (feed_cons_run _ _ _ _ _ E2). reflexivity.
  - rewrite !length_insert. congruence.
  - exact He1.
  - rewrite <- app_assoc in Hs3. exact Hs3.
  - intros off t Ht Hoff. apply holds_poke_other; [|lia].
    apply holds_poke_other; [|lia]. unfold m2.
    apply holds_poke_other; [|lia]. apply holds_poke_other; [|lia].
    apply Hrows1; [|lia]. apply Hrows; [exact Ht | lia].
Qed.

Lemma text_cons x xs : text (x :: xs) = piece_text x ++ text xs.
Proof. reflexivity. Qed.

(** The body of a string value is taken over unchanged, escape
    sequences included, as long as it fits. *)
Lemma feed_string_body Atoi xs : forall p s,
  wf p -> state p = STATE_INSTRING -> isSlash p = 0 ->
  Forall piece_ok xs ->
  holds (chars p) (value_at (stack p)) s ->
  (length s + length (text xs) <= 160)%nat ->
  exists m1 ei1 nc1,
    feed Atoi (text xs) p = (tt, relog m1 ei1 nc1 p, [])
    /\ length m1 = length (chars p)
    /\ 0 <= ei1 < MAXERRORBUFFER
    /\ holds m1 (value_at (stack p)) (s ++ text xs)
    /\ (forall off t, holds (chars p) off t -> (off + length t < value_at (stack p))%nat ->
                      holds m1 off t).
Proof.
  induction xs as [|x xs IH]; intros p s Hwf Hst Hsl Hok Hs Hlen.
  - exists (chars p), (errbufIndex p), (numchars p).
    rewrite app_nil_r. destruct Hwf. destruct p. cbn in *. auto.
  - inversion Hok as [|? ? Hx Hok']; subst.
    rewrite text_cons, length_app in Hlen. rewrite text_cons.
    assert (Hstep : exists m1 ei1 nc1,
               feed Atoi (piece_text x) p = (tt, relog m1 ei1 nc1 p, [])
               /\ length m1 = length (chars p)
               /\ 0 <= ei1 < MAXERRORBUFFER
               /\ holds m1 (value_at (stack p)) (s ++ piece_text x)
               /\ (forall off t, holds (chars p) off t ->
                                 (off + length t < value_at (stack p))%nat ->
                                 holds m1 off t)).
    { destruct x as [c|c]; simpl in Hx, Hlen; cbn [piece_text].
      - destruct Hx as (Hdq & Hbs & Hnul).
        destruct (eat_string_char Atoi c p s Hwf Hst Hsl Hdq Hbs Hnul Hs ltac:(lia))
          as (m1 & ei1 & nc1 & Heq & Hrest).
        exists m1, ei1, nc1. split; [|exact Hrest].
        rewrite (feed_cons_run _ _ _ _ _ Heq). reflexivity.
      - apply eat_escape; try assumption; [|lia].
        destruct Hx as [-> | ->]; discriminate. }
    destruct Hstep as (m1 & ei1 & nc1 & Heq & Hl1 & He1 & Hs1 & Hf1).
    pose proof (wf_relog p m1 ei1 nc1 Hwf Hl1 He1) as Hwf1.
    destruct (IH (relog m1 ei1 nc1 p) (s ++ piece_text x) Hwf1) as
      (m2 & ei2 & nc2 & Heq2 & Hl2 & He2 & Hs2 & Hf2).
    + destruct p; exact Hst.
    + destruct p; exact Hsl.
    + exact Hok'.
    + destruct p; exact Hs1.
    + rewrite length_app. lia.
    + exists m2, ei2, nc2. rewrite (feed_app_run _ _ _ _ _ Heq), Heq2.
      split; [reflexivity|]. split; [|split; [exact He2|split]].
      * rewrite Hl2. destruct p; exact Hl1.
      * rewrite <- app_assoc in Hs2. destruct p; exact Hs2.
      * intros off t Ht Hoff.
        assert (Ht1 : holds m1 off t) by (apply Hf1; assumption).
        destruct p; apply Hf2; assumption.
Qed.

(** ** Running concrete characters on a state whose character block is
    known only through the strings it holds *)

Lemma feed_cons_result Atoi c l p q ev :
  jsonEat Atoi c p = (tt, q, ev) ->
  emitted (feed Atoi (c :: l)) p = ev ++ emitted (feed Atoi l) q
  /\ exec (feed Atoi (c :: l)) p = exec (feed Atoi l) q.
Proof.
  intros H. rewrite feed_cons_emitted, feed_cons_exec.
  unfold exec, emitted. rewrite H. split; reflexivity.
Qed.

(** Decides the tests of the goal whose outcome is determined. *)
Ltac eval_tests :=
  repeat match goal with
    | |- context [if ?b then _ else _] =>
        let v := eval vm_compute in b in
        lazymatch v with
        | true => change b with true
        | false => change b with false
        end
    | |- context [match ?s with STATE_NONE => _ | _ => _ end] =>
        tryif is_constructor s then fail else
          (let v := eval vm_compute in s in is_constructor v; change s with v)
    end.

Ltac run_concrete := repeat (run_h; progress eval_tests); run_h.

Lemma eat_done Atoi c p q ev :
  dispatch Atoi c p = (false, q, ev) -> jsonEatNoLog Atoi c p = (tt, q, ev).
Proof.
  intros H. rewrite jsonEatNoLog_unfold. unfold mbind, M_bind, bind.
  rewrite H. simpl. rewrite app_nil_r. reflexivity.
Qed.

Lemma eat_again Atoi c p q ev q' ev' :
  dispatch Atoi c p = (true, q, ev) ->
  jsonEatNoLog Atoi c q = (tt, q', ev') ->
  jsonEatNoLog Atoi c p = (tt, q', ev ++ ev').
Proof.
  intros H H'. rewrite jsonEatNoLog_unfold. unfold mbind, M_bind, bind.
  rewrite H. simpl. rewrite H'. reflexivity.
Qed.

(** The bounds of an explicitly given record. *)
Ltac wf_record Hl :=
  constructor; cbn; rewrite ?length_insert;
  unfold MAXSTATES, MAXSTACK, MAXERRORBUFFER in *;
  first [reflexivity | exact Hl | lia].

(** Evaluates the dispatches of one character, first to last; [hook]
    rewrites what evaluation alone does not decide. *)
Ltac dispatch_with hook :=
  first
    [ eapply eat_done; run_concrete; hook; cbn [app]; reflexivity
    | eapply eat_again;
      [run_concrete; hook; cbn [app]; reflexivity | dispatch_with hook] ].

(** The next character of [feed] on an explicitly given record, in two
    steps: [eat_log] records the character, which leaves a character
    block [m] known through [Hrows]; [eat_run] evaluates the
    dispatches. *)
Ltac eat_log Atoi Hl m ei nc Hl' He' Hrows Heq :=
  lazymatch goal with
  | |- context [emitted (feed Atoi (?c :: ?l)) ?P] =>
      let Hwf := fresh "Hwf" in
      assert (Hwf : wf P) by wf_record Hl;
      destruct (jsonEat_logs Atoi c P Hwf)
        as (m & ei & nc & Heq & Hl' & He' & Hrows & _);
      unfold relog in Heq, Hl', Hrows;
      cbn [set_chars set_errbufIndex set_numchars state states stateIndex
             allowComma isSlash stack chars errbufIndex numchars onError
             onObjectStart onObjectComplete onArrayStart onArrayComplete
             onString onInteger] in Heq, Hl', Hrows;
      rewrite ?length_insert in Hl'; rewrite Hl in Hl';
      clear Hwf
  end.

Ltac eat_run Atoi Heq hook :=
  lazymatch goal with
  | |- context [emitted (feed Atoi (?c :: ?l)) ?P] =>
      let E := fresh "E" in
      let Ev := fresh "Ev" in
      let Ex := fresh "Ex" in
      eassert (E : jsonEat Atoi c P = (tt, _, _));
      [ rewrite Heq; dispatch_with hook
      | destruct (feed_cons_result Atoi c l _ _ _ E) as [Ev Ex];
        rewrite ?Ev, ?Ex; clear Heq E Ev Ex ]
  end.

Ltac eat_next Atoi Hl m ei nc Hl' He' Hrows :=
  let Heq := fresh "Heq" in
  eat_log Atoi Hl m ei nc Hl' He' Hrows Heq; eat_run Atoi Heq idtac.

(** Side conditions on row offsets. *)
Ltac offsets :=
  unfold name_at, value_at, errbuf_at, MAXNAME, MAXSTACK, MAXVALUE in *;
  cbn [length] in *; lia.

(** Carries a string known to be held through the stores made since. *)
Ltac carry :=
  repeat first
    [ eassumption
    | match goal with
      | H : (forall off t, holds _ off t -> _ -> holds ?m off t) |- holds ?m _ _ =>
          apply H; [|offsets]
      end
    | apply holds_poke_other; [|offsets] ].

(** ** Scenarios on a freshly reset slot *)

(** C7: feeding [{"a":1}] to a freshly reset slot with all callbacks
    registered invokes object-start(""), integer-value("a", 1) and
    object-complete("") in that order, and no error callback; the integer
    is what [Atoi] makes of the digit string "1". *)
Theorem C7_object_with_integer (Atoi : list ascii -> Z) :
  Atoi ["1"%char] = 1 ->
  emitted (feed Atoi (json "{'a':1}")) fresh
  = [EvObjectStart ""; EvInteger "a" 1; EvObjectComplete ""].
Proof.
  intros HA.
  assert (E : emitted (feed Atoi (json "{'a':1}")) fresh
              = [EvObjectStart ""; EvInteger "a" (Atoi ["1"%char]);
                 EvObjectComplete ""]) by (vm_compute; reflexivity).
  rewrite E, HA. reflexivity.
Qed.

Lemma C7_object_with_integer_witness :
  emitted (feed Atoi_decimal (json "{'a':1}")) fresh
  = [EvObjectStart ""; EvInteger "a" 1; EvObjectComplete ""].
Proof.
  apply (C7_object_with_integer Atoi_decimal). reflexivity.
Defined.

(** C1 as stated does not hold of the code:
    the callbacks invoked for [{"a":[1,2,3]}] are not the seven it
    lists. *)
Lemma C1_array_scenario_counterexample :
  emitted (feed Atoi_decimal (json "{'a':[1,2,3]}")) fresh
  <> [EvObjectStart ""; EvArrayStart "a"; EvInteger "a" 1; EvInteger "a" 2;
      EvInteger "a" 3; EvArrayComplete "a"; EvObjectComplete ""].
Proof.
  vm_compute. discriminate.
Qed.

(** C1 (amended): feeding [{"a":[1,2,3]}] to a freshly reset slot invokes
    object-start(""), array-start("a") and then the error callback with
    the parsing-name code at the character [1], because after [[] the
    parser expects a quoted name; the slot is Idle afterwards and the
    remaining characters are discarded without a callback. *)
Theorem C1_array_of_integers_is_rejected (Atoi : list ascii -> Z) :
  emitted (feed Atoi (json "{'a':[1,2,3]}")) fresh
  = [EvObjectStart ""; EvArrayStart "a";
     EvError ERR_PARSE_NAME "parsing name" (str (json "{'a':[1"))]
  /\ emitted (feed Atoi (json "{'a':[")) fresh
     = [EvObjectStart ""; EvArrayStart "a"]
  /\ state (exec (feed Atoi (json "{'a':[")) fresh) = STATE_TONAME
  /\ idle (exec (feed Atoi (json "{'a':[1")) fresh)
  /\ idle (exec (feed Atoi (json "{'a':[1,2,3]}")) fresh).
Proof.
  repeat split; vm_compute; reflexivity.
Qed.

(** An array whose elements are written as named fields is delivered. *)
Example array_of_named_fields (Atoi : list ascii -> Z) :
  emitted (feed Atoi (json "{'a':['b':1,'c':2]}")) fresh
  = [EvObjectStart ""; EvArrayStart "a"; EvInteger "b" (Atoi ["1"%char]);
     EvInteger "c" (Atoi ["2"%char]); EvArrayComplete "a"; EvObjectComplete ""].
Proof. vm_compute. reflexivity. Qed.

(** C2: the error callback is meant to leave the slot Idle when
    [jsonEat] returns.  At the fifth nested [{] the name stack
    overflows inside [setState]: the internal error fires and resets the
    slot, and the [toState(STATE_TONAME)] that follows in the
    [STATE_TOVALUE] case then pushes a state and leaves the slot in
    [STATE_TONAME] with a state stack of depth one. *)
Theorem C2_slot_not_idle_after_internal_error (Atoi : list ascii -> Z) :
  let p := exec (feed Atoi (json "{'a':{'a':{'a':{'a':")) fresh in
  emitted (feed Atoi (json "{'a':{'a':{'a':{'a':")) fresh
  = [EvObjectStart ""; EvObjectStart "a"; EvObjectStart "a"; EvObjectStart "a"]
  /\ emitted (jsonEat Atoi "{") p
     = [EvObjectStart "a";
        EvError ERR_INTERNAL "internal error"
          (str (json "'a':{'a':{'a':{'a':{"))]
  /\ state (exec (jsonEat Atoi "{") p) = STATE_TONAME
  /\ stateIndex (exec (jsonEat Atoi "{") p) = 1
  /\ ~ idle (exec (jsonEat Atoi "{") p).
Proof.
  repeat split; try (vm_compute; reflexivity).
  unfold idle. intros [H _]. vm_compute in H. discriminate.
Qed.

(** C4: the context handed to the error callback is meant to be the
    non-whitespace characters consumed so far (at most 20).  [numchars]
    counts whitespace as well, while [errbuf] stores none of it: after
    the brace and the blank two characters are counted and one is stored,
    so at the error on [1] [jsonError] copies three bytes starting one
    position before the first stored character, and the context is the
    empty string instead of [{1].  Without the blank the context is
    [{1]. *)
Theorem C4_context_miscounts_whitespace (Atoi : list ascii -> Z) :
  let p := exec (feed Atoi (json "{ ")) fresh in
  emitted (feed Atoi (json "{ 1")) fresh
  = [EvObjectStart ""; EvError ERR_PARSE_NAME "parsing name" ""]
  /\ str (List.filter (fun c => negb (isWhiteSpace c)) (json "{ 1")) = "{1"%string
  /\ numchars p = 2 /\ errbufIndex p = 1
  /\ emitted (feed Atoi (json "{1")) fresh
     = [EvObjectStart ""; EvError ERR_PARSE_NAME "parsing name" "{1"].
Proof.
  repeat split; vm_compute; reflexivity.
Qed.

(** C10: under the guard [len < MAXNAME] both stores of [appendName]
    are meant to stay inside the row of [MAXNAME] bytes.  With 29
    characters in the row the guard holds and the terminating NUL goes to
    index 30, the first byte of the next row: here row 1 still holds the
    name "a", and the thirtieth character appended to row 0 empties
    it. *)
Theorem C10_terminator_written_past_the_row (Atoi : list ascii -> Z) :
  let p := exec (feed Atoi (json "{'a':{'b':1}'ccccccccccccccccccccccccccccc")) fresh in
  let p' := exec (jsonEat Atoi "c") p in
  state p = STATE_INNAME /\ stack p = 0
  /\ strlen (name p (stack p)) = 29
  /\ (strlen (name p (stack p)) <? MAXNAME) = true
  /\ (name_at (stack p) + Z.to_nat (strlen (name p (stack p)) + 1))%nat
     = name_at (stack p + 1)
  /\ c_str (name p 1) = ["a"%char]
  /\ c_str (name p' 1) = []
  /\ strlen (name p' 0) = MAXNAME.
Proof.
  repeat split; vm_compute; reflexivity.
Qed.

(** What the misplaced terminator does to a caller: the name of a nested
    object of 30 characters is reported at object-complete with the
    first character of the inner field name appended. *)
Example name_of_30_characters_runs_into_next_row (Atoi : list ascii -> Z) :
  emitted (feed Atoi (json "{'aaaaaaaaaabbbbbbbbbbcccccccccc':{'x':1}}")) fresh
  = [EvObjectStart ""; EvObjectStart "aaaaaaaaaabbbbbbbbbbcccccccccc";
     EvInteger "x" (Atoi ["1"%char]);
     EvObjectComplete "aaaaaaaaaabbbbbbbbbbccccccccccx"; EvObjectComplete ""].
Proof. vm_compute. reflexivity. Qed.

(** ** Length errors *)

Lemma appendName_full c p :
  MAXNAME <= strlen (name p (stack p)) ->
  appendName c p = jsonError ERR_NAMETOOLONG p.
Proof.
  intros H. apply Z.ltb_ge in H. destruct p as [st sts si ac sl sk m ei nc e1 e2 e3 e4 e5 e6 e7].
  cbn [stack] in H.
  unfold appendName. run_m. rewrite H. run_h. reflexivity.
Qed.

Lemma appendValue_full c p :
  MAXVALUE <= strlen (value p (stack p)) ->
  appendValue c p = jsonError ERR_VALUETOOLONG p.
Proof.
  intros H. apply Z.ltb_ge in H. destruct p as [st sts si ac sl sk m ei nc e1 e2 e3 e4 e5 e6 e7].
  cbn [stack] in H.
  unfold appendValue. run_m. rewrite H. run_h. reflexivity.
Qed.

(** While the count of characters has not wrapped, the local copy of
    [jsonError] stays inside its array. *)
Lemma locerrbuf_in_bounds p :
  0 <= numchars p -> locerrbuf p = Some (context_bytes p).
Proof.
  intros H. unfold context_bytes, locerrbuf.
  destruct (numchars p >=? MAXERRORBUFFER) eqn:E.
  - reflexivity.
  - replace (numchars p <? 0) with false by (symmetry; apply Z.ltb_ge; exact H).
    reflexivity.
Qed.

Lemma int32_next z : 0 <= z < 2 ^ 31 - 1 -> int32 (z + 1) = z + 1.
Proof. intros H. unfold int32. rewrite Z.mod_small by lia. lia. Qed.

(** Rewrites the local copies of the goal that are inside the array. *)
Ltac in_bounds :=
  repeat match goal with
    | |- context [locerrbuf ?R] =>
        rewrite (locerrbuf_in_bounds R) by (cbn [numchars]; first [assumption | lia])
    end.


(** A string that ends inside the block is held there. *)
Lemma c_str_holds m off :
  (off + length (c_str (drop off m)) < length m)%nat ->
  holds m off (c_str (drop off m)).
Proof.
  intros H.
  assert (G : forall l, (length (c_str l) < length l)%nat ->
                        take (S (length (c_str l))) l = c_str l ++ [NUL]
                        /\ Forall (fun c => c <> NUL) (c_str l)).
  { induction l as [|a l IH]; simpl; intros Hl; [lia|].
    destruct (Ascii.eqb a NUL) eqn:E.
    - apply Ascii.eqb_eq in E. subst a. split; [reflexivity | constructor].
    - simpl in Hl. destruct (IH ltac:(lia)) as [Ht Hf]. split.
      + simpl. f_equal. exact Ht.
      + constructor; [apply Ascii.eqb_neq, E | exact Hf]. }
  apply G. rewrite length_drop. lia.
Qed.

Lemma strlen_long_kept m m1 off n :
  (forall off n, (n <= length (c_str (drop off m)))%nat -> (off + n <= 950)%nat ->
                 (n <= length (c_str (drop off m1)))%nat) ->
  Z.of_nat n <= strlen (drop off m) -> (off + n <= 950)%nat ->
  Z.of_nat n <= strlen (drop off m1).
Proof.
  intros Hk Hn Hoff. unfold strlen in *.
  apply inj_le, Hk; [lia | exact Hoff].
Qed.

Lemma eat_done_parts Atoi c p p0 q ev :
  jsonEat Atoi c p = jsonEatNoLog Atoi c p0 ->
  dispatch Atoi c p0 = (false, q, ev) ->
  exec (jsonEat Atoi c) p = q /\ emitted (jsonEat Atoi c) p = ev.
Proof.
  intros H D. apply (result_parts _ _ tt). rewrite H. apply eat_done, D.
Qed.

Lemma error_and_idle Atoi c p p0 q err context :
  jsonEat Atoi c p = jsonEatNoLog Atoi c p0 ->
  dispatch Atoi c p0 = (false, q, [EvError err (message err) context]) ->
  idle q ->
  exists context,
    emitted (jsonEat Atoi c) p = [EvError err (message err) context]
    /\ idle (exec (jsonEat Atoi c) p).
Proof.
  intros H D Hq. destruct (eat_done_parts _ _ _ _ _ _ H D) as [-> ->].
  exists context. split; [reflexivity | exact Hq].
Qed.

(** A character that finds no room raises the length error once and
    leaves the slot Idle. *)
Lemma length_error_resets Atoi c p :
  wf p -> onError p = true -> 0 <= numchars p < 2 ^ 31 - 1 -> overflows p c ->
  exists context,
    emitted (jsonEat Atoi c) p
    = [EvError (length_error p) (message (length_error p)) context]
    /\ idle (exec (jsonEat Atoi c) p).
Proof.
  intros Hwf Hon Hnc Hov.
  destruct (jsonEat_logs Atoi c p Hwf)
    as (m0 & ei0 & nc0 & Heq & Hl0 & He0 & Hrows & Hkeep & Hnc0).
  rewrite (int32_next _ Hnc) in Hnc0.
  assert (Hnc0' : 0 <= nc0) by lia. clear Hnc0.
  destruct Hwf as [Hws Hwc Hwi Hwk Hwe].
  pose proof (name_at_bounds _ Hwk) as Hnb.
  pose proof (value_at_bounds _ Hwk) as Hvb.
  change (Z.to_nat _) with 970%nat in Hwc.
  destruct p as [st sts si ac sl sk m ei nc e1 e2 e3 e4 e5 e6 e7].
  unfold overflows, length_error, name, value in *.
  cbn [state stack chars isSlash onError relog set_chars set_errbufIndex
         set_numchars errbufIndex numchars] in *.
  subst e1. unfold relog in Heq.
  cbn [set_chars set_errbufIndex set_numchars state states stateIndex allowComma
         isSlash stack chars errbufIndex numchars onError onObjectStart
         onObjectComplete onArrayStart onArrayComplete onString onInteger] in Heq.
  destruct st; try contradiction.
  - (* STATE_INNAME *)
    destruct Hov as [Hc Hlen]. destruct (valid_name_char c Hc) as [_ Hdq].
    pose proof (strlen_long_kept m m0 (name_at sk) 30 Hkeep Hlen ltac:(lia)) as Hlen0.
    eapply error_and_idle; [exact Heq | | ].
    { run_h. rewrite Hdq, Hc. rewrite appendName_full by exact Hlen0.
      run_h. in_bounds. run_h. cbn [app]. reflexivity. }
    repeat split.
  - (* STATE_INSTRING *)
    destruct (sl =? 0) eqn:Esl.
    + destruct Hov as (Hdq & Hbs & Hlen).
      pose proof (strlen_long_kept m m0 (value_at sk) 160 Hkeep Hlen ltac:(lia)) as Hlen0.
      eapply error_and_idle; [exact Heq | | ].
      { run_h. rewrite Esl, (eqb_false _ _ Hbs), (eqb_false _ _ Hdq).
        cbn [andb negb]. run_h. rewrite appendValue_full by exact Hlen0.
        run_h. in_bounds. run_h. cbn [app]. reflexivity. }
      repeat split.
    + assert (Hlen0 : 159 <= strlen (drop (value_at sk) m0)).
      { apply (strlen_long_kept m m0 (value_at sk) 159 Hkeep); unfold MAXVALUE in *; lia. }
      destruct (Z_lt_le_dec (strlen (drop (value_at sk) m0)) MAXVALUE) as [Hlt|Hge].
      * (* the backslash fits, the character after it does not *)
        assert (Hs0 : holds m0 (value_at sk) (c_str (drop (value_at sk) m0))).
        { apply c_str_holds. unfold strlen, MAXVALUE in *. lia. }
        set (s0 := c_str (drop (value_at sk) m0)) in *.
        assert (Hs0len : length s0 = 159%nat)
          by (unfold strlen, MAXVALUE in *; fold s0 in Hlt, Hlen0; lia).
        pose proof (holds_append _ _ _ backslash Hs0 ltac:(discriminate) ltac:(lia)) as Hs1.
        eapply error_and_idle; [exact Heq | | ].
        { run_h. rewrite Esl. cbn [andb negb]. run_h.
          rewrite (appendValue_ok backslash _ s0) by (first [exact Hs0 | lia]).
          run_m.
          rewrite appendValue_full
            by (unfold value; cbn [chars stack]; rewrite (holds_strlen _ _ _ Hs1);
                rewrite length_app; cbn [length]; unfold MAXVALUE; lia).
          run_h. in_bounds. run_h. cbn [app]. reflexivity. }
        repeat split.
      * (* no room for the backslash *)
        eapply error_and_idle; [exact Heq | | ].
        { run_h. rewrite Esl. cbn [andb negb]. run_h.
          rewrite (appendValue_full backslash) by exact Hge.
          run_h. in_bounds. run_h.
          rewrite (appendValue_ok c _ [])
            by (first [ cbn [chars stack]; apply holds_nil;
                        rewrite !length_insert;
                        unfold value_at, MAXSTACK, MAXNAME, MAXVALUE; lia
                      | cbn [length]; lia ]).
          run_m. cbn [app]. reflexivity. }
        repeat split.
  - (* STATE_INNUM *)
    destruct Hov as [Hc Hlen].
    pose proof (strlen_long_kept m m0 (value_at sk) 160 Hkeep Hlen ltac:(lia)) as Hlen0.
    eapply error_and_idle; [exact Heq | | ].
    { run_h. rewrite Hc. rewrite appendValue_full by exact Hlen0.
      run_h. in_bounds. run_h. cbn [app]. reflexivity. }
    repeat split.
Qed.

(** C3 (amended): when the character fed would take a field name past
    [MAXNAME] or a value past [MAXVALUE], the error callback is invoked
    once, with the name-too-long or value-too-long code, and the whole
    slot is reset to Idle with both stacks empty: the document in
    progress is abandoned, not only the field.  This is so while the
    count of characters since the last reset has not reached the end of
    its [int] range; past it [jsonError] stores outside its local
    array. *)
Theorem C3_length_error_resets_slot Atoi c p :
  wf p -> onError p = true -> 0 <= numchars p < 2 ^ 31 - 1 -> overflows p c ->
  exists context,
    emitted (jsonEat Atoi c) p
    = [EvError (length_error p) (message (length_error p)) context]
    /\ idle (exec (jsonEat Atoi c) p).
Proof. apply length_error_resets. Qed.

Lemma C3_length_error_resets_slot_witness :
  exists context,
    emitted (jsonEat Atoi_decimal "d")
      (exec (feed Atoi_decimal (json "{'aaaaaaaaaabbbbbbbbbbcccccccccc")) fresh)
    = [EvError ERR_NAMETOOLONG "name too long" context]
    /\ idle (exec (jsonEat Atoi_decimal "d")
               (exec (feed Atoi_decimal (json "{'aaaaaaaaaabbbbbbbbbbcccccccccc")) fresh)).
Proof.
  apply (C3_length_error_resets_slot Atoi_decimal "d"
           (exec (feed Atoi_decimal (json "{'aaaaaaaaaabbbbbbbbbbcccccccccc")) fresh)).
  - constructor; vm_compute; first [reflexivity | split; [discriminate | reflexivity]].
  - vm_compute. reflexivity.
  - vm_compute. split; [discriminate | reflexivity].
  - vm_compute. split; [reflexivity | discriminate].
Defined.

(** The length error does abort the document: after the 31st character
    of the name the slot is Idle with an empty state stack, the colon
    that follows raises a second error, the field after it arrives as a
    top-level pair, and the object never completes. *)
Lemma C3_only_field_discarded_counterexample :
  idle (exec (feed Atoi_decimal (json "{'aaaaaaaaaabbbbbbbbbbccccccccccd")) fresh)
  /\ emitted (feed Atoi_decimal (json "{'aaaaaaaaaabbbbbbbbbbccccccccccd':1,'b':2}")) fresh
     = [EvObjectStart "";
        EvError ERR_NAMETOOLONG "name too long" "bbbbbbbbbccccccccccd";
        EvError ERR_PARSE_ILLNAME "illegal name char" (str (json "':"));
        EvInteger "b" 2]
  /\ ~ In (EvObjectComplete "")
        (emitted (feed Atoi_decimal (json "{'aaaaaaaaaabbbbbbbbbbccccccccccd':1,'b':2}")) fresh).
Proof.
  split; [|split].
  - vm_compute. repeat split.
  - vm_compute. reflexivity.
  - vm_compute. intros [H|[H|[H|[H|[]]]]]; discriminate H.
Qed.

(** ** The name length boundary *)

Lemma name_prefix_state Atoi :
  exists m ei nc,
    feed Atoi (json "{'") fresh
    = (tt,
       mkParser STATE_INNAME
         [STATE_NONE; STATE_INOBJECT; STATE_NONE; STATE_NONE; STATE_NONE;
          STATE_NONE; STATE_NONE; STATE_NONE; STATE_NONE; STATE_NONE]
         2 0 0 1 m ei nc true true true true true true true,
       [EvObjectStart ""])
    /\ length m = 970%nat /\ 0 <= ei < MAXERRORBUFFER
    /\ holds m (name_at 0) [] /\ holds m (name_at 1) [] /\ nc = 2.
Proof.
  eexists _, _, _. split; [vm_compute; reflexivity|].
  repeat split; try (vm_compute; reflexivity); try discriminate;
    repeat constructor; discriminate.
Qed.

(** A field name of exactly [MAXNAME] characters whose field has an
    integer value is parsed without an error callback and delivered
    whole with the value; the 31st character of a longer name raises the
    name-too-long error and leaves the slot reset to Idle. *)
Lemma name_boundary_with_integer_value Atoi nm :
  Forall (fun c => isValidNameChar c = true) nm ->
  (Z.of_nat (length nm) = MAXNAME ->
   emitted (feed Atoi (json "{'" ++ nm ++ json "':1}")) fresh
   = [EvObjectStart ""; EvInteger (str nm) (Atoi ["1"%char]); EvObjectComplete ""])
  /\ (Z.of_nat (length nm) = MAXNAME + 1 ->
      exists context,
        emitted (feed Atoi (json "{'" ++ nm)) fresh
        = [EvObjectStart ""; EvError ERR_NAMETOOLONG "name too long" context]
        /\ idle (exec (feed Atoi (json "{'" ++ nm)) fresh)).
Proof.
  intros Hok.
  destruct (name_prefix_state Atoi)
    as (m & ei & nc & Hpre & Hl & He & Hn0 & Hn1 & Hnc).
  set (P := mkParser _ _ _ _ _ _ _ _ _ _ _ _ _ _ _ _) in Hpre.
  assert (HwfP : wf P) by (unfold P; wf_record Hl).
  destruct (result_parts _ _ _ _ _ Hpre) as [HexP HevP].
  unfold MAXNAME. split; intros Hlen.
  - destruct (feed_name Atoi nm P [] HwfP eq_refl Hok Hn1 ltac:(simpl; lia))
      as (m1 & ei1 & nc1 & Hbody & Hl1 & He1 & Hs1 & Hf1).
    rewrite feed_app_emitted, feed_app_emitted, HexP, HevP.
    destruct (result_parts _ _ _ _ _ Hbody) as [-> ->].
    unfold P, relog in *.
    cbn [set_chars set_errbufIndex set_numchars state states stateIndex allowComma
           isSlash stack chars errbufIndex numchars onError onObjectStart
           onObjectComplete onArrayStart onArrayComplete onString onInteger] in *.
    change (json "':1}") with [dquote; ":"%char; "1"%char; "}"%char].
    rewrite Hl in Hl1. cbn [app] in Hs1.
    eat_next Atoi Hl1 m2 ei2 nc2 Hl2 He2 Hrows2.
    eat_next Atoi Hl2 m3 ei3 nc3 Hl3 He3 Hrows3.
    eat_log Atoi Hl3 m4 ei4 nc4 Hl4 He4 Hrows4 Heq4.
    assert (Hv4 : holds m4 (value_at 1) []).
    { apply Hrows4; [apply holds_nil | ]; offsets. }
    eat_run Atoi Heq4
      ltac:(idtac; match goal with
            | |- context [appendValue ?c ?Q] =>
                rewrite (appendValue_ok c Q [] Hv4 ltac:(cbn [length]; lia)); run_concrete
            end).
    pose proof (holds_append _ _ _ "1"%char Hv4 ltac:(discriminate) ltac:(offsets)) as Hv4'.
    eat_next Atoi Hl4 m5 ei5 nc5 Hl5 He5 Hrows5.
    assert (Hn1' : holds m5 (name_at 1) nm) by carry.
    assert (Hn0' : holds m5 (name_at 0) []) by carry.
    assert (Hv1' : holds m5 (value_at 1) ["1"%char]) by (apply Hrows5; [exact Hv4' | offsets]).
    change (name_at (1 - 1)) with (name_at 0).
    rewrite (holds_as_string _ _ _ Hn1'), (holds_c_str _ _ _ Hv1'),
      (holds_as_string _ _ _ Hn0').
    reflexivity.
  - destruct nm as [|c nm _] using rev_ind; [simpl in Hlen; lia|].
    rewrite length_app in Hlen. cbn [length] in Hlen.
    apply Forall_app in Hok. destruct Hok as [Hok Hc].
    inversion Hc as [|? ? Hc' _]; subst.
    destruct (feed_name Atoi nm P [] HwfP eq_refl Hok Hn1 ltac:(simpl; lia))
      as (m1 & ei1 & nc1 & Hbody & Hl1 & He1 & Hs1 & Hf1).
    destruct (result_parts _ _ _ _ _ Hbody) as [Hex1 Hev1].
    rewrite !feed_app_emitted, !feed_app_exec, HexP, HevP, Hex1, Hev1.
    pose proof (wf_relog P m1 ei1 nc1 HwfP Hl1 He1) as Hwf1.
    assert (Hcount : counted (2 + Z.of_nat (length nm)) (relog m1 ei1 nc1 P)).
    { rewrite <- Hex1. apply feed_counted; [|lia].
      unfold counted, P. cbn [numchars]. lia. }
    destruct (length_error_resets Atoi c (relog m1 ei1 nc1 P) Hwf1 eq_refl)
      as (context & Hev & Hidle).
    { destruct Hcount. lia. }
    { unfold overflows, P, relog, name. cbn [state stack chars set_chars set_errbufIndex set_numchars].
      unfold P in Hs1. cbn [stack app] in Hs1.
      split; [exact Hc'|]. rewrite (holds_strlen _ _ _ Hs1). unfold MAXNAME. lia. }
    exists context. rewrite feed_cons_emitted, feed_cons_exec, Hev. split; [reflexivity|].
    exact Hidle.
Qed.

(** C5: a field name of exactly [MAXNAME] characters is accepted
    without an error callback, but it does not parse successfully: its
    terminator is stored in the first byte of the next row of the name
    stack (the off-by-one of C10), so when the field's value is an object
    or an array the first name read inside it runs on from the 30
    characters, and the completion callback of the field receives a name
    of 31 characters. *)
Theorem C5_name_of_30_characters_is_corrupted (Atoi : list ascii -> Z) :
  emitted (feed Atoi (json "{'aaaaaaaaaabbbbbbbbbbcccccccccc':{'x':1}}")) fresh
  = [EvObjectStart ""; EvObjectStart "aaaaaaaaaabbbbbbbbbbcccccccccc";
     EvInteger "x" (Atoi ["1"%char]);
     EvObjectComplete "aaaaaaaaaabbbbbbbbbbccccccccccx"; EvObjectComplete ""]
  /\ emitted (feed Atoi (json "{'aaaaaaaaaabbbbbbbbbbcccccccccc':['y':2]}")) fresh
     = [EvObjectStart ""; EvArrayStart "aaaaaaaaaabbbbbbbbbbcccccccccc";
        EvInteger "y" (Atoi ["2"%char]);
        EvArrayComplete "aaaaaaaaaabbbbbbbbbbccccccccccy"; EvObjectComplete ""]
  /\ String.length "aaaaaaaaaabbbbbbbbbbccccccccccx" = 31%nat.
Proof. repeat split; vm_compute; reflexivity. Qed.

(** ** String values *)

Lemma string_prefix_state Atoi :
  exists m ei nc,
    feed Atoi (json "{'a':'") fresh
    = (tt,
       mkParser STATE_INSTRING
         [STATE_NONE; STATE_INOBJECT; STATE_NONE; STATE_NONE; STATE_NONE;
          STATE_NONE; STATE_NONE; STATE_NONE; STATE_NONE; STATE_NONE]
         2 0 0 1 m ei nc true true true true true true true,
       [EvObjectStart ""])
    /\ length m = 970%nat /\ 0 <= ei < MAXERRORBUFFER
    /\ holds m (name_at 0) [] /\ holds m (name_at 1) ["a"%char]
    /\ holds m (value_at 1) [].
Proof.
  eexists _, _, _. split; [vm_compute; reflexivity|].
  repeat split; try (vm_compute; reflexivity); try discriminate;
    repeat constructor; discriminate.
Qed.

(** C6: a string value made of plain characters and the escape
    sequences backslash-quote and backslash-backslash, of at most
    [MAXVALUE] characters as written, is delivered by the string-value
    callback exactly as written, each escape sequence as its two
    characters: feeding [{"a":"] followed by the text and ["}] to a
    freshly reset slot invokes object-start(""), string-value("a", text)
    and object-complete(""). *)
Theorem C6_escapes_delivered_verbatim Atoi xs :
  Forall piece_ok xs -> Z.of_nat (length (text xs)) <= MAXVALUE ->
  emitted (feed Atoi (json "{'a':'" ++ text xs ++ json "'}")) fresh
  = [EvObjectStart ""; EvString "a" (str (text xs)); EvObjectComplete ""].
Proof.
  intros Hok Hlen. unfold MAXVALUE in Hlen.
  destruct (string_prefix_state Atoi)
    as (m & ei & nc & Hpre & Hl & He & Hn0 & Hn1 & Hv1).
  set (P := mkParser _ _ _ _ _ _ _ _ _ _ _ _ _ _ _ _) in Hpre.
  assert (HwfP : wf P) by (unfold P; wf_record Hl).
  destruct (feed_string_body Atoi xs P [] HwfP eq_refl eq_refl Hok Hv1 ltac:(simpl; lia))
    as (m1 & ei1 & nc1 & Hbody & Hl1 & He1 & Hs1 & Hf1).
  rewrite feed_app_emitted, feed_app_emitted.
  destruct (result_parts _ _ _ _ _ Hpre) as [-> ->].
  destruct (result_parts _ _ _ _ _ Hbody) as [-> ->].
  unfold P, relog in *.
  cbn [set_chars set_errbufIndex set_numchars state states stateIndex allowComma
         isSlash stack chars errbufIndex numchars onError onObjectStart
         onObjectComplete onArrayStart onArrayComplete onString onInteger] in *.
  change (json "'}") with [dquote; "}"%char].
  rewrite Hl in Hl1.
  eat_next Atoi Hl1 m2 ei2 nc2 Hl2 He2 Hrows2.
  eat_next Atoi Hl2 m3 ei3 nc3 Hl3 He3 Hrows3.
  assert (Hn1' : holds m2 (name_at 1) ["a"%char]).
  { apply Hrows2; [apply Hf1; [exact Hn1 | offsets] | offsets]. }
  assert (Hv1' : holds m2 (value_at 1) (text xs)).
  { apply Hrows2; [exact Hs1 | offsets]. }
  assert (Hn0' : holds m3 (name_at 0) []).
  { apply Hrows3; [apply Hrows2; [apply Hf1; [exact Hn0 | offsets] | offsets] | offsets]. }
  change (name_at (1 - 1)) with (name_at 0).
  rewrite (holds_as_string _ _ _ Hn1'), (holds_as_string _ _ _ Hv1'),
    (holds_as_string _ _ _ Hn0').
  reflexivity.
Qed.

Lemma C6_escapes_delivered_verbatim_witness :
  emitted (feed Atoi_decimal (json "{'a':'x\'y'}")) fresh
  = [EvObjectStart ""; EvString "a" (str (json "x\'y")); EvObjectComplete ""].
Proof.
  apply (C6_escapes_delivered_verbatim Atoi_decimal
           [Plain "x"; Escaped dquote; Plain "y"]).
  - repeat constructor; discriminate.
  - vm_compute. discriminate.
Defined.

(** ** The comma flag *)

(** Unfolding of the whole dispatch, the two append helpers included. *)
Ltac run_a :=
  cbv beta iota zeta delta
    [exec emitted mbind mret M_bind M_ret bind ret modify get when call report fst snd
     set_state set_states set_stateIndex set_allowComma set_isSlash set_stack
     set_chars set_errbufIndex set_numchars poke
     state states stateIndex allowComma isSlash stack chars errbufIndex
     numchars onError onObjectStart onObjectComplete onArrayStart
     onArrayComplete onString onInteger
     dispatch setState toState upState jsonError jsonReset name_arg value_arg
     appendName appendValue pops is_container idle].

Ltac run_a_cases := repeat (run_a; first [progress eval_tests | case_test]); run_a.

Lemma comma_flag_cleared Atoi c p :
  let p' := exec (dispatch Atoi c) p in
  (state p = STATE_NONE -> c = "{"%char -> allowComma p' = 0)
  /\ (is_container (state p) = true -> c = ","%char -> allowComma p <> 0 ->
      allowComma p' = 0
      /\ (stateIndex p + 1 < MAXSTATES -> state p' = STATE_TONAME))
  /\ (is_container (state p) = true -> c = ","%char -> allowComma p = 0 ->
      0 <= numchars p -> idle p').
Proof.
  destruct p as [st sts si ac sl sk m ei nc e1 e2 e3 e4 e5 e6 e7].
  cbn [state allowComma stateIndex]. split; [|split].
  - intros -> ->. run_a_cases; reflexivity.
  - intros Hst -> Hac. apply Z.eqb_neq in Hac.
    destruct st; try discriminate Hst; run_a; rewrite Hac; run_a_cases;
      (split; [reflexivity | intros; first [reflexivity | lia]]).
  - intros Hst -> Hac _. subst ac.
    destruct st; try discriminate Hst; run_a_cases; repeat split.
Qed.

Lemma comma_flag_kept Atoi c p :
  let p' := exec (dispatch Atoi c) p in
  (state p = STATE_TOVALUE -> c = "{"%char \/ c = "["%char ->
   (stack p + 1 < MAXSTACK -> stateIndex p + 1 < MAXSTATES ->
    allowComma p' = allowComma p /\ state p' = STATE_TONAME)
   /\ (MAXSTACK <= stack p + 1 \/ MAXSTATES <= stateIndex p + 1 ->
       0 <= numchars p -> allowComma p' = 0))
  /\ (state p = STATE_OUTVALUE -> c = ","%char ->
      (stateIndex p + 1 < MAXSTATES ->
       allowComma p' = allowComma p /\ state p' = STATE_TONAME)
      /\ (MAXSTATES <= stateIndex p + 1 -> 0 <= numchars p -> idle p')).
Proof.
  destruct p as [st sts si ac sl sk m ei nc e1 e2 e3 e4 e5 e6 e7].
  cbn [state allowComma stateIndex stack numchars]. split.
  - intros -> Hc. split.
    + intros Hsk Hsi. apply Z.ltb_lt in Hsk, Hsi.
      destruct Hc as [-> | ->];
        repeat (run_a; first [progress rewrite ?Hsk, ?Hsi | progress eval_tests]);
        run_a; split; reflexivity.
    + intros Hfull _.
      destruct (sk + 1 <? MAXSTACK) eqn:Hsk.
      * assert (Hsi : (si + 1 <? MAXSTATES) = false)
          by (apply Z.ltb_ge; apply Z.ltb_lt in Hsk; lia).
        destruct Hc as [-> | ->];
          repeat (run_a; first [progress rewrite ?Hsk, ?Hsi | progress eval_tests]);
          run_a; reflexivity.
      * destruct Hc as [-> | ->];
          repeat (run_a; first [progress rewrite ?Hsk | progress eval_tests]);
          run_a; reflexivity.
  - intros -> ->. split.
    + intros Hsi. apply Z.ltb_lt in Hsi.
      repeat (run_a; first [progress rewrite ?Hsi | progress eval_tests]);
        run_a; split; reflexivity.
    + intros Hsi _. apply Z.ltb_ge in Hsi.
      repeat (run_a; first [progress rewrite ?Hsi | progress eval_tests]);
        run_a; repeat split.
Qed.

Lemma lowers_ret {A} (a : A) : lowers (ret a).
Proof. intros p. left. reflexivity. Qed.

Lemma lowers_mret {A} (a : A) : lowers (mret a : M A).
Proof. intros p. left. reflexivity. Qed.

Lemma lowers_get {A} (f : parser_data_t -> A) : lowers (get f).
Proof. intros p. left. reflexivity. Qed.

Lemma lowers_call cb ev : lowers (call cb ev).
Proof. intros p. left. reflexivity. Qed.

Lemma lowers_report err : lowers (report err).
Proof. intros p. left. reflexivity. Qed.

Lemma lowers_bind {A B} (m : M A) (f : A -> M B) :
  lowers m -> (forall a, lowers (f a)) -> lowers (m ≫= f).
Proof.
  intros Hm Hf p. rewrite exec_bind.
  destruct (Hm p) as [H1|H1], (Hf (fst (fst (m p))) (exec m p)) as [H2|H2];
    unfold flag_low; first [left; congruence | right; congruence].
Qed.

Lemma lowers_if {A} (b : bool) (m1 m2 : M A) :
  lowers m1 -> lowers m2 -> lowers (if b then m1 else m2).
Proof. destruct b; auto. Qed.

Lemma lowers_when (b : bool) (m : M unit) : lowers m -> lowers (when b m).
Proof. destruct b; [auto | intros _; apply lowers_ret]. Qed.

Lemma lowers_modify f :
  (forall p, allowComma (f p) = allowComma p \/ allowComma (f p) = 0) ->
  lowers (modify f).
Proof. intros H p. apply H. Qed.

Create HintDb lowers.
#[local] Hint Resolve lowers_ret lowers_mret lowers_get lowers_call lowers_report : lowers.

Ltac lowers_split :=
  repeat lazymatch goal with
    | |- lowers (mbind _ _) => apply lowers_bind; [|intros ?]
    | |- lowers (if _ then _ else _) => apply lowers_if
    | |- lowers (when _ _) => apply lowers_when
    | |- lowers (modify _) =>
        apply lowers_modify; intros []; cbn; first [left; reflexivity | right; reflexivity]
    | |- lowers _ => solve [auto 1 with lowers]
    end.

Lemma jsonError_lowers err : lowers (jsonError err).
Proof. unfold jsonError, jsonReset. lowers_split. Qed.

#[local] Hint Resolve jsonError_lowers : lowers.

Lemma appendName_lowers c : lowers (appendName c).
Proof. unfold appendName. lowers_split. Qed.

Lemma appendValue_lowers c : lowers (appendValue c).
Proof. unfold appendValue. lowers_split. Qed.

Lemma setState_lowers st : lowers (setState st).
Proof. unfold setState. destruct st; lowers_split. Qed.

#[local] Hint Resolve appendName_lowers appendValue_lowers setState_lowers : lowers.

Lemma toState_lowers st : lowers (toState st).
Proof. unfold toState. lowers_split. Qed.

#[local] Hint Resolve toState_lowers : lowers.

(** A dispatch that pops is the pop; the callback it invokes first does
    not touch the slot. *)
Lemma dispatch_pops Atoi c p :
  pops p c = true -> exec (dispatch Atoi c) p = exec upState p.
Proof.
  destruct p as [st sts si ac sl sk m ei nc e1 e2 e3 e4 e5 e6 e7].
  unfold pops. cbn [state].
  destruct st; intros H; try discriminate H.
  - unfold dispatch. run_m. rewrite H. run_m. reflexivity.
  - unfold dispatch. run_m. rewrite H. run_m. reflexivity.
  - apply andb_true_iff in H. destruct H as [H1 H2].
    apply negb_true_iff in H1, H2.
    unfold dispatch. run_m. rewrite H1. run_m. rewrite H2. run_m. reflexivity.
Qed.

(** Any other dispatch leaves the flag or clears it. *)
Lemma dispatch_lowers Atoi c p :
  pops p c = false -> flag_low p (exec (dispatch Atoi c) p).
Proof.
  intros H. unfold dispatch. rewrite exec_bind.
  change (fst (fst (get state p))) with (state p).
  change (exec (get state) p) with p.
  unfold pops in H.
  destruct (state p) eqn:Est;
    match goal with |- flag_low p (exec ?m p) => generalize p; change (lowers m) end.
  - lowers_split.
  - apply lowers_bind; [apply lowers_get | intros comma].
    rewrite H. lowers_split.
  - lowers_split.
  - lowers_split.
  - lowers_split.
  - lowers_split.
  - lowers_split.
  - lowers_split.
  - apply lowers_bind; [apply lowers_get | intros comma].
    rewrite H. lowers_split.
  - destruct (isWhiteSpace c); [lowers_split|].
    destruct (Ascii.eqb c ","); [lowers_split | discriminate H].
Qed.

(** The pop sets the flag exactly when it lands in an object or an
    array. *)
Lemma upState_flag p :
  let p' := exec upState p in
  (is_container (state p') = true -> allowComma p' = 1)
  /\ (flag_low p p' \/ is_container (state p') = true).
Proof.
  destruct p as [st sts si ac sl sk m ei nc e1 e2 e3 e4 e5 e6 e7].
  unfold flag_low. run_a.
  destruct (0 <? si); run_a;
    [destruct (default STATE_NONE (sts !! Z.to_nat (si - 1))); run_a;
     try destruct (0 <? sk); run_a |];
    (split; [intros H; first [reflexivity | discriminate H] | auto]).
Qed.

Lemma comma_flag_set Atoi c p :
  let p' := exec (dispatch Atoi c) p in
  (pops p c = true -> is_container (state p') = true -> allowComma p' = 1)
  /\ (allowComma p' <> allowComma p -> allowComma p' <> 0 ->
      pops p c = true /\ is_container (state p') = true).
Proof.
  cbn zeta. split.
  - intros H. rewrite (dispatch_pops _ _ _ H). apply upState_flag.
  - intros H1 H2. destruct (pops p c) eqn:H.
    + rewrite (dispatch_pops _ _ _ H) in *.
      destruct (upState_flag p) as [_ [[Hl|Hl]|Hc]]; [congruence | congruence | auto].
    + destruct (dispatch_lowers Atoi c p H); congruence.
Qed.

(** C8 (amended): in one dispatch, the comma flag is cleared by the
    top-level [{] in Idle and by a comma accepted in InObject or InArray;
    such a comma is accepted (next state ExpectName) only while the flag
    is set, and with the flag clear it is an error that resets the slot.
    Entering a nested object or array from ExpectValue and consuming a
    comma in AfterValue leave the flag as it is when the stacks have room
    for the push they make; when a stack is full the internal error
    resets the slot and clears the flag with it.  The flag is set exactly
    by a pop that lands in InObject or InArray: such a pop sets it to 1,
    and no other dispatch changes it to a non-zero value.  Where an
    outcome is that of an error, the count of characters is taken not to
    have wrapped. *)
Theorem C8_comma_flag Atoi c p :
  let p' := exec (dispatch Atoi c) p in
  (state p = STATE_NONE -> c = "{"%char -> allowComma p' = 0)
  /\ (is_container (state p) = true -> c = ","%char -> allowComma p <> 0 ->
      allowComma p' = 0
      /\ (stateIndex p + 1 < MAXSTATES -> state p' = STATE_TONAME))
  /\ (is_container (state p) = true -> c = ","%char -> allowComma p = 0 ->
      0 <= numchars p -> idle p')
  /\ (state p = STATE_TOVALUE -> c = "{"%char \/ c = "["%char ->
      (stack p + 1 < MAXSTACK -> stateIndex p + 1 < MAXSTATES ->
       allowComma p' = allowComma p /\ state p' = STATE_TONAME)
      /\ (MAXSTACK <= stack p + 1 \/ MAXSTATES <= stateIndex p + 1 ->
          0 <= numchars p -> allowComma p' = 0))
  /\ (state p = STATE_OUTVALUE -> c = ","%char ->
      (stateIndex p + 1 < MAXSTATES ->
       allowComma p' = allowComma p /\ state p' = STATE_TONAME)
      /\ (MAXSTATES <= stateIndex p + 1 -> 0 <= numchars p -> idle p'))
  /\ (pops p c = true -> is_container (state p') = true -> allowComma p' = 1)
  /\ (allowComma p' <> allowComma p -> allowComma p' <> 0 ->
      pops p c = true /\ is_container (state p') = true).
Proof.
  cbn zeta.
  destruct (comma_flag_cleared Atoi c p) as (H1 & H2 & H3).
  destruct (comma_flag_kept Atoi c p) as (H4 & H5).
  destruct (comma_flag_set Atoi c p) as (H6 & H7).
  exact (conj H1 (conj H2 (conj H3 (conj H4 (conj H5 (conj H6 H7)))))).
Qed.

Lemma C8_comma_flag_witness :
  allowComma (exec (dispatch Atoi_decimal "{") fresh) = 0
  /\ allowComma (exec (dispatch Atoi_decimal ",")
                   (exec (feed Atoi_decimal (json "{'a':{'b':1}")) fresh)) = 0
  /\ allowComma (exec (dispatch Atoi_decimal "{")
                   (exec (feed Atoi_decimal (json "{'a':{'b':1}'c':")) fresh))
     = allowComma (exec (feed Atoi_decimal (json "{'a':{'b':1}'c':")) fresh)
  /\ allowComma (exec (dispatch Atoi_decimal "{")
                   (exec (feed Atoi_decimal
                            (json "{'a':{'b':1}'c':{'d':{'e':{'f':{'g':")) fresh))
     = 0
  /\ allowComma (exec (dispatch Atoi_decimal "}")
                   (exec (feed Atoi_decimal (json "{'a':'x'")) fresh)) = 1.
Proof.
  split; [|split; [|split; [|split]]].
  - exact (proj1 (C8_comma_flag Atoi_decimal "{" fresh) eq_refl eq_refl).
  - refine (proj1 (proj1 (proj2 (C8_comma_flag Atoi_decimal ","
              (exec (feed Atoi_decimal (json "{'a':{'b':1}")) fresh))) _ eq_refl _)).
    + vm_compute. reflexivity.
    + vm_compute. discriminate.
  - refine (proj1 (proj1 (proj1 (proj2 (proj2 (proj2 (C8_comma_flag Atoi_decimal "{"
              (exec (feed Atoi_decimal (json "{'a':{'b':1}'c':")) fresh)))))
              _ (or_introl eq_refl)) _ _)).
    + vm_compute. reflexivity.
    + vm_compute. reflexivity.
    + vm_compute. reflexivity.
  - refine (proj2 (proj1 (proj2 (proj2 (proj2 (C8_comma_flag Atoi_decimal "{"
              (exec (feed Atoi_decimal
                       (json "{'a':{'b':1}'c':{'d':{'e':{'f':{'g':")) fresh)))))
              _ (or_introl eq_refl)) _ _).
    + vm_compute. reflexivity.
    + left. vm_compute. discriminate.
    + vm_compute. discriminate.
  - refine (proj1 (proj2 (proj2 (proj2 (proj2 (proj2 (C8_comma_flag Atoi_decimal "}"
              (exec (feed Atoi_decimal (json "{'a':'x'")) fresh))))))) _ _).
    + vm_compute. reflexivity.
    + vm_compute. reflexivity.
Defined.

(** The flag is not cleared on entering a nested object, nor by a comma
    consumed in AfterValue: after [{"a":{"b":1}] the flag is set, it
    stays set through ["c":{], and through the comma of ["c":1,]. *)
Lemma C8_flag_cleared_on_every_entry_counterexample :
  let p := exec (feed Atoi_decimal (json "{'a':{'b':1}'c':")) fresh in
  let q := exec (feed Atoi_decimal (json "{'a':{'b':1}'c':1")) fresh in
  state p = STATE_TOVALUE /\ allowComma p = 1
  /\ emitted (jsonEat Atoi_decimal "{") p = [EvObjectStart "c"]
  /\ state (exec (jsonEat Atoi_decimal "{") p) = STATE_TONAME
  /\ allowComma (exec (jsonEat Atoi_decimal "{") p) = 1
  /\ state q = STATE_INNUM /\ allowComma q = 1
  /\ emitted (jsonEat Atoi_decimal ",") q = [EvInteger "c" 1]
  /\ state (exec (jsonEat Atoi_decimal ",") q) = STATE_TONAME
  /\ allowComma (exec (jsonEat Atoi_decimal ",") q) = 1.
Proof.
  repeat split; vm_compute; reflexivity.
Qed.

(** ** Parser switching *)

Lemma jsonGetSelected_cases g :
  (parser g = 0 /\ jsonGetSelected g = 0)
  \/ (parser g = 1 /\ jsonGetSelected g = 1)
  \/ (parser g <> 0 /\ parser g <> 1 /\ jsonGetSelected g = 0).
Proof.
  unfold jsonGetSelected. change (Z.to_nat MAXPARSERS) with 2%nat.
  cbn [find_selected]. change (0 + 1) with 1.
  destruct (parser g =? 0) eqn:E0; [left; split; [lia | reflexivity]|].
  destruct (parser g =? 1) eqn:E1; [right; left; split; [lia | reflexivity]|].
  right; right. repeat split; lia.
Qed.

(** C9: [jsonSelectNext] at the last slot and [jsonSelectPrev] at the
    first slot leave the active slot as it is; otherwise each moves the
    active index by exactly one; and neither changes anything in any
    slot of the pool. *)
Theorem C9_switching_moves_only_the_pointer g :
  parserData (jsonSelectNext g) = parserData g
  /\ parserData (jsonSelectPrev g) = parserData g
  /\ jsonGetSelected (jsonSelectNext g)
     = (if jsonGetSelected g =? MAXPARSERS - 1 then jsonGetSelected g
        else jsonGetSelected g + 1)
  /\ jsonGetSelected (jsonSelectPrev g)
     = (if jsonGetSelected g =? 0 then jsonGetSelected g
        else jsonGetSelected g - 1)
  /\ (if jsonGetSelected g =? MAXPARSERS - 1
      then parser (jsonSelectNext g) = parser g
      else parser (jsonSelectNext g) = jsonGetSelected g + 1)
  /\ (if jsonGetSelected g =? 0
      then parser (jsonSelectPrev g) = parser g
      else parser (jsonSelectPrev g) = jsonGetSelected g - 1).
Proof.
  unfold jsonSelectNext, jsonSelectPrev.
  destruct (jsonGetSelected_cases g) as [[Hp Hs]|[[Hp Hs]|(Hp0 & Hp1 & Hs)]];
    rewrite Hs; change (MAXPARSERS - 1) with 1; cbn [Z.eqb Z.ltb Z.compare];
    cbn [parserData parser]; repeat split;
    first [reflexivity | assumption].
Qed.

(** The scenario of the specification: a document begun on slot 0 is
    completed there after a whole document has been parsed on slot 1. *)
Example switching_slots_mid_parse :
  let r1 := feed_selected Atoi_decimal (json "{'a':") (pool_ready, []) in
  let r2 := feed_selected Atoi_decimal (json "{'b':2}") (jsonSelectNext (fst r1), snd r1) in
  let r3 := feed_selected Atoi_decimal (json "1}") (jsonSelectPrev (fst r2), snd r2) in
  snd r3
  = [EvObjectStart ""; EvObjectStart ""; EvInteger "b" 2; EvObjectComplete "";
     EvInteger "a" 1; EvObjectComplete ""]
  /\ jsonGetSelected (fst r3) = 0
  /\ printed (fst r3) = [].
Proof. repeat split; vm_compute; reflexivity. Qed.

(** * Further properties of the parser *)

(** ** Bounds and termination *)

(** X1: feeding any characters to a slot whose indices are within the
    arrays leaves them within the arrays: the state stack index below
    [MAXSTATES], the name stack index below [MAXSTACK], the ring index
    below [MAXERRORBUFFER], and the arrays at their sizes. *)
Theorem X1_indices_stay_in_bounds Atoi cs p :
  wf p -> wf (exec (feed Atoi cs) p).
Proof. apply feed_wf. Qed.

Lemma X1_indices_stay_in_bounds_witness :
  wf (exec (feed Atoi_decimal (json "{'a':{'a':{'a':{'a':{'a':1}}}}}")) fresh).
Proof.
  apply (X1_indices_stay_in_bounds Atoi_decimal).
  constructor; vm_compute; first [reflexivity | split; [discriminate | reflexivity]].
Defined.

Lemma redispatches_bound p : wf p -> (redispatches p <= 21)%nat.
Proof.
  intros [_ _ Hi _ _]. unfold redispatches, MAXSTATES in *.
  destruct (state p); lia.
Qed.

(** Every dispatch that asks for another lowers the measure, so the
    chain of dispatches of one character comes to one that does not ask
    for another before the measure is used up. *)
Lemma settles_enough Atoi c n : forall p,
  (redispatches p <= n)%nat -> settles Atoi n c p = true.
Proof.
  induction n as [|n IH]; intros p Hn.
  - pose proof (redispatches_pos p). lia.
  - cbn [settles]. destruct (fst (fst (dispatch Atoi c p))) eqn:E; [|reflexivity].
    apply IH. pose proof (dispatch_again_decreases Atoi c p E) as Hd.
    unfold exec in Hd. lia.
Qed.

(** X2: the recursion of [jsonEatNoLog] on the same character ends.
    From a slot whose indices are within the arrays, the dispatches of
    one character come, within 21 of them, to a dispatch that does not
    ask for another: a dispatch asks for another only after a completed
    number, which leaves InNumber, or after a pop in AfterValue, which
    shortens the state stack.  So unrolling the recursion 21 times or
    more gives the result of [jsonEatNoLog]. *)
Theorem X2_redispatch_is_bounded Atoi c p n :
  wf p -> (21 <= n)%nat ->
  settles Atoi n c p = true
  /\ (fst (fst (dispatch Atoi c p)) = true ->
      (redispatches (exec (dispatch Atoi c) p) < redispatches p)%nat)
  /\ eat_loop Atoi n c p = jsonEatNoLog Atoi c p.
Proof.
  intros Hwf Hn. pose proof (redispatches_bound p Hwf).
  split; [apply settles_enough; lia|].
  split; [apply dispatch_again_decreases|].
  unfold jsonEatNoLog. apply eat_loop_enough; lia.
Qed.

Lemma X2_redispatch_is_bounded_witness :
  settles Atoi_decimal 21 "}"
    (exec (feed Atoi_decimal (json "{'a':1,'b':2,'c':3")) fresh) = true.
Proof.
  apply (X2_redispatch_is_bounded Atoi_decimal "}"
           (exec (feed Atoi_decimal (json "{'a':1,'b':2,'c':3")) fresh) 21).
  - constructor; vm_compute; first [reflexivity | split; [discriminate | reflexivity]].
  - lia.
Defined.

(** ** Characters the parser passes over *)

Lemma whitespace_char c :
  isWhiteSpace c = true ->
  Ascii.eqb c "{" = false /\ Ascii.eqb c "}" = false /\ Ascii.eqb c "[" = false
  /\ Ascii.eqb c "]" = false /\ Ascii.eqb c dquote = false
  /\ Ascii.eqb c "," = false /\ Ascii.eqb c ":" = false
  /\ isNum c = false /\ isSign c = false.
Proof.
  destruct c as [[] [] [] [] [] [] [] []]; vm_compute; intros H;
    first [discriminate H | repeat split].
Qed.

(** X3: between tokens white space is passed over: in every state but
    InName, InString and InNumber a blank, tab, carriage return or line
    feed invokes no callback and changes nothing in the slot but the
    count of characters. *)
Theorem X3_whitespace_is_skipped Atoi c p :
  isWhiteSpace c = true ->
  state p <> STATE_INNAME -> state p <> STATE_INSTRING -> state p <> STATE_INNUM ->
  jsonEat Atoi c p = (tt, set_numchars (int32 (numchars p + 1)) p, []).
Proof.
  intros Hws Hn1 Hn2 Hn3.
  destruct (whitespace_char c Hws) as (E1 & E2 & E3 & E4 & E5 & E6 & E7 & E8 & E9).
  destruct p as [st sts si ac sl sk m ei nc e1 e2 e3 e4 e5 e6 e7].
  cbn [state numchars] in *.
  assert (D : dispatch Atoi c
                (mkParser st sts si ac sl sk m ei (int32 (nc + 1)) e1 e2 e3 e4 e5 e6 e7)
              = (false, mkParser st sts si ac sl sk m ei (int32 (nc + 1))
                          e1 e2 e3 e4 e5 e6 e7, [])).
  { destruct st; try congruence; run_h;
      rewrite ?E1, ?E2, ?E3, ?E4, ?E5, ?E6, ?E7, ?E8, ?E9, ?Hws;
      cbn [andb orb negb]; run_h; reflexivity. }
  unfold jsonEat. rewrite Hws. cbn [negb]. run_m.
  rewrite (eat_done _ _ _ _ _ D). reflexivity.
Qed.

Lemma X3_whitespace_is_skipped_witness :
  jsonEat Atoi_decimal " " (exec (feed Atoi_decimal (json "{'a'")) fresh)
  = (tt,
     set_numchars 5 (exec (feed Atoi_decimal (json "{'a'")) fresh),
     []).
Proof.
  apply (X3_whitespace_is_skipped Atoi_decimal " "
           (exec (feed Atoi_decimal (json "{'a'")) fresh));
    first [reflexivity | vm_compute; discriminate].
Defined.

(** X4: in Idle every character other than [{] and the double quote is
    discarded: no callback is invoked, no error is raised, and the slot
    stays as it is apart from the record of the character in the
    diagnostic buffer. *)
Theorem X4_idle_discards Atoi c p :
  wf p -> state p = STATE_NONE -> c <> "{"%char -> c <> dquote ->
  exists m ei nc,
    jsonEat Atoi c p = (tt, relog m ei nc p, [])
    /\ length m = length (chars p)
    /\ forall off t, holds (chars p) off t -> (off + length t < 950)%nat ->
                     holds m off t.
Proof.
  intros Hwf Hst Hb Hq.
  destruct (jsonEat_logs Atoi c p Hwf) as (m0 & ei0 & nc0 & Heq & Hl0 & He0 & Hrows & _).
  exists m0, ei0, nc0. split; [|split; assumption].
  rewrite Heq. apply eat_done.
  destruct p as [st sts si ac sl sk m ei nc e1 e2 e3 e4 e5 e6 e7].
  cbn [state] in Hst. subst st. unfold relog. run_h.
  rewrite (eqb_false _ _ Hb), (eqb_false _ _ Hq). run_h. reflexivity.
Qed.

Lemma X4_idle_discards_witness :
  exists m ei nc,
    jsonEat Atoi_decimal "}" fresh = (tt, relog m ei nc fresh, [])
    /\ length m = length (chars fresh)
    /\ forall off t, holds (chars fresh) off t -> (off + length t < 950)%nat ->
                     holds m off t.
Proof.
  apply (X4_idle_discards Atoi_decimal "}" fresh).
  - constructor; vm_compute; first [reflexivity | split; [discriminate | reflexivity]].
  - reflexivity.
  - discriminate.
  - discriminate.
Defined.

(** ** Syntax errors *)

(** X5: a character that the current state has no use for (anything
    but a quote or white space where a name is expected, an invalid
    character inside a name, anything but a colon after a name, a
    character that starts no value, a stray character in an object or
    array) invokes the error callback once, with the code of that state,
    and leaves the slot reset to Idle.  The count of characters since
    the last reset must not have reached the end of its [int] range:
    past it [jsonError] stores outside its local array. *)
Theorem X5_syntax_error_resets Atoi c p err :
  wf p -> onError p = true -> 0 <= numchars p < 2 ^ 31 - 1 ->
  syntax_error p c = Some err ->
  exists context,
    emitted (jsonEat Atoi c) p = [EvError err (message err) context]
    /\ idle (exec (jsonEat Atoi c) p).
Proof.
  intros Hwf Hon Hnc Herr.
  destruct (jsonEat_logs Atoi c p Hwf) as (m0 & ei0 & nc0 & Heq & _ & _ & _ & _ & Hnc0).
  rewrite (int32_next _ Hnc) in Hnc0.
  assert (Hnc0' : 0 <= nc0) by lia. clear Hnc0 Hnc.
  destruct p as [st sts si ac sl sk m ei nc e1 e2 e3 e4 e5 e6 e7].
  unfold syntax_error in Herr. cbn [state allowComma onError] in *. subst e1.
  unfold relog in Heq.
  cbn [set_chars set_errbufIndex set_numchars state states stateIndex allowComma
         isSlash stack chars errbufIndex numchars onError onObjectStart
         onObjectComplete onArrayStart onArrayComplete onString onInteger] in Heq.
  destruct st; try discriminate Herr;
    match type of Herr with (if ?b then _ else _) = _ =>
      destruct b eqn:Eb; [discriminate Herr|]
    end;
    injection Herr as <-;
    repeat (apply orb_false_iff in Eb; destruct Eb as [Eb ?]);
    (eapply error_and_idle; [exact Heq | | repeat split]);
    run_h;
    repeat match goal with
      | H : _ = false |- _ => rewrite H; clear H
      end;
    cbn [andb orb negb]; run_h; in_bounds; run_h; cbn [app]; reflexivity.
Qed.

Lemma X5_syntax_error_resets_witness :
  exists context,
    emitted (jsonEat Atoi_decimal "}") (exec (feed Atoi_decimal (json "{'a':")) fresh)
    = [EvError ERR_PARSE_VALUE "parsing value" context]
    /\ idle (exec (jsonEat Atoi_decimal "}")
               (exec (feed Atoi_decimal (json "{'a':")) fresh)).
Proof.
  apply (X5_syntax_error_resets Atoi_decimal "}"
           (exec (feed Atoi_decimal (json "{'a':")) fresh) ERR_PARSE_VALUE).
  - constructor; vm_compute; first [reflexivity | split; [discriminate | reflexivity]].
  - reflexivity.
  - vm_compute. split; [discriminate | reflexivity].
  - reflexivity.
Defined.

(** ** The two stacks at their limits *)

(** X6: in ExpectValue a [{] or [[] invokes the start callback with the
    name of the field and, while both stacks have room, pushes the
    container on the state stack, takes the next row of the name stack
    and expects a name.  With the name stack full the internal error
    follows the start callback, and the push that the code still performs
    after the reset leaves the slot in ExpectName with one saved state
    instead of Idle; with only the state stack full the internal error
    leaves the slot Idle.  The two error cases need the count of
    characters since the last reset within its [int] range, or
    [jsonError] stores outside its local array. *)
Theorem X6_nesting_limit Atoi c p s :
  wf p -> state p = STATE_TOVALUE -> c = "{"%char \/ c = "["%char ->
  onError p = true -> onObjectStart p = true -> onArrayStart p = true ->
  holds (chars p) (name_at (stack p)) s -> (length s <= 30)%nat ->
  let p' := exec (jsonEat Atoi c) p in
  (stack p + 1 < MAXSTACK -> stateIndex p + 1 < MAXSTATES ->
   emitted (jsonEat Atoi c) p = [opened_event c (str s)]
   /\ state p' = STATE_TONAME /\ stack p' = stack p + 1
   /\ stateIndex p' = stateIndex p + 1
   /\ states p' !! Z.to_nat (stateIndex p) = Some (opened_state c)
   /\ holds (chars p') (name_at (stack p')) [])
  /\ (stack p + 1 = MAXSTACK -> 0 <= numchars p < 2 ^ 31 - 1 ->
      (exists context,
         emitted (jsonEat Atoi c) p
         = [opened_event c (str s); EvError ERR_INTERNAL "internal error" context])
      /\ state p' = STATE_TONAME /\ stateIndex p' = 1 /\ stack p' = 0)
  /\ (stack p + 1 < MAXSTACK -> stateIndex p + 1 = MAXSTATES ->
      0 <= numchars p < 2 ^ 31 - 1 ->
      (exists context,
         emitted (jsonEat Atoi c) p
         = [opened_event c (str s); EvError ERR_INTERNAL "internal error" context])
      /\ idle p').
Proof.
  intros Hwf Hst Hc Hon1 Hon2 Hon3 Hs Hlen.
  destruct (jsonEat_logs Atoi c p Hwf)
    as (m0 & ei0 & nc0 & Heq & Hl0 & He0 & Hrows & _ & Hnc0).
  pose proof Hwf as [Hws Hwc Hwi Hwk Hwe].
  pose proof (name_at_bounds _ Hwk) as Hnb.
  change (Z.to_nat _) with 970%nat in Hwc.
  assert (Hs0 : holds m0 (name_at (stack p)) s) by (apply Hrows; [exact Hs | lia]).
  destruct p as [st sts si ac sl sk m ei nc e1 e2 e3 e4 e5 e6 e7].
  cbn [state stack stateIndex chars states onError onObjectStart onArrayStart
         numchars] in *.
  subst st e1 e2 e4. unfold relog in Heq.
  cbn [set_chars set_errbufIndex set_numchars state states stateIndex allowComma
         isSlash stack chars errbufIndex numchars onError onObjectStart
         onObjectComplete onArrayStart onArrayComplete onString onInteger] in Heq.
  cbn zeta.
  split; [|split].
  - intros Hk Hi.
    assert (D : exists q,
               dispatch Atoi c
                 (mkParser STATE_TOVALUE sts si ac sl sk m0 ei0 nc0 true true e3 true e5 e6 e7)
               = (false, q, [opened_event c (str s)])
               /\ state q = STATE_TONAME /\ stack q = sk + 1 /\ stateIndex q = si + 1
               /\ states q !! Z.to_nat si = Some (opened_state c)
               /\ holds (chars q) (name_at (stack q)) []).
    { apply Z.ltb_lt in Hk, Hi.
      destruct Hc as [-> | ->]; eexists; (split; [run_concrete;
        rewrite Hk; run_h; rewrite Hi; run_h;
        rewrite (holds_as_string _ _ _ Hs0); cbn [app]; reflexivity|]);
        cbn [state stack stateIndex states chars];
        (split; [reflexivity | split; [reflexivity | split; [reflexivity | split]]];
         [ apply list_lookup_insert_eq; unfold MAXSTATES in *; lia
         | apply holds_nil; unfold name_at, MAXNAME, MAXSTACK in *; lia ]). }
    destruct D as (q & D & Hq).
    destruct (eat_done_parts _ _ _ _ _ _ Heq D) as [-> ->].
    split; [reflexivity | exact Hq].
  - intros Hk Hnc. assert (Hk' : (sk + 1 <? MAXSTACK) = false) by (apply Z.ltb_ge; lia).
    rewrite (int32_next _ Hnc) in Hnc0.
    assert (Hnc0' : 0 <= nc0) by lia.
    assert (D : exists q context,
               dispatch Atoi c
                 (mkParser STATE_TOVALUE sts si ac sl sk m0 ei0 nc0 true true e3 true e5 e6 e7)
               = (false, q, [opened_event c (str s);
                             EvError ERR_INTERNAL "internal error" context])
               /\ state q = STATE_TONAME /\ stateIndex q = 1 /\ stack q = 0).
    { destruct Hc as [-> | ->]; eexists; eexists; (split; [run_concrete;
        rewrite Hk'; run_concrete; in_bounds; run_concrete;
        rewrite (holds_as_string _ _ _ Hs0); cbn [app]; reflexivity|]);
        repeat split. }
    destruct D as (q & context & D & Hq).
    destruct (eat_done_parts _ _ _ _ _ _ Heq D) as [-> ->].
    split; [exists context; reflexivity | exact Hq].
  - intros Hk Hi Hnc. apply Z.ltb_lt in Hk.
    assert (Hi' : (si + 1 <? MAXSTATES) = false) by (apply Z.ltb_ge; lia).
    rewrite (int32_next _ Hnc) in Hnc0.
    assert (Hnc0' : 0 <= nc0) by lia.
    assert (D : exists q context,
               dispatch Atoi c
                 (mkParser STATE_TOVALUE sts si ac sl sk m0 ei0 nc0 true true e3 true e5 e6 e7)
               = (false, q, [opened_event c (str s);
                             EvError ERR_INTERNAL "internal error" context])
               /\ idle q).
    { destruct Hc as [-> | ->]; eexists; eexists; (split; [run_concrete;
        rewrite Hk; run_h; rewrite Hi'; run_h; in_bounds; run_h;
        rewrite (holds_as_string _ _ _ Hs0); cbn [app]; reflexivity|]);
        repeat split. }
    destruct D as (q & context & D & Hq).
    destruct (eat_done_parts _ _ _ _ _ _ Heq D) as [-> ->].
    split; [exists context; reflexivity | exact Hq].
Qed.

Lemma X6_nesting_limit_witness :
  (state (exec (jsonEat Atoi_decimal "[")
            (exec (feed Atoi_decimal (json "{'a':")) fresh)) = STATE_TONAME
   /\ stack (exec (jsonEat Atoi_decimal "[")
               (exec (feed Atoi_decimal (json "{'a':")) fresh)) = 2)
  /\ (state (exec (jsonEat Atoi_decimal "{")
               (exec (feed Atoi_decimal (json "{'a':{'a':{'a':{'a':")) fresh))
      = STATE_TONAME
      /\ stateIndex (exec (jsonEat Atoi_decimal "{")
                       (exec (feed Atoi_decimal (json "{'a':{'a':{'a':{'a':")) fresh))
         = 1).
Proof.
  split.
  - assert (Hwf : wf (exec (feed Atoi_decimal (json "{'a':")) fresh))
      by (constructor; vm_compute;
          first [reflexivity | split; [discriminate | reflexivity]]).
    assert (Hs : holds (chars (exec (feed Atoi_decimal (json "{'a':")) fresh))
                   (name_at (stack (exec (feed Atoi_decimal (json "{'a':")) fresh)))
                   ["a"%char])
      by (split; [vm_compute; reflexivity | repeat constructor; discriminate]).
    assert (Hlen : (length ["a"%char] <= 30)%nat) by (cbn [length]; lia).
    destruct (X6_nesting_limit Atoi_decimal "[" _ _ Hwf eq_refl (or_intror eq_refl)
                eq_refl eq_refl eq_refl Hs Hlen) as [H _].
    destruct H as (_ & H1 & H2 & _).
    + vm_compute. reflexivity.
    + vm_compute. reflexivity.
    + split; [exact H1 | exact H2].
  - assert (Hwf : wf (exec (feed Atoi_decimal (json "{'a':{'a':{'a':{'a':")) fresh))
      by (constructor; vm_compute;
          first [reflexivity | split; [discriminate | reflexivity]]).
    assert (Hs : holds (chars (exec (feed Atoi_decimal (json "{'a':{'a':{'a':{'a':")) fresh))
                   (name_at (stack (exec (feed Atoi_decimal
                                            (json "{'a':{'a':{'a':{'a':")) fresh)))
                   ["a"%char])
      by (split; [vm_compute; reflexivity | repeat constructor; discriminate]).
    assert (Hlen : (length ["a"%char] <= 30)%nat) by (cbn [length]; lia).
    destruct (X6_nesting_limit Atoi_decimal "{" _ _ Hwf eq_refl (or_introl eq_refl)
                eq_refl eq_refl eq_refl Hs Hlen) as (_ & H & _).
    destruct H as (_ & H1 & H2 & _).
    + vm_compute. reflexivity.
    + vm_compute. split; [discriminate | reflexivity].
    + split; [exact H1 | exact H2].
Defined.

(** X7: a comma after a completed value saves the AfterValue state on
    the state stack and expects the next name, so every further field of
    a container takes one more of the [MAXSTATES] places; with the state
    stack full the comma raises the internal error and resets the slot
    (the count of characters since the last reset being within its
    [int] range, so that [jsonError] stays inside its local array). *)
Theorem X7_comma_takes_a_state_stack_place Atoi p :
  wf p -> state p = STATE_OUTVALUE -> onError p = true ->
  (stateIndex p + 1 < MAXSTATES ->
   exists m ei nc,
     jsonEat Atoi "," p = (tt, pushed STATE_TONAME (relog m ei nc p), [])
     /\ length m = length (chars p))
  /\ (stateIndex p + 1 = MAXSTATES -> 0 <= numchars p < 2 ^ 31 - 1 ->
      exists context,
        emitted (jsonEat Atoi ",") p
        = [EvError ERR_INTERNAL "internal error" context]
        /\ idle (exec (jsonEat Atoi ",") p)).
Proof.
  intros Hwf Hst Hon.
  destruct (jsonEat_logs Atoi "," p Hwf)
    as (m0 & ei0 & nc0 & Heq & Hl0 & He0 & _ & _ & Hnc0).
  destruct p as [st sts si ac sl sk m ei nc e1 e2 e3 e4 e5 e6 e7].
  cbn [state stateIndex onError chars numchars] in *. subst st e1.
  unfold relog in *.
  cbn [set_chars set_errbufIndex set_numchars state states stateIndex allowComma
         isSlash stack chars errbufIndex numchars onError onObjectStart
         onObjectComplete onArrayStart onArrayComplete onString onInteger] in Heq.
  split.
  - intros Hi. apply Z.ltb_lt in Hi.
    exists m0, ei0, nc0. split; [|exact Hl0].
    rewrite Heq. apply eat_done. unfold pushed. run_concrete.
    rewrite Hi. run_h. reflexivity.
  - intros Hi Hnc.
    assert (Hi' : (si + 1 <? MAXSTATES) = false) by (apply Z.ltb_ge; lia).
    rewrite (int32_next _ Hnc) in Hnc0.
    assert (Hnc0' : 0 <= nc0) by lia.
    eapply error_and_idle; [exact Heq | |].
    { run_concrete. rewrite Hi'. run_h. in_bounds. run_h. cbn [app]. reflexivity. }
    repeat split.
Qed.

Lemma X7_comma_takes_a_state_stack_place_witness :
  exists context,
    emitted (jsonEat Atoi_decimal ",")
      (exec (feed Atoi_decimal
               (json "{'a':'x','b':'x','c':'x','d':'x','e':'x','f':'x','g':'x','h':'x'"))
         fresh)
    = [EvError ERR_INTERNAL "internal error" context]
    /\ idle (exec (jsonEat Atoi_decimal ",")
               (exec (feed Atoi_decimal
                        (json "{'a':'x','b':'x','c':'x','d':'x','e':'x','f':'x','g':'x','h':'x'"))
                  fresh)).
Proof.
  refine (proj2 (X7_comma_takes_a_state_stack_place Atoi_decimal
            (exec (feed Atoi_decimal
                     (json "{'a':'x','b':'x','c':'x','d':'x','e':'x','f':'x','g':'x','h':'x'"))
               fresh) _ _ _) _ _).
  - constructor; vm_compute; first [reflexivity | split; [discriminate | reflexivity]].
  - vm_compute. reflexivity.
  - vm_compute. reflexivity.
  - vm_compute. reflexivity.
  - vm_compute. split; [discriminate | reflexivity].
Defined.

Lemma dispatch_idle_ignores Atoi c p :
  state p = STATE_NONE -> Ascii.eqb c "{" = false -> Ascii.eqb c dquote = false ->
  dispatch Atoi c p = (false, p, []).
Proof.
  intros Hst H1 H2.
  destruct p as [st sts si ac sl sk m ei nc e1 e2 e3 e4 e5 e6 e7].
  cbn [state] in Hst. subst st. run_h. rewrite H1, H2. run_h. reflexivity.
Qed.

(** X12: a pop that lands in InObject or InArray takes one name off the
    name stack, and when the name stack is already empty it raises the
    internal error instead: in AfterValue, with a container saved on top
    of the state stack and the name stack empty, a closing brace or
    bracket invokes the error callback and resets the slot, and the
    container is never completed.  This is the state a second field
    after a nested object is in.  The count of characters since the last
    reset is taken within its [int] range, where [jsonError] stays
    inside its local array. *)
Theorem X12_pop_with_empty_name_stack Atoi c p s :
  wf p -> state p = STATE_OUTVALUE -> c = "}"%char \/ c = "]"%char ->
  onError p = true -> 0 <= numchars p < 2 ^ 31 - 1 ->
  stack p = 0 -> 0 < stateIndex p ->
  states p !! Z.to_nat (stateIndex p - 1) = Some s -> is_container s = true ->
  exists context,
    emitted (jsonEat Atoi c) p = [EvError ERR_INTERNAL "internal error" context]
    /\ idle (exec (jsonEat Atoi c) p).
Proof.
  intros Hwf Hst Hc Hon Hnc Hsk Hsi Hs Hcont.
  destruct (jsonEat_logs Atoi c p Hwf) as (m0 & ei0 & nc0 & Heq & _ & _ & _ & _ & Hnc0).
  rewrite (int32_next _ Hnc) in Hnc0.
  assert (Hnc0' : 0 <= nc0) by lia. clear Hnc0 Hnc.
  destruct p as [st sts si ac sl sk m ei nc e1 e2 e3 e4 e5 e6 e7].
  cbn [state stateIndex onError stack states] in *. subst st e1 sk.
  unfold relog in Heq.
  cbn [set_chars set_errbufIndex set_numchars state states stateIndex allowComma
         isSlash stack chars errbufIndex numchars onError onObjectStart
         onObjectComplete onArrayStart onArrayComplete onString onInteger] in Heq.
  apply Z.ltb_lt in Hsi.
  assert (E : exists q context,
             jsonEat Atoi c
               (mkParser STATE_OUTVALUE sts si ac sl 0 m ei nc true e2 e3 e4 e5 e6 e7)
             = (tt, q, [EvError ERR_INTERNAL "internal error" context] ++ [])
             /\ idle q).
  { rewrite Heq. clear Heq Hwf.
    destruct s; try discriminate Hcont; destruct Hc as [-> | ->];
      eexists _, _;
      (split;
       [ eapply eat_again;
         [ run_concrete; rewrite Hsi; run_h; rewrite Hs; cbn [from_option];
           run_concrete; in_bounds; run_h; cbn [app]; reflexivity
         | apply eat_done, dispatch_idle_ignores; reflexivity ]
       | repeat split ]). }
  destruct E as (q & context & E & Hq). rewrite app_nil_r in E.
  destruct (result_parts _ _ _ _ _ E) as [-> ->].
  exists context. split; [reflexivity | exact Hq].
Qed.

Lemma X12_pop_with_empty_name_stack_witness :
  exists context,
    emitted (jsonEat Atoi_decimal "}")
      (exec (feed Atoi_decimal (json "{'a':{'b':1},'c':'x'")) fresh)
    = [EvError ERR_INTERNAL "internal error" context]
    /\ idle (exec (jsonEat Atoi_decimal "}")
               (exec (feed Atoi_decimal (json "{'a':{'b':1},'c':'x'")) fresh)).
Proof.
  apply (X12_pop_with_empty_name_stack Atoi_decimal "}"
           (exec (feed Atoi_decimal (json "{'a':{'b':1},'c':'x'")) fresh)
           STATE_INOBJECT).
  - constructor; vm_compute; first [reflexivity | split; [discriminate | reflexivity]].
  - vm_compute. reflexivity.
  - left. reflexivity.
  - vm_compute. reflexivity.
  - vm_compute. split; [discriminate | reflexivity].
  - vm_compute. reflexivity.
  - vm_compute. reflexivity.
  - vm_compute. reflexivity.
  - reflexivity.
Defined.

(** ** Callbacks are invoked only where registered, and stay registered *)

Lemma event_callback_ext e p q :
  callbacks q = callbacks p -> event_callback e q = event_callback e p.
Proof.
  unfold callbacks. intros H. injection H as H1 H2 H3 H4 H5 H6 H7.
  destruct e; first [assumption | reflexivity].
Qed.

Lemma guarded_ret {A} (a : A) : guarded (ret a).
Proof. intros p. split; [reflexivity | constructor]. Qed.

Lemma guarded_mret {A} (a : A) : guarded (mret a : M A).
Proof. intros p. split; [reflexivity | constructor]. Qed.

Lemma guarded_get {A} (f : parser_data_t -> A) : guarded (get f).
Proof. intros p. split; [reflexivity | constructor]. Qed.

Lemma guarded_modify f :
  (forall p, callbacks (f p) = callbacks p) -> guarded (modify f).
Proof. intros H p. split; [apply H | constructor]. Qed.

Lemma guarded_call cb ev :
  (forall p, event_callback (ev p) p = cb p) -> guarded (call cb ev).
Proof.
  intros H p. split; [reflexivity|].
  unfold emitted, call. cbn [snd]. destruct (cb p) eqn:E; repeat constructor.
  rewrite H. exact E.
Qed.

Lemma guarded_bind {A B} (m : M A) (f : A -> M B) :
  guarded m -> (forall a, guarded (f a)) -> guarded (m ≫= f).
Proof.
  intros Hm Hf p. rewrite exec_bind, emitted_bind.
  destruct (Hm p) as [H1 H2].
  destruct (Hf (fst (fst (m p))) (exec m p)) as [H3 H4].
  split; [congruence|].
  apply Forall_app. split; [exact H2|].
  eapply Forall_impl; [exact H4|]. intros e He. cbn beta in He.
  rewrite <- (event_callback_ext e p (exec m p) H1). exact He.
Qed.

Lemma guarded_if {A} (b : bool) (m1 m2 : M A) :
  guarded m1 -> guarded m2 -> guarded (if b then m1 else m2).
Proof. destruct b; auto. Qed.

Lemma guarded_when (b : bool) (m : M unit) : guarded m -> guarded (when b m).
Proof. destruct b; [auto | intros _; apply guarded_ret]. Qed.

Lemma guarded_report err : guarded (report err).
Proof.
  intros p. split; [reflexivity|].
  unfold emitted, report. cbn [snd].
  destruct (locerrbuf p); [|repeat constructor].
  destruct (onError p) eqn:E; repeat constructor. exact E.
Qed.

Create HintDb guarded.
#[local] Hint Resolve guarded_ret guarded_mret guarded_get guarded_report : guarded.

(** Splits a goal [guarded m] along the structure of [m]. *)
Ltac guarded_split :=
  repeat lazymatch goal with
    | |- guarded (mbind _ _) => apply guarded_bind; [|intros ?]
    | |- guarded (if _ then _ else _) => apply guarded_if
    | |- guarded (when _ _) => apply guarded_when
    | |- guarded (match ?s with STATE_NONE => _ | _ => _ end) => destruct s
    | |- guarded (modify _) => apply guarded_modify; intros []; reflexivity
    | |- guarded (call _ _) => apply guarded_call; intros ?; reflexivity
    | |- guarded _ => solve [auto 1 with guarded]
    end.

Lemma jsonReset_guarded : guarded jsonReset.
Proof. unfold jsonReset. guarded_split. Qed.

#[local] Hint Resolve jsonReset_guarded : guarded.

Lemma jsonError_guarded err : guarded (jsonError err).
Proof. unfold jsonError. guarded_split. Qed.

#[local] Hint Resolve jsonError_guarded : guarded.

Lemma appendName_guarded c : guarded (appendName c).
Proof. unfold appendName. guarded_split. Qed.

Lemma appendValue_guarded c : guarded (appendValue c).
Proof. unfold appendValue. guarded_split. Qed.

Lemma setState_guarded st : guarded (setState st).
Proof. unfold setState. guarded_split. Qed.

#[local] Hint Resolve appendName_guarded appendValue_guarded setState_guarded : guarded.

Lemma toState_guarded st : guarded (toState st).
Proof. unfold toState. guarded_split. Qed.

Lemma upState_guarded : guarded upState.
Proof. unfold upState. guarded_split. Qed.

#[local] Hint Resolve toState_guarded upState_guarded : guarded.

Lemma dispatch_guarded Atoi c : guarded (dispatch Atoi c).
Proof. unfold dispatch. guarded_split. Qed.

#[local] Hint Resolve dispatch_guarded : guarded.

Lemma eat_loop_guarded Atoi n c : guarded (eat_loop Atoi n c).
Proof. induction n as [|n IH]; simpl eat_loop; guarded_split. Qed.

Lemma jsonEat_guarded Atoi c : guarded (jsonEat Atoi c).
Proof.
  assert (H : guarded (jsonEatNoLog Atoi c))
    by (intros p; apply (eat_loop_guarded Atoi (redispatches p) c p)).
  unfold jsonEat. guarded_split.
Qed.

Lemma feed_guarded Atoi cs : guarded (feed Atoi cs).
Proof.
  induction cs as [|c cs IH]; simpl feed; [apply guarded_mret|].
  apply guarded_bind; [apply jsonEat_guarded | intros ?; exact IH].
Qed.

(** X9: parsing never touches the callback registrations.  Whatever is
    fed to a slot, errors and resets included, its seven callback
    members are afterwards what they were; [jsonReset] leaves them as
    well, and each registration function changes its own member only. *)
Theorem X9_callbacks_stay_registered Atoi cs p b :
  callbacks (exec (feed Atoi cs) p) = callbacks p
  /\ callbacks (exec jsonReset p) = callbacks p
  /\ callbacks (exec (jsonSetOnError b) p)
     = <[0%nat := b]> (callbacks p)
  /\ callbacks (exec (jsonSetOnObjectStart b) p)
     = <[1%nat := b]> (callbacks p)
  /\ callbacks (exec (jsonSetOnObjectComplete b) p)
     = <[2%nat := b]> (callbacks p)
  /\ callbacks (exec (jsonSetOnArrayStart b) p)
     = <[3%nat := b]> (callbacks p)
  /\ callbacks (exec (jsonSetOnArrayComplete b) p)
     = <[4%nat := b]> (callbacks p)
  /\ callbacks (exec (jsonSetOnString b) p)
     = <[5%nat := b]> (callbacks p)
  /\ callbacks (exec (jsonSetOnInteger b) p)
     = <[6%nat := b]> (callbacks p).
Proof.
  split; [apply feed_guarded|]. split; [apply jsonReset_guarded|].
  destruct p. repeat split; reflexivity.
Qed.

(** X13: a callback is invoked only if it is registered.  Every
    invocation made while any characters are fed to a slot goes through
    a callback member that was registered when feeding began; with no
    error callback registered, no error is ever reported. *)
Theorem X13_only_registered_callbacks_are_invoked Atoi cs p :
  Forall (fun e => event_callback e p = true) (emitted (feed Atoi cs) p)
  /\ (onError p = false ->
      forall err msg context, ~ In (EvError err msg context) (emitted (feed Atoi cs) p)).
Proof.
  destruct (feed_guarded Atoi cs p) as [_ H].
  split; [exact H|].
  intros Hoff err msg context Hin.
  rewrite Forall_forall in H. apply list_elem_of_In in Hin.
  specialize (H _ Hin). cbn in H. congruence.
Qed.

(** ** Switching composed *)

(** X10: with two slots, [jsonSelectPrev] after [jsonSelectNext] always
    ends on the first slot and [jsonSelectNext] after [jsonSelectPrev]
    always ends on the second; so stepping forward and back restores the
    active slot only when the first slot was active.  The failed step of
    such a pair prints its message once and the other step prints
    nothing. *)
Theorem X10_next_then_prev g :
  parser (jsonSelectPrev (jsonSelectNext g)) = 0
  /\ parser (jsonSelectNext (jsonSelectPrev g)) = 1
  /\ printed (jsonSelectPrev (jsonSelectNext g))
     = (if jsonGetSelected g =? 0 then printed g
        else printed g ++ [("Error: parser overflow" ++ newline)%string])
  /\ printed (jsonSelectNext (jsonSelectPrev g))
     = (if jsonGetSelected g =? 0
        then printed g ++ [("Error: parser underflow" ++ newline)%string]
        else printed g)
  /\ parserData (jsonSelectPrev (jsonSelectNext g)) = parserData g
  /\ parserData (jsonSelectNext (jsonSelectPrev g)) = parserData g.
Proof.
  destruct g as [d i pr].
  destruct (jsonGetSelected_cases (mkPool d i pr))
    as [[Hp Hs]|[[Hp Hs]|(Hp0 & Hp1 & Hs)]]; cbn [parser] in *.
  - subst i. repeat split; reflexivity.
  - subst i. repeat split; reflexivity.
  - assert (Hs' : forall pr', jsonGetSelected (mkPool d i pr') = 0)
      by (intros pr'; rewrite <- Hs; reflexivity).
    assert (Hn : forall pr', jsonSelectNext (mkPool d i pr') = mkPool d 1 pr')
      by (intros pr'; unfold jsonSelectNext; rewrite Hs'; reflexivity).
    assert (Hv : jsonSelectPrev (mkPool d i pr)
                 = mkPool d i (pr ++ [("Error: parser underflow" ++ newline)%string]))
      by (unfold jsonSelectPrev; rewrite Hs; reflexivity).
    rewrite Hv, !Hn, Hs. repeat split; reflexivity.
Qed.

(** ** Slots parse independently *)

(** X11: the two slots do not interfere.  A document begun on the first
    slot, interrupted by any input to the second slot and resumed on the
    first, produces on the first slot exactly the invocations and the
    final state of feeding its two parts in one piece, the second slot
    those of its own input, and the switching prints nothing. *)
Theorem X11_slots_parse_independently Atoi cs1 cs2 cs3 g p0 p1 :
  parserData g = [p0; p1] -> parser g = 0 ->
  let r1 := feed_selected Atoi cs1 (g, []) in
  let r2 := feed_selected Atoi cs2 (jsonSelectNext (fst r1), snd r1) in
  let r3 := feed_selected Atoi cs3 (jsonSelectPrev (fst r2), snd r2) in
  snd r3
  = emitted (feed Atoi cs1) p0 ++ emitted (feed Atoi cs2) p1
    ++ emitted (feed Atoi cs3) (exec (feed Atoi cs1) p0)
  /\ parserData (fst r3) = [exec (feed Atoi (cs1 ++ cs3)) p0; exec (feed Atoi cs2) p1]
  /\ emitted (feed Atoi (cs1 ++ cs3)) p0
     = emitted (feed Atoi cs1) p0 ++ emitted (feed Atoi cs3) (exec (feed Atoi cs1) p0)
  /\ parser (fst r3) = 0
  /\ printed (fst r3) = printed g.
Proof.
  destruct g as [d i pr]. cbn [parserData parser printed]. intros -> ->.
  cbn zeta. rewrite feed_app_exec, feed_app_emitted.
  repeat split; try reflexivity.
  unfold feed_selected, on_parser. cbn. rewrite <- app_assoc. reflexivity.
Qed.

Lemma X11_slots_parse_independently_witness :
  let r1 := feed_selected Atoi_decimal (json "{'a':") (pool_ready, []) in
  let r2 := feed_selected Atoi_decimal (json "{'b':2}")
              (jsonSelectNext (fst r1), snd r1) in
  let r3 := feed_selected Atoi_decimal (json "1}") (jsonSelectPrev (fst r2), snd r2) in
  snd r3
  = emitted (feed Atoi_decimal (json "{'a':")) fresh
    ++ emitted (feed Atoi_decimal (json "{'b':2}")) fresh
    ++ emitted (feed Atoi_decimal (json "1}")) (exec (feed Atoi_decimal (json "{'a':")) fresh).
Proof.
  exact (proj1 (X11_slots_parse_independently Atoi_decimal
                  (json "{'a':") (json "{'b':2}") (json "1}")
                  pool_ready fresh fresh eq_refl eq_refl)).
Defined.

(** ** Integer values *)

Lemma literal_char c :
  isNum c || isSign c = true ->
  c <> NUL /\ Ascii.eqb c dquote = false /\ isWhiteSpace c = false.
Proof.
  destruct c as [[] [] [] [] [] [] [] []]; vm_compute; intros H;
    first [discriminate H | split; [discriminate | split; reflexivity]].
Qed.

(** In [STATE_TOVALUE] a digit or a sign starts a number. *)
Lemma eat_literal_start Atoi c p :
  wf p -> state p = STATE_TOVALUE -> isNum c || isSign c = true ->
  holds (chars p) (value_at (stack p)) [] ->
  exists m1 ei1 nc1,
    jsonEat Atoi c p = (tt, set_state STATE_INNUM (relog m1 ei1 nc1 p), [])
    /\ length m1 = length (chars p)
    /\ 0 <= ei1 < MAXERRORBUFFER
    /\ holds m1 (value_at (stack p)) [c]
    /\ (forall off t, holds (chars p) off t -> (off + length t < value_at (stack p))%nat ->
                      holds m1 off t).
Proof.
  intros Hwf Hst Hc Hs.
  destruct (jsonEat_logs Atoi c p Hwf) as (m0 & ei0 & nc0 & Heq & Hl0 & He0 & Hrows & _).
  destruct (literal_char c Hc) as (Hnul & Hdq & Hws).
  destruct Hwf as [Hws' Hwc Hwi Hwk Hwe].
  pose proof (value_at_bounds _ Hwk) as Hvb.
  change (Z.to_nat _) with 970%nat in Hwc.
  assert (Hs0 : holds m0 (value_at (stack p)) [])
    by (apply Hrows; [exact Hs | cbn [length]; lia]).
  destruct p as [st sts si ac sl sk m ei nc e1 e2 e3 e4 e5 e6 e7]. cbn in *. subst st.
  exists (<[(value_at sk + 1)%nat := NUL]> (<[(value_at sk + 0)%nat := c]> m0)), ei0, nc0.
  split; [|split; [|split; [|split]]].
  - rewrite Heq. apply eat_done. unfold relog. run_h.
    rewrite Hdq, Hc. run_h.
    rewrite (appendValue_ok c _ []) by (cbn; first [assumption | lia]).
    reflexivity.
  - rewrite !length_insert. exact Hl0.
  - exact He0.
  - apply (holds_append _ _ [] c); [exact Hs0 | exact Hnul | cbn [length]; lia].
  - intros off t Ht Hoff. apply holds_poke_other; [|lia].
    apply holds_poke_other; [|lia]. apply Hrows; [exact Ht | lia].
Qed.

(** In [STATE_INNUM] a digit is appended to the value. *)
Lemma eat_digit Atoi c p s :
  wf p -> state p = STATE_INNUM -> isNum c = true ->
  holds (chars p) (value_at (stack p)) s -> (length s < 160)%nat ->
  exists m1 ei1 nc1,
    jsonEat Atoi c p = (tt, relog m1 ei1 nc1 p, [])
    /\ length m1 = length (chars p)
    /\ 0 <= ei1 < MAXERRORBUFFER
    /\ holds m1 (value_at (stack p)) (s ++ [c])
    /\ (forall off t, holds (chars p) off t -> (off + length t < value_at (stack p))%nat ->
                      holds m1 off t).
Proof.
  intros Hwf Hst Hc Hs Hlen.
  destruct (jsonEat_logs Atoi c p Hwf) as (m0 & ei0 & nc0 & Heq & Hl0 & He0 & Hrows & _).
  destruct (literal_char c ltac:(rewrite Hc; reflexivity)) as (Hnul & _ & _).
  destruct Hwf as [Hws Hwc Hwi Hwk Hwe].
  pose proof (value_at_bounds _ Hwk) as Hvb.
  change (Z.to_nat _) with 970%nat in Hwc.
  assert (Hs0 : holds m0 (value_at (stack p)) s) by (apply Hrows; [exact Hs | lia]).
  destruct p as [st sts si ac sl sk m ei nc e1 e2 e3 e4 e5 e6 e7]. cbn in *. subst st.
  exists (<[(value_at sk + S (length s))%nat := NUL]>
            (<[(value_at sk + length s)%nat := c]> m0)), ei0, nc0.
  split; [|split; [|split; [|split]]].
  - rewrite Heq. apply eat_done. unfold relog. run_h.
    rewrite Hc. run_h. rewrite (appendValue_ok c _ s) by assumption. reflexivity.
  - rewrite !length_insert. exact Hl0.
  - exact He0.
  - apply holds_append; [exact Hs0 | exact Hnul | lia].
  - intros off t Ht Hoff. apply holds_poke_other; [|lia].
    apply holds_poke_other; [|lia]. apply Hrows; [exact Ht | lia].
Qed.

Lemma feed_digits Atoi ds : forall p s,
  wf p -> state p = STATE_INNUM -> Forall (fun d => isNum d = true) ds ->
  holds (chars p) (value_at (stack p)) s ->
  (length s + length ds <= 160)%nat ->
  exists m1 ei1 nc1,
    feed Atoi ds p = (tt, relog m1 ei1 nc1 p, [])
    /\ length m1 = length (chars p)
    /\ 0 <= ei1 < MAXERRORBUFFER
    /\ holds m1 (value_at (stack p)) (s ++ ds)
    /\ (forall off t, holds (chars p) off t -> (off + length t < value_at (stack p))%nat ->
                      holds m1 off t).
Proof.
  induction ds as [|d ds IH]; intros p s Hwf Hst Hok Hs Hlen.
  - exists (chars p), (errbufIndex p), (numchars p).
    rewrite app_nil_r. destruct Hwf. destruct p. cbn in *. auto.
  - inversion Hok as [|? ? Hd Hok']; subst. cbn [length] in Hlen.
    destruct (eat_digit Atoi d p s Hwf Hst Hd Hs ltac:(lia))
      as (m1 & ei1 & nc1 & Heq & Hl1 & He1 & Hs1 & Hf1).
    pose proof (wf_relog p m1 ei1 nc1 Hwf Hl1 He1) as Hwf1.
    destruct (IH (relog m1 ei1 nc1 p) (s ++ [d]) Hwf1) as
      (m2 & ei2 & nc2 & Heq2 & Hl2 & He2 & Hs2 & Hf2).
    + destruct p; exact Hst.
    + exact Hok'.
    + destruct p; exact Hs1.
    + rewrite length_app. cbn [length]. lia.
    + exists m2, ei2, nc2. rewrite (feed_cons_run _ _ _ _ _ Heq), Heq2.
      split; [reflexivity|]. split; [|split; [exact He2|split]].
      * rewrite Hl2. destruct p; exact Hl1.
      * rewrite <- app_assoc in Hs2. destruct p; exact Hs2.
      * intros off t Ht Hoff.
        assert (Ht1 : holds m1 off t) by (apply Hf1; assumption).
        destruct p; apply Hf2; assumption.
Qed.

(** X8: an integer value is delivered as written.  Where a value is
    expected, a digit or a sign followed by digits, fewer than [MAXVALUE]
    characters in all, invokes no callback while it is read; the first
    character that is not a digit ends it, and the integer callback then
    receives, before anything that character itself causes, the name on
    top of the name stack and the conversion of exactly the characters
    written, the sign included. *)
Theorem X8_integer_literal_delivered Atoi c ds t p nm :
  wf p -> state p = STATE_TOVALUE -> onInteger p = true ->
  isNum c || isSign c = true -> Forall (fun d => isNum d = true) ds ->
  (S (length ds) < 160)%nat -> isNum t = false ->
  holds (chars p) (name_at (stack p)) nm -> (length nm <= 30)%nat ->
  holds (chars p) (value_at (stack p)) [] ->
  emitted (feed Atoi (c :: ds)) p = []
  /\ exists rest,
       emitted (jsonEat Atoi t) (exec (feed Atoi (c :: ds)) p)
       = EvInteger (str nm) (Atoi (c :: ds)) :: rest.
Proof.
  intros Hwf Hst Hon Hc Hds Hlen Ht Hnm Hnl Hv.
  pose proof (wf_stack _ Hwf) as Hwk.
  pose proof (name_at_bounds _ Hwk) as Hnb.
  pose proof (value_at_bounds _ Hwk) as Hvb.
  destruct (eat_literal_start Atoi c p Hwf Hst Hc Hv)
    as (m1 & ei1 & nc1 & Heq1 & Hl1 & He1 & Hs1 & Hf1).
  pose proof (wf_relog p m1 ei1 nc1 Hwf Hl1 He1) as Hwf1.
  assert (Hn1 : holds m1 (name_at (stack p)) nm).
  { apply Hf1; [exact Hnm|]. unfold value_at, name_at, MAXNAME, MAXSTACK, MAXVALUE in *. lia. }
  destruct p as [st sts si ac sl sk m ei nc e1 e2 e3 e4 e5 e6 e7].
  cbn [state stack chars onInteger] in *. subst st e7.
  unfold relog in *.
  cbn [set_state set_chars set_errbufIndex set_numchars state states stateIndex allowComma
         isSlash stack chars errbufIndex numchars onError onObjectStart
         onObjectComplete onArrayStart onArrayComplete onString onInteger] in *.
  set (P1 := mkParser STATE_INNUM sts si ac sl sk m1 ei1 nc1 e1 e2 e3 e4 e5 e6 true) in *.
  assert (HwfP1 : wf P1) by (destruct Hwf1; constructor; assumption).
  destruct (feed_digits Atoi ds P1 [c] HwfP1 eq_refl Hds Hs1 ltac:(cbn [length]; lia))
    as (m2 & ei2 & nc2 & Heq2 & Hl2 & He2 & Hs2 & Hf2).
  assert (Hn2 : holds m2 (name_at sk) nm).
  { apply Hf2; [exact Hn1|]. unfold P1. cbn [stack].
    unfold value_at, name_at, MAXNAME, MAXSTACK, MAXVALUE in *. lia. }
  pose proof (wf_relog P1 m2 ei2 nc2 HwfP1 Hl2 He2) as Hwf2.
  unfold P1, relog in Heq2, Hs2, Hwf2.
  cbn [set_state set_chars set_errbufIndex set_numchars state states stateIndex allowComma
         isSlash stack chars errbufIndex numchars onError onObjectStart
         onObjectComplete onArrayStart onArrayComplete onString onInteger] in Heq2, Hs2, Hwf2.
  assert (Hrun : feed Atoi (c :: ds)
                   (mkParser STATE_TOVALUE sts si ac sl sk m ei nc e1 e2 e3 e4 e5 e6 true)
                 = (tt, mkParser STATE_INNUM sts si ac sl sk m2 ei2 nc2
                          e1 e2 e3 e4 e5 e6 true, [])).
  { rewrite (feed_cons_run _ _ _ _ _ Heq1). exact Heq2. }
  destruct (result_parts _ _ _ _ _ Hrun) as [-> ->].
  split; [reflexivity|].
  set (P2 := mkParser STATE_INNUM sts si ac sl sk m2 ei2 nc2 e1 e2 e3 e4 e5 e6 true) in *.
  destruct (jsonEat_logs Atoi t P2 Hwf2) as (m3 & ei3 & nc3 & Heq3 & Hl3 & He3 & Hrows3 & _).
  assert (Hs3 : holds m3 (value_at sk) (c :: ds)).
  { apply Hrows3; [exact Hs2|]. cbn [length].
    unfold value_at, name_at, MAXNAME, MAXSTACK, MAXVALUE in *. lia. }
  assert (Hn3 : holds m3 (name_at sk) nm).
  { apply Hrows3; [exact Hn2|].
    unfold value_at, name_at, MAXNAME, MAXSTACK, MAXVALUE in *. lia. }
  unfold P2, relog in Heq3.
  cbn [set_state set_chars set_errbufIndex set_numchars state states stateIndex allowComma
         isSlash stack chars errbufIndex numchars onError onObjectStart
         onObjectComplete onArrayStart onArrayComplete onString onInteger] in Heq3.
  destruct (jsonEatNoLog Atoi t
              (mkParser STATE_OUTVALUE sts si ac sl sk m3 ei3 nc3 e1 e2 e3 e4 e5 e6 true))
    as [[[] q] rest] eqn:Enext.
  exists rest. unfold emitted, P2. rewrite Heq3. unfold relog.
  cbv beta iota delta [set_chars set_errbufIndex set_numchars state states stateIndex
         allowComma isSlash stack chars errbufIndex numchars onError onObjectStart
         onObjectComplete onArrayStart onArrayComplete onString onInteger].
  assert (D : dispatch Atoi t
                (mkParser STATE_INNUM sts si ac sl sk m3 ei3 nc3 e1 e2 e3 e4 e5 e6 true)
              = (true,
                 mkParser STATE_OUTVALUE sts si ac sl sk m3 ei3 nc3
                   e1 e2 e3 e4 e5 e6 true,
                 [EvInteger (str nm) (Atoi (c :: ds))])).
  { run_h. rewrite Ht. run_h.
    rewrite (holds_as_string _ _ _ Hn3), (holds_c_str _ _ _ Hs3). reflexivity. }
  rewrite (eat_again _ _ _ _ _ _ _ D Enext). reflexivity.
Qed.

Lemma X8_integer_literal_delivered_witness :
  emitted (feed Atoi_decimal (json "-12")) (exec (feed Atoi_decimal (json "{'a':")) fresh)
  = []
  /\ exists rest,
       emitted (jsonEat Atoi_decimal "}")
         (exec (feed Atoi_decimal (json "-12"))
            (exec (feed Atoi_decimal (json "{'a':")) fresh))
       = EvInteger "a" (-12) :: rest.
Proof.
  apply (X8_integer_literal_delivered Atoi_decimal "-" ["1"; "2"]%char "}"
           (exec (feed Atoi_decimal (json "{'a':")) fresh) ["a"%char]).
  - constructor; vm_compute; first [reflexivity | split; [discriminate | reflexivity]].
  - vm_compute. reflexivity.
  - vm_compute. reflexivity.
  - reflexivity.
  - repeat constructor.
  - cbn [length]. lia.
  - reflexivity.
  - split; [vm_compute; reflexivity | repeat constructor; discriminate].
  - cbn [length]. lia.
  - split; [vm_compute; reflexivity | constructor].
Defined.

(** ** A field with a string value, at any depth *)

(** The next character of a run [Hrun : feed Atoi (c :: l) P = r] on an
    explicitly given record, in two steps as [eat_log] and [eat_run]. *)
Ltac run_log Atoi Hrun Hl m ei nc Hl' He' Hrows Heq :=
  lazymatch type of Hrun with
  | feed Atoi (?c :: ?l) ?P = _ =>
      let Hwf := fresh "Hwf" in
      assert (Hwf : wf P) by wf_record Hl;
      destruct (jsonEat_logs Atoi c P Hwf)
        as (m & ei & nc & Heq & Hl' & He' & Hrows & _);
      unfold relog in Heq, Hl', Hrows;
      cbn [set_chars set_errbufIndex set_numchars state states stateIndex
             allowComma isSlash stack chars errbufIndex numchars onError
             onObjectStart onObjectComplete onArrayStart onArrayComplete
             onString onInteger] in Heq, Hl', Hrows;
      rewrite ?length_insert in Hl'; rewrite Hl in Hl';
      clear Hwf
  end.

Ltac run_quiet Atoi Hrun Heq :=
  lazymatch type of Hrun with
  | feed Atoi (?c :: ?l) ?P = _ =>
      let E := fresh "E" in
      eassert (E : jsonEat Atoi c P = (tt, _, []));
      [ rewrite Heq; apply eat_done; run_concrete; reflexivity
      | rewrite (feed_cons_run _ _ _ _ _ E) in Hrun; clear Heq E ]
  end.

Ltac setters_in H :=
  unfold relog in H;
  cbv beta iota delta [set_state set_chars set_errbufIndex set_numchars set_isSlash state states
         stateIndex allowComma isSlash stack chars errbufIndex numchars onError
         onObjectStart onObjectComplete onArrayStart onArrayComplete
         onString onInteger] in H.

(** A name, its closing quote, a colon and a quoted text, after the
    opening quote of the name. *)
Lemma feed_field_body Atoi nm xs p :
  wf p -> state p = STATE_INNAME -> onString p = true ->
  holds (chars p) (name_at (stack p)) [] ->
  Forall (fun c => isValidNameChar c = true) nm -> (length nm <= 30)%nat ->
  Forall piece_ok xs -> (length (text xs) < 160)%nat ->
  exists m1 ei1 nc1,
    feed Atoi (nm ++ dquote :: ":"%char :: dquote :: text xs ++ [dquote]) p
    = (tt, set_state STATE_OUTVALUE (set_isSlash 0 (relog m1 ei1 nc1 p)),
       [EvString (str nm) (str (text xs))])
    /\ length m1 = length (chars p)
    /\ 0 <= ei1 < MAXERRORBUFFER
    /\ (forall off t, holds (chars p) off t -> (off + length t < name_at (stack p))%nat ->
                      holds m1 off t).
Proof.
  intros Hwf Hst Hon Hn1 Hnm Hnl Hxs Hxl.
  destruct (feed Atoi _ p) as [[[] q] ev] eqn:Hrun.
  destruct (feed_name Atoi nm p [] Hwf Hst Hnm Hn1 ltac:(cbn [length]; lia))
    as (m2 & ei2 & nc2 & Heq2 & Hl2 & He2 & Hn2 & Hf2).
  rewrite (feed_app_run _ _ _ _ _ Heq2) in Hrun. clear Heq2.
  destruct Hwf as [Hws Hwc Hwi Hwk Hwe].
  pose proof (name_at_bounds _ Hwk) as Hnb.
  pose proof (value_at_bounds _ Hwk) as Hvb.
  destruct p as [st sts si ac sl sk m ei nc e1 e2 e3 e4 e5 e6 e7].
  cbn [state states stateIndex stack chars errbufIndex onString app] in *. subst st e6.
  change (Z.to_nat _) with 970%nat in Hwc.
  change (Z.to_nat MAXSTATES) with 10%nat in Hws.
  rewrite Hwc in Hl2. setters_in Hrun.
  (* the closing quote of the name *)
  run_log Atoi Hrun Hl2 m3 ei3 nc3 Hl3 He3 Hrows3 Heq.
  run_quiet Atoi Hrun Heq.
  (* the colon *)
  run_log Atoi Hrun Hl3 m4 ei4 nc4 Hl4 He4 Hrows4 Heq.
  run_quiet Atoi Hrun Heq.
  (* the opening quote of the text *)
  run_log Atoi Hrun Hl4 m5 ei5 nc5 Hl5 He5 Hrows5 Heq.
  run_quiet Atoi Hrun Heq.
  (* the text *)
  assert (Hn5 : holds m5 (name_at sk) nm).
  { apply Hrows5; [|offsets]. apply holds_poke_other; [|offsets].
    apply Hrows4; [|offsets]. apply Hrows3; [exact Hn2 | offsets]. }
  assert (Hv5 : holds m5 (value_at sk) []).
  { apply Hrows5; [|cbn [length]; lia]. apply holds_nil. lia. }
  match type of Hrun with feed _ _ ?P = _ => set (P5 := P) in Hrun end.
  assert (HwfP5 : wf P5) by (unfold P5; wf_record Hl5).
  destruct (feed_string_body Atoi xs P5 [] HwfP5 eq_refl eq_refl Hxs Hv5
              ltac:(cbn [length]; lia))
    as (m6 & ei6 & nc6 & Heq6 & Hl6 & He6 & Hv6 & Hf6).
  rewrite (feed_app_run _ _ _ _ _ Heq6) in Hrun. clear Heq6.
  unfold P5 in Hrun, Hl6, Hv6, Hf6. setters_in Hrun.
  cbn [chars stack app] in Hl6, Hv6, Hf6. rewrite Hl5 in Hl6. clear HwfP5 P5.
  assert (Hn6 : holds m6 (name_at sk) nm) by (apply Hf6; [exact Hn5 | offsets]).
  (* the closing quote of the text *)
  run_log Atoi Hrun Hl6 m7 ei7 nc7 Hl7 He7 Hrows7 Heq.
  assert (Hn7 : holds m7 (name_at sk) nm) by (apply Hrows7; [exact Hn6 | offsets]).
  assert (Hv7 : holds m7 (value_at sk) (text xs)) by (apply Hrows7; [exact Hv6 | offsets]).
  assert (E : jsonEat Atoi dquote
                (mkParser STATE_INSTRING sts si ac 0 sk m6 ei6 nc6 e1 e2 e3 e4 e5 true e7)
              = (tt,
                 mkParser STATE_OUTVALUE sts si ac 0 sk m7 ei7 nc7 e1 e2 e3 e4 e5 true e7,
                 [EvString (str nm) (str (text xs))])).
  { rewrite Heq. apply eat_done. run_concrete.
    rewrite (holds_as_string _ _ _ Hn7), (holds_as_string _ _ _ Hv7). reflexivity. }
  simpl feed in Hrun. unfold mbind, mret, M_bind, M_ret, bind, ret in Hrun.
  rewrite E in Hrun. cbn [fst snd app] in Hrun. injection Hrun as <- <-.
  exists m7, ei7, nc7. split; [reflexivity|]. split; [congruence|]. split; [exact He7|].
  intros off t Ht Hoff.
  apply Hrows7; [|offsets]. apply Hf6; [|offsets]. apply Hrows5; [|offsets].
  apply holds_poke_other; [|offsets]. apply Hrows4; [|offsets]. apply Hrows3; [|offsets].
  apply Hf2; [exact Ht | exact Hoff].
Qed.

(** The same after the opening quote has been dispatched: [p1] is the
    slot in [STATE_INNAME] with an empty name on top of the name
    stack. *)
Lemma feed_field_after_quote Atoi nm xs p p1 m0 :
  jsonEat Atoi dquote p = (tt, p1, []) ->
  wf p1 -> state p1 = STATE_INNAME -> onString p1 = true ->
  stack p1 = stack p ->
  chars p1 = <[name_at (stack p) := NUL]> m0 -> length m0 = length (chars p) ->
  (forall off t, holds (chars p) off t -> (off + length t < 950)%nat -> holds m0 off t) ->
  Forall (fun c => isValidNameChar c = true) nm -> (length nm <= 30)%nat ->
  Forall piece_ok xs -> (length (text xs) < 160)%nat ->
  exists m1 ei1 nc1,
    feed Atoi (dquote :: nm ++ dquote :: ":"%char :: dquote :: text xs ++ [dquote]) p
    = (tt, set_state STATE_OUTVALUE (set_isSlash 0 (relog m1 ei1 nc1 p1)),
       [EvString (str nm) (str (text xs))])
    /\ length m1 = length (chars p)
    /\ 0 <= ei1 < MAXERRORBUFFER
    /\ (forall off t, holds (chars p) off t -> (off + length t < name_at (stack p))%nat ->
                      holds m1 off t).
Proof.
  intros Heq Hwf1 Hst1 Hon1 Hsk Hch Hl0 Hrows0 Hnm Hnl Hxs Hxl.
  pose proof (wf_stack _ Hwf1) as Hwk. rewrite Hsk in Hwk.
  pose proof (name_at_bounds _ Hwk) as Hnb.
  pose proof (wf_chars _ Hwf1) as Hwc. change (Z.to_nat _) with 970%nat in Hwc.
  rewrite Hch, length_insert in Hwc.
  assert (Hn1 : holds (chars p1) (name_at (stack p1)) []).
  { rewrite Hch, Hsk. apply holds_nil. lia. }
  destruct (feed_field_body Atoi nm xs p1 Hwf1 Hst1 Hon1 Hn1 Hnm Hnl Hxs Hxl)
    as (m1 & ei1 & nc1 & Hrun & Hl1 & He1 & Hrows1).
  exists m1, ei1, nc1.
  rewrite (feed_cons_run _ _ _ _ _ Heq), Hrun.
  split; [reflexivity|]. split; [|split; [exact He1|]].
  - rewrite Hl1, Hch, length_insert. exact Hl0.
  - intros off t Ht Hoff. apply Hrows1; [|rewrite Hsk; exact Hoff].
    rewrite Hch. apply holds_poke_other; [|lia]. apply Hrows0; [exact Ht | lia].
Qed.

(** A quoted name, a colon and a quoted text, where a name is expected. *)
Lemma feed_string_field Atoi nm xs p :
  wf p -> state p = STATE_TONAME -> onString p = true ->
  Forall (fun c => isValidNameChar c = true) nm -> (length nm <= 30)%nat ->
  Forall piece_ok xs -> (length (text xs) < 160)%nat ->
  exists m1 ei1 nc1,
    feed Atoi (dquote :: nm ++ dquote :: ":"%char :: dquote :: text xs ++ [dquote]) p
    = (tt, set_state STATE_OUTVALUE (set_isSlash 0 (relog m1 ei1 nc1 p)),
       [EvString (str nm) (str (text xs))])
    /\ length m1 = length (chars p)
    /\ 0 <= ei1 < MAXERRORBUFFER
    /\ (forall off t, holds (chars p) off t -> (off + length t < name_at (stack p))%nat ->
                      holds m1 off t).
Proof.
  intros Hwf Hst Hon Hnm Hnl Hxs Hxl.
  destruct (jsonEat_logs Atoi dquote p Hwf)
    as (m0 & ei0 & nc0 & Heq & Hl0 & He0 & Hrows0 & _).
  pose proof (wf_relog p m0 ei0 nc0 Hwf Hl0 He0) as Hwf0.
  destruct p as [st sts si ac sl sk m ei nc e1 e2 e3 e4 e5 e6 e7].
  cbn [state stack chars onString] in *. subst st e6.
  unfold relog in Heq, Hwf0.
  cbv beta iota delta [set_chars set_errbufIndex set_numchars state states stateIndex
    allowComma isSlash stack chars errbufIndex numchars onError onObjectStart
    onObjectComplete onArrayStart onArrayComplete onString onInteger] in Heq, Hwf0.
  assert (E : jsonEat Atoi dquote
                (mkParser STATE_TONAME sts si ac sl sk m ei nc e1 e2 e3 e4 e5 true e7)
              = (tt,
                 mkParser STATE_INNAME sts si ac sl sk (<[name_at sk := NUL]> m0) ei0 nc0
                   e1 e2 e3 e4 e5 true e7, [])).
  { rewrite Heq. apply eat_done. run_concrete. reflexivity. }
  destruct (feed_field_after_quote Atoi nm xs _ _ m0 E) as (m1 & ei1 & nc1 & H);
    try assumption; try reflexivity.
  - destruct Hwf0 as [H1 H2 H3 H4 H5]. constructor; try assumption.
    cbn [chars] in *. rewrite length_insert. exact H2.
  - exists m1, ei1, nc1. exact H.
Qed.

(** Where a quote begins a name by pushing the state: in Idle, and in
    InObject and InArray, where the parser is after a nested container
    has closed. *)
Lemma feed_pushed_field Atoi nm xs p :
  wf p ->
  state p = STATE_NONE \/ state p = STATE_INOBJECT \/ state p = STATE_INARRAY ->
  stateIndex p + 1 < MAXSTATES -> onString p = true ->
  Forall (fun c => isValidNameChar c = true) nm -> (length nm <= 30)%nat ->
  Forall piece_ok xs -> (length (text xs) < 160)%nat ->
  exists m1 ei1 nc1,
    feed Atoi (dquote :: nm ++ dquote :: ":"%char :: dquote :: text xs ++ [dquote]) p
    = (tt,
       set_state STATE_OUTVALUE
         (set_isSlash 0 (pushed STATE_INNAME (relog m1 ei1 nc1 p))),
       [EvString (str nm) (str (text xs))])
    /\ length m1 = length (chars p)
    /\ 0 <= ei1 < MAXERRORBUFFER
    /\ (forall off t, holds (chars p) off t -> (off + length t < name_at (stack p))%nat ->
                      holds m1 off t).
Proof.
  intros Hwf Hst Hsi Hon Hnm Hnl Hxs Hxl.
  destruct (jsonEat_logs Atoi dquote p Hwf)
    as (m0 & ei0 & nc0 & Heq & Hl0 & He0 & Hrows0 & _).
  pose proof (wf_relog p m0 ei0 nc0 Hwf Hl0 He0) as Hwf0.
  destruct p as [st sts si ac sl sk m ei nc e1 e2 e3 e4 e5 e6 e7].
  cbn [state stateIndex stack chars onString] in *. subst e6.
  unfold relog in Heq, Hwf0.
  cbv beta iota delta [set_chars set_errbufIndex set_numchars state states stateIndex
    allowComma isSlash stack chars errbufIndex numchars onError onObjectStart
    onObjectComplete onArrayStart onArrayComplete onString onInteger] in Heq, Hwf0.
  assert (Hsi' : (si + 1 <? MAXSTATES) = true) by (apply Z.ltb_lt; exact Hsi).
  assert (E : jsonEat Atoi dquote
                (mkParser st sts si ac sl sk m ei nc e1 e2 e3 e4 e5 true e7)
              = (tt,
                 mkParser STATE_INNAME (<[Z.to_nat si := st]> sts) (si + 1) ac sl sk
                   (<[name_at sk := NUL]> m0) ei0 nc0 e1 e2 e3 e4 e5 true e7, [])).
  { rewrite Heq. apply eat_done.
    destruct Hst as [-> | [-> | ->]]; run_concrete; rewrite Hsi'; run_h; reflexivity. }
  destruct (feed_field_after_quote Atoi nm xs _ _ m0 E) as (m1 & ei1 & nc1 & H);
    try assumption; try reflexivity.
  - destruct Hwf0 as [H1 H2 H3 H4 H5]. cbn [states chars stateIndex stack errbufIndex] in *.
    constructor; cbn [states chars stateIndex stack errbufIndex];
      rewrite ?length_insert; try assumption. unfold MAXSTATES in *. lia.
  - exists m1, ei1, nc1. exact H.
Qed.

(** X14: a field with a string value is read the same at every depth.
    Where a name is expected, a quoted name of at most [MAXNAME] name
    characters, a colon and a quoted text of fewer than [MAXVALUE]
    characters (plain characters and the two escape sequences) invoke
    the string callback once, with the name and the text as written, and
    nothing else; the slot is then in AfterValue with both stacks as
    they were, and the names held below the top of the name stack are
    the same. *)
Theorem X14_string_field Atoi nm xs p :
  wf p -> state p = STATE_TONAME -> onString p = true ->
  Forall (fun c => isValidNameChar c = true) nm -> (length nm <= 30)%nat ->
  Forall piece_ok xs -> (length (text xs) < 160)%nat ->
  exists m1 ei1 nc1,
    feed Atoi (dquote :: nm ++ dquote :: ":"%char :: dquote :: text xs ++ [dquote]) p
    = (tt, set_state STATE_OUTVALUE (set_isSlash 0 (relog m1 ei1 nc1 p)),
       [EvString (str nm) (str (text xs))])
    /\ length m1 = length (chars p)
    /\ 0 <= ei1 < MAXERRORBUFFER
    /\ (forall off t, holds (chars p) off t -> (off + length t < name_at (stack p))%nat ->
                      holds m1 off t).
Proof. apply feed_string_field. Qed.

(** X18: a field may begin without a comma.  In Idle, and in InObject
    and InArray (the states a closed nested container leaves the parser
    in), a quote begins a name at once: the state is pushed on the state
    stack, and the quoted name, colon and quoted text that follow are
    delivered to the string callback exactly as a field inside braces;
    so a bare pair outside any object is accepted, and so is a field
    that follows a nested container with no comma in between. *)
Theorem X18_field_without_comma Atoi nm xs p :
  wf p ->
  state p = STATE_NONE \/ state p = STATE_INOBJECT \/ state p = STATE_INARRAY ->
  stateIndex p + 1 < MAXSTATES -> onString p = true ->
  Forall (fun c => isValidNameChar c = true) nm -> (length nm <= 30)%nat ->
  Forall piece_ok xs -> (length (text xs) < 160)%nat ->
  exists m1 ei1 nc1,
    feed Atoi (dquote :: nm ++ dquote :: ":"%char :: dquote :: text xs ++ [dquote]) p
    = (tt,
       set_state STATE_OUTVALUE
         (set_isSlash 0 (pushed STATE_INNAME (relog m1 ei1 nc1 p))),
       [EvString (str nm) (str (text xs))])
    /\ length m1 = length (chars p)
    /\ 0 <= ei1 < MAXERRORBUFFER
    /\ (forall off t, holds (chars p) off t -> (off + length t < name_at (stack p))%nat ->
                      holds m1 off t).
Proof. apply feed_pushed_field. Qed.

Lemma X18_field_without_comma_witness :
  exists m1 ei1 nc1,
    feed Atoi_decimal (json "'c':'x'")
      (exec (feed Atoi_decimal (json "{'a':{'b':1}")) fresh)
    = (tt,
       set_state STATE_OUTVALUE
         (set_isSlash 0
            (pushed STATE_INNAME
               (relog m1 ei1 nc1
                  (exec (feed Atoi_decimal (json "{'a':{'b':1}")) fresh)))),
       [EvString "c" "x"]).
Proof.
  destruct (X18_field_without_comma Atoi_decimal ["c"%char] [Plain "x"]
              (exec (feed Atoi_decimal (json "{'a':{'b':1}")) fresh))
    as (m1 & ei1 & nc1 & H & _).
  - constructor; vm_compute; first [reflexivity | split; [discriminate | reflexivity]].
  - right. left. vm_compute. reflexivity.
  - vm_compute. reflexivity.
  - vm_compute. reflexivity.
  - repeat constructor.
  - cbn [length]. lia.
  - repeat constructor; discriminate.
  - vm_compute. lia.
  - exists m1, ei1, nc1. exact H.
Defined.

Lemma X14_string_field_witness :
  exists m1 ei1 nc1,
    feed Atoi_decimal (json "'b':'x\'y'") (exec (feed Atoi_decimal (json "{'a':{")) fresh)
    = (tt,
       set_state STATE_OUTVALUE
         (set_isSlash 0
            (relog m1 ei1 nc1 (exec (feed Atoi_decimal (json "{'a':{")) fresh))),
       [EvString "b" (str (json "x\'y"))]).
Proof.
  destruct (X14_string_field Atoi_decimal ["b"%char]
              [Plain "x"; Escaped dquote; Plain "y"]
              (exec (feed Atoi_decimal (json "{'a':{")) fresh))
    as (m1 & ei1 & nc1 & H & _).
  - constructor; vm_compute; first [reflexivity | split; [discriminate | reflexivity]].
  - vm_compute. reflexivity.
  - vm_compute. reflexivity.
  - repeat constructor.
  - cbn [length]. lia.
  - repeat constructor; discriminate.
  - vm_compute. lia.
  - exists m1, ei1, nc1. exact H.
Defined.

(** ** Closing a container *)

(** In AfterValue a character that is neither white space nor a comma
    pops the state stack and is dispatched again; the entries the commas
    of the container pushed are popped one after the other without
    anything else happening. *)
Lemma unwind_commas Atoi c k : forall p b,
  state p = STATE_OUTVALUE -> isWhiteSpace c = false -> Ascii.eqb c "," = false ->
  0 <= b -> stateIndex p = b + 1 + Z.of_nat k ->
  (forall j, b < j < stateIndex p -> states p !! Z.to_nat j = Some STATE_OUTVALUE) ->
  jsonEatNoLog Atoi c p = jsonEatNoLog Atoi c (set_stateIndex (b + 1) p).
Proof.
  induction k as [|k IH]; intros p b Hst Hws Hc Hb Hsi Hs.
  - destruct p as [st sts si ac sl sk m ei nc e1 e2 e3 e4 e5 e6 e7].
    cbn [stateIndex] in Hsi.
    replace (b + 1 + Z.of_nat 0) with (b + 1) in Hsi by lia. subst si. reflexivity.
  - destruct p as [st sts si ac sl sk m ei nc e1 e2 e3 e4 e5 e6 e7].
    cbn [state stateIndex states] in *. subst st.
    assert (D : dispatch Atoi c
                  (mkParser STATE_OUTVALUE sts si ac sl sk m ei nc e1 e2 e3 e4 e5 e6 e7)
                = (true,
                   mkParser STATE_OUTVALUE sts (si - 1) ac sl sk m ei nc
                     e1 e2 e3 e4 e5 e6 e7, [])).
    { run_h. rewrite Hws, Hc. run_h.
      replace (0 <? si) with true by (symmetry; apply Z.ltb_lt; lia).
      run_h. rewrite (Hs (si - 1)) by lia. reflexivity. }
    rewrite jsonEatNoLog_unfold. unfold mbind, M_bind, bind. rewrite D.
    cbv beta iota zeta delta [fst snd].
    rewrite (IH (mkParser STATE_OUTVALUE sts (si - 1) ac sl sk m ei nc
                   e1 e2 e3 e4 e5 e6 e7) b eq_refl Hws Hc Hb); cbn [stateIndex states].
    + destruct (jsonEatNoLog Atoi c _) as [[[] q] ev]. reflexivity.
    + lia.
    + intros j Hj. apply Hs. lia.
Qed.

(** The closing character of a container, after the last value in
    it. *)
Lemma eat_close Atoi p s b k nm :
  wf p -> state p = STATE_OUTVALUE ->
  onObjectComplete p = true -> onArrayComplete p = true ->
  is_container s = true ->
  0 <= b -> stateIndex p = b + 1 + Z.of_nat k ->
  (forall j, b < j < stateIndex p -> states p !! Z.to_nat j = Some STATE_OUTVALUE) ->
  states p !! Z.to_nat b = Some s ->
  0 < stack p ->
  holds (chars p) (name_at (stack p - 1)) nm -> (length nm <= 30)%nat ->
  exists m1 ei1 nc1,
    jsonEat Atoi (closer s) p
    = (tt, exec upState (landed s b (relog m1 ei1 nc1 p)),
       closed_event s (str nm) :: emitted upState (landed s b (relog m1 ei1 nc1 p)))
    /\ length m1 = length (chars p)
    /\ 0 <= ei1 < MAXERRORBUFFER
    /\ (forall off t, holds (chars p) off t -> (off + length t < 950)%nat ->
                      holds m1 off t).
Proof.
  intros Hwf Hst Ho Ha Hcont Hb Hsi Hs Hsb Hk Hnm Hnl.
  destruct (jsonEat_logs Atoi (closer s) p Hwf)
    as (m1 & ei1 & nc1 & Heq & Hl1 & He1 & Hrows1 & _).
  exists m1, ei1, nc1. split; [|auto].
  assert (Hn1 : holds m1 (name_at (stack p - 1)) nm).
  { apply Hrows1; [exact Hnm|].
    pose proof (wf_stack _ Hwf). unfold name_at, MAXNAME, MAXSTACK in *. lia. }
  assert (Hcl : isWhiteSpace (closer s) = false /\ Ascii.eqb (closer s) "," = false)
    by (destruct s; split; reflexivity).
  destruct Hcl as [Hws Hc].
  rewrite Heq. clear Heq.
  rewrite (unwind_commas Atoi (closer s) k (relog m1 ei1 nc1 p) b);
    try assumption; try (destruct p; assumption).
  destruct p as [st sts si ac sl sk m ei nc e1 e2 e3 e4 e5 e6 e7].
  cbn [state states stateIndex stack chars onObjectComplete onArrayComplete] in *.
  subst st e3 e5. unfold landed, relog.
  cbv beta iota delta [set_state set_stateIndex set_stack set_allowComma set_chars
    set_errbufIndex set_numchars state states stateIndex allowComma isSlash stack
    chars errbufIndex numchars onError onObjectStart onObjectComplete onArrayStart
    onArrayComplete onString onInteger].
  apply Z.ltb_lt in Hk.
  assert (Hb1 : (0 <? b + 1) = true) by (apply Z.ltb_lt; lia).
  replace (Z.to_nat b) with (Z.to_nat (b + 1 - 1)) in Hsb by (f_equal; lia).
  unfold exec, emitted.
  destruct (upState (mkParser s sts b 1 sl (sk - 1) m1 ei1 nc1 e1 e2 true e4 true e6 e7))
    as [[[] q] ev] eqn:Eup.
  cbn [fst snd].
  change (closed_event s (str nm) :: ev) with ([] ++ closed_event s (str nm) :: ev).
  destruct s; try discriminate Hcont; cbn [closer closed_event].
  - eapply eat_again.
    + run_concrete. rewrite Hb1. run_h. rewrite Hsb. cbn [from_option id]. run_h.
      rewrite Hk. run_h. reflexivity.
    + replace (b + 1 - 1) with b by lia.
      apply eat_done. unfold dispatch. run_m. eval_tests. run_m. rewrite Eup. run_m.
      unfold name_arg, name. cbn [stack chars].
      rewrite (holds_as_string _ _ _ Hn1), app_nil_r. reflexivity.
  - eapply eat_again.
    + run_concrete. rewrite Hb1. run_h. rewrite Hsb. cbn [from_option id]. run_h.
      rewrite Hk. run_h. reflexivity.
    + replace (b + 1 - 1) with b by lia.
      apply eat_done. unfold dispatch. run_m. eval_tests. run_m. rewrite Eup. run_m.
      unfold name_arg, name. cbn [stack chars].
      rewrite (holds_as_string _ _ _ Hn1), app_nil_r. reflexivity.
Qed.

(** X15: the closing brace or bracket after the last value of a
    container.  The state-stack entries pushed by the commas of the
    container are popped without a callback; the pop that lands in the
    saved container state takes one name off the name stack and sets the
    comma flag; the completion callback then receives the name that is
    now on top; and one more pop follows, whose outcome depends on the
    state saved below. *)
Theorem X15_closing_unwinds Atoi p s b k nm :
  wf p -> state p = STATE_OUTVALUE ->
  onObjectComplete p = true -> onArrayComplete p = true ->
  is_container s = true ->
  0 <= b -> stateIndex p = b + 1 + Z.of_nat k ->
  (forall j, b < j < stateIndex p -> states p !! Z.to_nat j = Some STATE_OUTVALUE) ->
  states p !! Z.to_nat b = Some s ->
  0 < stack p ->
  holds (chars p) (name_at (stack p - 1)) nm -> (length nm <= 30)%nat ->
  exists m1 ei1 nc1,
    jsonEat Atoi (closer s) p
    = (tt, exec upState (landed s b (relog m1 ei1 nc1 p)),
       closed_event s (str nm) :: emitted upState (landed s b (relog m1 ei1 nc1 p)))
    /\ length m1 = length (chars p)
    /\ 0 <= ei1 < MAXERRORBUFFER
    /\ (forall off t, holds (chars p) off t -> (off + length t < 950)%nat ->
                      holds m1 off t).
Proof. apply eat_close. Qed.

Lemma X15_closing_unwinds_witness :
  exists m1 ei1 nc1,
    jsonEat Atoi_decimal "}" (exec (feed Atoi_decimal (json "{'a':'x','b':'y'")) fresh)
    = (tt,
       exec upState
         (landed STATE_INOBJECT 1
            (relog m1 ei1 nc1
               (exec (feed Atoi_decimal (json "{'a':'x','b':'y'")) fresh))),
       EvObjectComplete ""
       :: emitted upState
            (landed STATE_INOBJECT 1
               (relog m1 ei1 nc1
                  (exec (feed Atoi_decimal (json "{'a':'x','b':'y'")) fresh)))).
Proof.
  destruct (X15_closing_unwinds Atoi_decimal
              (exec (feed Atoi_decimal (json "{'a':'x','b':'y'")) fresh)
              STATE_INOBJECT 1 1 [])
    as (m1 & ei1 & nc1 & H & _).
  - constructor; vm_compute; first [reflexivity | split; [discriminate | reflexivity]].
  - vm_compute. reflexivity.
  - vm_compute. reflexivity.
  - vm_compute. reflexivity.
  - reflexivity.
  - lia.
  - vm_compute. reflexivity.
  - intros j Hj. replace j with 2.
    + vm_compute. reflexivity.
    + change (stateIndex _) with 3 in Hj. lia.
  - vm_compute. reflexivity.
  - vm_compute. reflexivity.
  - split; [vm_compute; reflexivity | constructor].
  - cbn [length]. lia.
  - exists m1, ei1, nc1. exact H.
Defined.

(** ** A top-level object of string fields *)

(** Computes the members of explicitly given records. *)
Ltac records :=
  cbv beta iota delta
    [set_state set_states set_stateIndex set_allowComma set_isSlash set_stack
     set_chars set_errbufIndex set_numchars
     state states stateIndex allowComma isSlash stack chars errbufIndex
     numchars onError onObjectStart onObjectComplete onArrayStart
     onArrayComplete onString onInteger] in *.

Lemma eat_comma Atoi p :
  wf p -> state p = STATE_OUTVALUE -> stateIndex p + 1 < MAXSTATES ->
  exists m1 ei1 nc1,
    jsonEat Atoi "," p = (tt, pushed STATE_TONAME (relog m1 ei1 nc1 p), [])
    /\ length m1 = length (chars p)
    /\ 0 <= ei1 < MAXERRORBUFFER
    /\ (forall off t, holds (chars p) off t -> (off + length t < 950)%nat ->
                      holds m1 off t).
Proof.
  intros Hwf Hst Hi.
  destruct (jsonEat_logs Atoi "," p Hwf) as (m1 & ei1 & nc1 & Heq & Hl1 & He1 & Hrows1 & _).
  exists m1, ei1, nc1. split; [|auto].
  destruct p as [st sts si ac sl sk m ei nc e1 e2 e3 e4 e5 e6 e7].
  cbn [state stateIndex chars] in *. subst st. apply Z.ltb_lt in Hi.
  rewrite Heq. apply eat_done. unfold pushed, relog. run_concrete.
  rewrite Hi. run_h. reflexivity.
Qed.

Lemma feed_nil_exec Atoi p : exec (feed Atoi []) p = p.
Proof. reflexivity. Qed.

Lemma feed_nil_emitted Atoi p : emitted (feed Atoi []) p = [].
Proof. reflexivity. Qed.

Lemma in_object_start Atoi :
  emitted (jsonEat Atoi "{") fresh = [EvObjectStart ""]
  /\ in_object 0 STATE_TONAME (exec (jsonEat Atoi "{") fresh).
Proof.
  split; [vm_compute; reflexivity|].
  unfold in_object. split.
  { constructor; vm_compute; first [reflexivity | split; [discriminate | reflexivity]]. }
  split; [reflexivity|]. split; [reflexivity|]. split; [reflexivity|].
  split; [reflexivity|]. split; [reflexivity|].
  split; [intros j Hj; change (stateIndex _) with 2 in Hj; lia|].
  split; [split; [vm_compute; reflexivity | constructor]|].
  repeat split; reflexivity.
Qed.

Lemma in_object_field Atoi k p f :
  in_object k STATE_TONAME p -> field_ok f ->
  emitted (feed Atoi (field_text f)) p = [field_event f]
  /\ in_object k STATE_OUTVALUE (exec (feed Atoi (field_text f)) p).
Proof.
  intros (Hwf & Hst & Hsi & Hsk & H0 & H1 & Hj & Hn & Ho1 & Ho2 & Ho3)
         (Hf1 & Hf2 & Hf3 & Hf4).
  destruct (feed_string_field Atoi (fst f) (snd f) p Hwf Hst Ho1 Hf1 Hf2 Hf3 Hf4)
    as (m1 & ei1 & nc1 & Heq & Hl1 & He1 & Hrows1).
  destruct (result_parts _ _ _ _ _ Heq) as [Hx Hv].
  unfold field_text. rewrite Hx, Hv. split; [reflexivity|].
  pose proof (wf_relog p m1 ei1 nc1 Hwf Hl1 He1) as Hwf1.
  assert (Hn1 : holds m1 (name_at 0) []).
  { apply Hrows1; [exact Hn|]. rewrite Hsk. vm_compute. lia. }
  destruct p as [st sts si ac sl sk m ei nc e1 e2 e3 e4 e5 e6 e7].
  unfold in_object, relog in *.
  records.
  split; [destruct Hwf1; constructor; assumption|].
  repeat match goal with |- _ /\ _ => split end; first [reflexivity | assumption].
Qed.

Lemma in_object_comma Atoi k p :
  in_object k STATE_OUTVALUE p -> (k < 7)%nat ->
  emitted (jsonEat Atoi ",") p = []
  /\ in_object (S k) STATE_TONAME (exec (jsonEat Atoi ",") p).
Proof.
  intros (Hwf & Hst & Hsi & Hsk & H0 & H1 & Hj & Hn & Ho1 & Ho2 & Ho3) Hk.
  destruct (eat_comma Atoi p Hwf Hst ltac:(unfold MAXSTATES; lia))
    as (m1 & ei1 & nc1 & Heq & Hl1 & He1 & Hrows1).
  destruct (result_parts _ _ _ _ _ Heq) as [Hx Hv].
  rewrite Hx, Hv. split; [reflexivity|].
  pose proof (wf_relog p m1 ei1 nc1 Hwf Hl1 He1) as Hwf1.
  assert (Hn1 : holds m1 (name_at 0) []).
  { apply Hrows1; [exact Hn|]. vm_compute. lia. }
  destruct p as [st sts si ac sl sk m ei nc e1 e2 e3 e4 e5 e6 e7].
  unfold in_object, pushed, relog in *.
  records.
  destruct Hwf1 as [Hws Hwc Hwi Hwk Hwe]. records.
  change (Z.to_nat MAXSTATES) with 10%nat in Hws.
  split.
  { constructor; records; rewrite ?length_insert; unfold MAXSTATES in *;
      first [assumption | lia]. }
  split; [reflexivity|]. split; [lia|]. split; [assumption|].
  split; [rewrite list_lookup_insert_ne by lia; assumption|].
  split; [rewrite list_lookup_insert_ne by lia; assumption|].
  split; [|repeat match goal with |- _ /\ _ => split end; assumption].
  intros j Hjj. destruct (Z.eq_dec j si) as [->|Hne].
  - subst st. apply list_lookup_insert_eq. lia.
  - rewrite list_lookup_insert_ne by lia. apply Hj. lia.
Qed.

Lemma in_object_fields Atoi fs : forall k p,
  fs <> [] -> in_object k STATE_TONAME p -> (k + length fs <= 8)%nat ->
  Forall field_ok fs ->
  emitted (feed Atoi (fields_text fs)) p = map field_event fs
  /\ in_object (k + length fs - 1) STATE_OUTVALUE (exec (feed Atoi (fields_text fs)) p).
Proof.
  induction fs as [|f fs IH]; intros k p Hne Hin Hlen Hok; [congruence|].
  inversion Hok as [|? ? Hf Hok']; subst.
  destruct (in_object_field Atoi k p f Hin Hf) as [Hv Hx].
  destruct fs as [|f' fs'].
  - cbn [fields_text map length]. rewrite Hv.
    replace (k + 1 - 1)%nat with k by lia. split; [reflexivity | exact Hx].
  - cbn [length] in Hlen.
    destruct (in_object_comma Atoi k _ Hx ltac:(lia)) as [Hv' Hx'].
    destruct (IH (S k) _ ltac:(discriminate) Hx' ltac:(cbn [length]; lia) Hok')
      as [Hv'' Hx''].
    change (fields_text (f :: f' :: fs'))
      with (field_text f ++ ","%char :: fields_text (f' :: fs')).
    rewrite feed_app_emitted, feed_app_exec, feed_cons_emitted, feed_cons_exec.
    rewrite Hv, Hv', Hv''. split; [reflexivity|].
    replace (k + length (f :: f' :: fs') - 1)%nat
      with (S k + length (f' :: fs') - 1)%nat by (cbn [length]; lia).
    exact Hx''.
Qed.

Lemma in_object_close Atoi k p :
  in_object k STATE_OUTVALUE p ->
  emitted (jsonEat Atoi "}") p = [EvObjectComplete ""]
  /\ state (exec (jsonEat Atoi "}") p) = STATE_NONE
  /\ stateIndex (exec (jsonEat Atoi "}") p) = 0
  /\ stack (exec (jsonEat Atoi "}") p) = 0.
Proof.
  intros (Hwf & Hst & Hsi & Hsk & H0 & H1 & Hj & Hn & Ho1 & Ho2 & Ho3).
  destruct (eat_close Atoi p STATE_INOBJECT 1 k [] Hwf Hst Ho2 Ho3 eq_refl
              ltac:(lia) ltac:(lia) Hj H1 ltac:(lia)
              ltac:(rewrite Hsk; exact Hn) ltac:(cbn [length]; lia))
    as (m1 & ei1 & nc1 & Heq & _).
  destruct (result_parts _ _ _ _ _ Heq) as [Hx Hv].
  cbn [closer] in Hx, Hv. rewrite Hx, Hv. clear Heq Hx Hv.
  destruct p as [st sts si ac sl sk m ei nc e1 e2 e3 e4 e5 e6 e7].
  cbn [state states stateIndex stack] in *. subst sk.
  unfold landed, relog. run_h. cbn [Z.ltb Z.compare]. run_h.
  change (Z.to_nat (1 - 1)) with 0%nat. rewrite H0. cbn [from_option id]. run_h.
  repeat split; reflexivity.
Qed.

(** X16: a top-level object of one to eight fields with string values
    is delivered field by field.  Fed to a freshly reset slot, it invokes
    object-start with the empty name, the string callback once for every
    field in the order written, with the field's name and text, and
    object-complete with the empty name; afterwards the slot is in the
    Idle state with both stacks empty. *)
Theorem X16_object_of_string_fields Atoi fs :
  fs <> [] -> (length fs <= 8)%nat -> Forall field_ok fs ->
  emitted (feed Atoi ("{"%char :: fields_text fs ++ ["}"%char])) fresh
  = EvObjectStart "" :: map field_event fs ++ [EvObjectComplete ""]
  /\ state (exec (feed Atoi ("{"%char :: fields_text fs ++ ["}"%char])) fresh) = STATE_NONE
  /\ stateIndex (exec (feed Atoi ("{"%char :: fields_text fs ++ ["}"%char])) fresh) = 0
  /\ stack (exec (feed Atoi ("{"%char :: fields_text fs ++ ["}"%char])) fresh) = 0.
Proof.
  intros Hne Hlen Hok.
  destruct (in_object_start Atoi) as [Hv0 Hx0].
  destruct (in_object_fields Atoi fs 0 (exec (jsonEat Atoi "{") fresh)
              Hne Hx0 ltac:(lia) Hok) as [Hv1 Hx1].
  destruct (in_object_close Atoi _ (exec (feed Atoi (fields_text fs))
                                      (exec (jsonEat Atoi "{") fresh)) Hx1)
    as (Hv2 & Hc1 & Hc2 & Hc3).
  rewrite (feed_cons_emitted Atoi "{" (fields_text fs ++ ["}"%char])),
    (feed_cons_exec Atoi "{" (fields_text fs ++ ["}"%char])).
  rewrite (feed_app_emitted Atoi (fields_text fs) ["}"%char]),
    (feed_app_exec Atoi (fields_text fs) ["}"%char]).
  rewrite (feed_cons_emitted Atoi "}" []), (feed_cons_exec Atoi "}" []).
  rewrite Hv0, Hv1, Hv2.
  generalize dependent (exec (jsonEat Atoi "}")
                          (exec (feed Atoi (fields_text fs))
                             (exec (jsonEat Atoi "{") fresh))).
  intros q Hc1 Hc2 Hc3.
  rewrite (feed_nil_exec Atoi q), (feed_nil_emitted Atoi q).
  split; [reflexivity|].
  exact (conj Hc1 (conj Hc2 Hc3)).
Qed.

Lemma X16_object_of_string_fields_witness :
  emitted (feed Atoi_decimal (json "{'a':'x','b':'y\'z'}")) fresh
  = [EvObjectStart ""; EvString "a" "x"; EvString "b" (str (json "y\'z"));
     EvObjectComplete ""].
Proof.
  refine (proj1 (X16_object_of_string_fields Atoi_decimal
                   [(["a"%char], [Plain "x"]);
                    (["b"%char], [Plain "y"; Escaped dquote; Plain "z"])] _ _ _)).
  - discriminate.
  - cbn [length]. lia.
  - repeat constructor; first [discriminate | cbn; lia].
Defined.

(** ** The context of an error *)






(** ** The helpers leave the error log alone *)

Lemma same_log_refl p : same_log p p.
Proof. repeat split. Qed.

Lemma same_log_trans p q r : same_log p q -> same_log q r -> same_log p r.
Proof.
  intros (H1 & H2 & H3 & H4) (K1 & K2 & K3 & K4).
  repeat split; try congruence. intros i Hi. rewrite K4, H4 by exact Hi. reflexivity.
Qed.

Lemma logsafe_ret {A} N (G : A -> Z) (a : A) : 0 <= G a -> logsafe N G (ret a).
Proof. intros H p _ _ _. right. split; [apply same_log_refl | cbn; lia]. Qed.

Lemma logsafe_mret {A} N (G : A -> Z) (a : A) : 0 <= G a -> logsafe N G (mret a : M A).
Proof. apply logsafe_ret. Qed.

Lemma logsafe_get {A} N (f : parser_data_t -> A) : logsafe N (fun _ => 0) (get f).
Proof. intros p _ _ _. right. split; [apply same_log_refl | cbn; lia]. Qed.

Lemma logsafe_call N cb ev : logsafe N (fun _ => 0) (call cb ev).
Proof. intros p _ _ _. right. split; [apply same_log_refl | cbn; lia]. Qed.

Lemma logsafe_modify N G1 f :
  (forall p, stack p + N < MAXSTACK ->
             same_log p (f p) /\ stack (f p) <= stack p + G1) ->
  logsafe N (fun _ => G1) (modify f).
Proof. intros H p _ _ Hk. right. apply H, Hk. Qed.

Lemma logsafe_bind {A B} N (G : B -> Z) G1 (m : M A) (f : A -> M B) :
  logsafe N (fun _ => G1) m ->
  (forall a, logsafe (N - G1) (fun b => G b - G1) (f a)) ->
  logsafe N G (m ≫= f).
Proof.
  intros Hm Hf p Hon Hnc Hk. rewrite exec_bind, emitted_bind.
  destruct (Hm p Hon Hnc Hk) as [He | [(H1 & H2 & H3 & H4) Hs]].
  { left. apply Exists_app. left. exact He. }
  destruct (Hf (fst (fst (m p))) (exec m p)) as [He | [Hl Hs']];
    [congruence | lia | lia | |].
  { left. apply Exists_app. right. exact He. }
  right. split.
  - eapply same_log_trans; [|exact Hl]. repeat split; assumption.
  - change (fst (fst ((m ≫= f) p)))
      with (fst (fst (f (fst (fst (m p))) (exec m p)))).
    lia.
Qed.

Lemma logsafe_tail {A} N (G : A -> Z) G1 (m : M A) :
  logsafe N (fun _ => G1) m -> (forall a, G1 <= G a) -> logsafe N G m.
Proof.
  intros Hm HG p Hon Hnc Hk.
  destruct (Hm p Hon Hnc Hk) as [He | [Hl Hs]]; [left; exact He|].
  right. split; [exact Hl|]. pose proof (HG (fst (fst (m p)))). lia.
Qed.

Lemma logsafe_if {A} N (G : A -> Z) (b : bool) (m1 m2 : M A) :
  (b = true -> logsafe N G m1) -> (b = false -> logsafe N G m2) ->
  logsafe N G (if b then m1 else m2).
Proof. destruct b; auto. Qed.

Lemma logsafe_when N (G : unit -> Z) (b : bool) (m : M unit) :
  0 <= G tt -> (b = true -> logsafe N G m) -> logsafe N G (when b m).
Proof. intros HG H. destruct b; [auto | apply logsafe_ret, HG]. Qed.

Lemma logsafe_jsonError N (G : unit -> Z) err : logsafe N G (jsonError err).
Proof.
  intros p Hon Hnc _. left. unfold jsonError. rewrite emitted_bind.
  apply Exists_app. left. unfold emitted, report. cbn [snd].
  rewrite (locerrbuf_in_bounds p Hnc), Hon. constructor. reflexivity.
Qed.

(** A store below the error buffer, with the name stack as it is. *)
Ltac log_kept :=
  intros [st sts si ac sl sk m ei nc e1 e2 e3 e4 e5 e6 e7] Hk;
  unfold same_log; run_m; cbn [stack] in Hk;
  repeat match goal with |- _ /\ _ => split end;
  try reflexivity; try lia;
  intros i Hi; rewrite ?list_lookup_insert_ne;
  first [ reflexivity
        | revert Hi;
          unfold errbuf_at, name_at, value_at, MAXSTACK, MAXNAME, MAXVALUE in *;
          lia ].

Ltac logsafe_leaf :=
  first [ apply logsafe_get | apply logsafe_call
        | solve [eauto 3 with logsafe nocore]
        | apply (logsafe_modify _ 0); log_kept
        | apply (logsafe_modify _ 1); log_kept ].

Ltac logsafe_side :=
  intros; cbn [is_container];
  repeat match goal with |- context [if ?b then _ else _] => destruct b end; lia.

(** Splits a goal [logsafe N G m] along the structure of [m]; [g] is
    what the alternatives of a dispatch may raise the name stack by. *)
Ltac logsafe_split g :=
  repeat lazymatch goal with
    | |- logsafe _ _ (jsonError _) => apply logsafe_jsonError
    | |- logsafe _ _ (mbind _ (if _ then _ else _)) =>
        apply (logsafe_bind _ _ g); [|intros ?]
    | |- logsafe _ _ (mbind _ _) => eapply logsafe_bind; [logsafe_leaf | intros ?]
    | |- logsafe _ _ (if _ then _ else _) =>
        apply logsafe_if; intros ?; try congruence
    | |- logsafe _ _ (when _ _) => apply logsafe_when; [logsafe_side | intros ?]
    | |- logsafe _ _ (match ?s with STATE_NONE => _ | _ => _ end) => destruct s
    | |- logsafe _ _ (ret _) => apply logsafe_ret; logsafe_side
    | |- logsafe _ _ (mret _) => apply logsafe_mret; logsafe_side
    | |- logsafe _ _ _ => eapply logsafe_tail; [logsafe_leaf | logsafe_side]
    end.

Create HintDb logsafe.
#[local] Hint Extern 1 (_ <= _) => cbn [is_container]; lia : logsafe.

Lemma appendName_logsafe N c : 0 <= N -> logsafe N (fun _ => 0) (appendName c).
Proof. intros HN. unfold appendName. logsafe_split 0. Qed.

Lemma appendValue_logsafe N c : 1 <= N -> logsafe N (fun _ => 0) (appendValue c).
Proof. intros HN. unfold appendValue. logsafe_split 0. Qed.

Lemma setState_logsafe N st :
  0 <= N -> logsafe N (fun _ => if is_container st then 1 else 0) (setState st).
Proof. intros HN. unfold setState. destruct st; cbn [is_container]; logsafe_split 0. Qed.

#[local] Hint Resolve appendName_logsafe appendValue_logsafe setState_logsafe : logsafe.

Lemma toState_logsafe N st :
  0 <= N -> logsafe N (fun _ => if is_container st then 1 else 0) (toState st).
Proof.
  intros HN. unfold toState. logsafe_split 0.
Qed.

Lemma upState_logsafe N : 0 <= N -> logsafe N (fun _ => 0) upState.
Proof. intros HN. unfold upState. logsafe_split 0. Qed.

#[local] Hint Resolve toState_logsafe upState_logsafe : logsafe.











(** The bound on the nesting is needed: with four containers open, a
    string of [MAXVALUE] characters puts its terminator on the first
    byte of the error buffer, and the context of the next error stops
    there. *)
Lemma context_cut_at_full_depth :
  emitted (jsonEat Atoi_decimal "x")
    (exec (feed Atoi_decimal
             (json "{'a':{'a':{'a':{'k':'" ++ repeat "x"%char 160 ++ json "',"))
       fresh)
  = [EvError ERR_PARSE_NAME "parsing name" "xxxxxxxxxxxxxxxx"].
Proof. vm_compute. reflexivity. Qed.

(** ** Reset *)

(** X19: what [jsonReset] does and what it leaves.  The slot becomes
    Idle with both stacks empty and both flags clear, the error log is
    emptied, and the bottom name and value rows hold the empty string;
    the saved states, every other byte of the character arrays (the
    names and values of the abandoned parse among them) and the callback
    registrations stay as they were. *)
Theorem X19_reset_leaves_the_rows p :
  wf p ->
  let q := exec jsonReset p in
  idle q /\ logged q [] /\ wf q
  /\ holds (chars q) (name_at 0) [] /\ holds (chars q) (value_at 0) []
  /\ states q = states p /\ callbacks q = callbacks p
  /\ (forall i, i <> name_at 0 -> i <> value_at 0 -> chars q !! i = chars p !! i).
Proof.
  intros Hwf. cbn zeta.
  pose proof (jsonReset_wf p Hwf) as Hwf'.
  destruct Hwf as [Hws Hwc Hwi Hwk Hwe].
  destruct p as [st sts si ac sl sk m ei nc e1 e2 e3 e4 e5 e6 e7].
  cbn [chars] in Hwc. change (Z.to_nat _) with 970%nat in Hwc.
  revert Hwf'. unfold idle, logged, callbacks. run_h. intros Hwf'.
  change (name_at 0) with 0%nat. change (value_at 0) with 150%nat.
  split; [repeat split|]. split; [repeat split; intros i Hi; cbn in Hi; lia|].
  split; [exact Hwf'|].
  split; [apply holds_poke_other; [apply holds_nil; lia | right; cbn [length]; lia]|].
  split; [apply holds_nil; rewrite length_insert; lia|].
  split; [reflexivity|]. split; [reflexivity|].
  intros i H1 H2. rewrite !list_lookup_insert_ne by congruence. reflexivity.
Qed.

Lemma X19_reset_leaves_the_rows_witness :
  idle (exec jsonReset (exec (feed Atoi_decimal (json "{'a':{'b':'x")) fresh))
  /\ states (exec jsonReset (exec (feed Atoi_decimal (json "{'a':{'b':'x")) fresh))
     = states (exec (feed Atoi_decimal (json "{'a':{'b':'x")) fresh).
Proof.
  destruct (X19_reset_leaves_the_rows
              (exec (feed Atoi_decimal (json "{'a':{'b':'x")) fresh))
    as (H1 & _ & _ & _ & _ & H6 & _).
  - constructor; vm_compute; first [reflexivity | split; [discriminate | reflexivity]].
  - exact (conj H1 H6).
Defined.
